(** * Cassius message parser: a shallow embedding of [src/message-parser.js]

    The development follows the source file top to bottom: the JavaScript
    string primitives the parser relies on, the [Context] class with its
    [run] method, and the [MessageParser] class with [parse],
    [parseCommand], [parseFormats] and [moderate].

    Conventions.
    - A JavaScript string is a Rocq [string], one [ascii] per UTF-16 code
      unit; only code units below 256 are representable.
    - A JavaScript number that carries a time stamp, a point count or the
      result of [parseInt] is a [number]: an integer, an infinity or
      [NaN].  What [parseInt] reads and what the arithmetic on time stamps
      yields is rounded to the nearest double ([JS.double]); the points of
      the configuration and of a record are counted in [Z], which is exact
      below 2^53.
    - A plain object used as a dictionary ([Commands], [room.listeners],
      [formatsData], the [Config] tables) is a [gmap string _] holding its
      own properties.  A key the object does not hold itself is answered
      by [Object.prototype]: the reads of this file go through
      [JS.inherited], and only a key that is neither own nor inherited is
      [undefined].
    - Calls into collaborators that live outside this file ([room.say],
      [Client.send], [console.log], command handlers, listeners) are
      recorded, in order, as [event]s.  A handler or a listener is
      represented by the way its call completes; the hooks of [Config] are
      functions of their arguments.  What such code may itself write to
      users, rooms or records is outside the embedding. *)

From Stdlib Require Import ZArith List String Ascii Bool Lia.
From stdpp Require Import base option list gmap strings pretty.

Local Open Scope string_scope.
Local Open Scope Z_scope.

(** ** JavaScript values used by the parser *)

Module JS.

(** [number]: the IEEE double values the parser can observe: the
    integers, the two infinities and [NaN].  The two zeros are not told
    apart, which nothing in the file can do. *)
Inductive number := NaN | Num (z : Z) | Inf (negative : bool).

(** The double nearest to the integer [z], ties to even: an integer below
    2^53 in magnitude is a double; above, the bits below the 53 leading
    ones are rounded away; from 2^1024 on the result is an infinity. *)
Definition double (z : Z) : number :=
  let a := Z.abs z in
  if a <? 2 ^ 53 then Num z
  else
    let e := Z.log2 a - 52 in
    let q := Z.shiftr a e in
    let r := a - Z.shiftl q e in
    let half := 2 ^ (e - 1) in
    let q := if (half <? r) || ((r =? half) && Z.odd q) then q + 1 else q in
    let v := Z.shiftl q e in
    if 2 ^ 1024 <=? v then Inf (z <? 0) else Num (Z.sgn z * v).
Arguments double : simpl never.

Definition isNaN (n : number) : bool :=
  match n with NaN => true | _ => false end.

(** [!!n] for a number: [0] and [NaN] are falsy. *)
Definition truthy_num (n : number) : bool :=
  match n with NaN => false | Num z => negb (z =? 0) | Inf _ => true end.

Definition sub (a b : number) : number :=
  match a, b with
  | Num x, Num y => double (x - y)
  | Inf s, Num _ => Inf s
  | Num _, Inf s => Inf (negb s)
  | Inf s, Inf t => if Bool.eqb s t then NaN else Inf s
  | _, _ => NaN
  end.

Definition mul (a b : number) : number :=
  match a, b with
  | Num x, Num y => double (x * y)
  | Inf s, Num y | Num y, Inf s => if y =? 0 then NaN else Inf (xorb s (y <? 0))
  | Inf s, Inf t => Inf (xorb s t)
  | _, _ => NaN
  end.

(** Relational operators: any comparison with [NaN] is [false]. *)
Definition lt (a b : number) : bool :=
  match a, b with
  | Num x, Num y => x <? y
  | Inf s, Num _ => s
  | Num _, Inf s => negb s
  | Inf s, Inf t => s && negb t
  | _, _ => false
  end.
Definition le (a b : number) : bool :=
  match a, b with
  | Num x, Num y => x <=? y
  | Inf s, Num _ => s
  | Num _, Inf s => negb s
  | Inf s, Inf t => s || negb t
  | _, _ => false
  end.
Definition ge (a b : number) : bool := le b a.

(** [!!s] for a string: only the empty string is falsy. *)
Definition truthy_str (s : string) : bool :=
  match s with EmptyString => false | String _ _ => true end.

Definition code (c : ascii) : N := N_of_ascii c.

(** White space as matched by [\s] and stripped by [trim]
    (TAB, LF, VT, FF, CR, SP, NBSP among the code units below 256). *)
Definition is_ws (c : ascii) : bool :=
  let n := code c in
  ((9 <=? n) && (n <=? 13) || (n =? 32) || (n =? 160))%N.

(** Line terminators below 256, the characters [.] refuses. *)
Definition is_line_terminator (c : ascii) : bool :=
  let n := code c in ((n =? 10) || (n =? 13))%N.

Definition chars (s : string) : list ascii := list_ascii_of_string s.
Definition str (l : list ascii) : string := string_of_list_ascii l.

Definition len (s : string) : Z := Z.of_nat (String.length s).

Fixpoint drop_ws (l : list ascii) : list ascii :=
  match l with
  | c :: l' => if is_ws c then drop_ws l' else l
  | [] => []
  end.

(** [s.trim()] *)
Definition trim (s : string) : string :=
  str (rev (drop_ws (rev (drop_ws (chars s))))).

(** [s.charAt(i)]: the empty string when [i] is out of range. *)
Definition charAt (s : string) (i : Z) : string :=
  if (i <? 0) then ""
  else match String.get (Z.to_nat i) s with
       | Some c => String c ""
       | None => ""
       end.

(** Start position of [substr]: a negative start counts from the end. *)
Definition substr_start (s : string) (start : Z) : nat :=
  if start <? 0 then Z.to_nat (Z.max (len s + start) 0)
  else Z.to_nat (Z.min start (len s)).

(** [s.substr(start)] *)
Definition substr_from (s : string) (start : Z) : string :=
  str (drop (substr_start s start) (chars s)).

(** [s.substr(start, length)] *)
Definition substr (s : string) (start length : Z) : string :=
  str (take (Z.to_nat length) (drop (substr_start s start) (chars s))).

Fixpoint is_prefix (p l : list ascii) : bool :=
  match p, l with
  | [], _ => true
  | a :: p', b :: l' => Ascii.eqb a b && is_prefix p' l'
  | _ :: _, [] => false
  end.

(** Index of the first occurrence of [p] in [l] at or after offset [i]. *)
Fixpoint index_from (p l : list ascii) (i : Z) : Z :=
  if is_prefix p l then i
  else match l with
       | [] => -1
       | _ :: l' => index_from p l' (i + 1)
       end.

(** [s.indexOf(p)] *)
Definition indexOf (s p : string) : Z := index_from (chars p) (chars s) 0.

(** [s.includes(p)] *)
Definition includes (s p : string) : bool := negb (indexOf s p =? -1).

Fixpoint last_index_from (c : ascii) (l : list ascii) (i last : Z) : Z :=
  match l with
  | [] => last
  | a :: l' => last_index_from c l' (i + 1) (if Ascii.eqb a c then i else last)
  end.

(** [s.lastIndexOf(c)] for a one-character pattern. *)
Definition lastIndexOf (s : string) (c : ascii) : Z :=
  last_index_from c (chars s) 0 (-1).

Fixpoint split_chars (sep : ascii) (l cur : list ascii) : list string :=
  match l with
  | [] => [str (rev cur)]
  | a :: l' =>
      if Ascii.eqb a sep then str (rev cur) :: split_chars sep l' []
      else split_chars sep l' (a :: cur)
  end.

(** [s.split(sep)] for a one-character separator: never empty. *)
Definition split (s : string) (sep : ascii) : list string :=
  split_chars sep (chars s) [].

(** [a.join(sep)] *)
Fixpoint join (sep : string) (l : list string) : string :=
  match l with
  | [] => ""
  | [x] => x
  | x :: l' => x +:+ sep +:+ join sep l'
  end.

(** Value of a digit in radixes up to 36. *)
Definition digit_value (c : ascii) : option Z :=
  let n := Z.of_N (code c) in
  if (48 <=? n) && (n <=? 57) then Some (n - 48)
  else if (97 <=? n) && (n <=? 122) then Some (n - 87)
  else if (65 <=? n) && (n <=? 90) then Some (n - 55)
  else None.

(** Longest prefix of radix-[r] digits, folded into its value; [None]
    when the prefix is empty. *)
Fixpoint digits (r : Z) (l : list ascii) (acc : option Z) : option Z :=
  match l with
  | [] => acc
  | c :: l' =>
      match digit_value c with
      | Some d =>
          if d <? r then digits r l' (Some (default 0 acc * r + d)) else acc
      | None => acc
      end
  end.

Definition strip_sign (l : list ascii) : Z * list ascii :=
  match l with
  | "-"%char :: l' => (-1, l')
  | "+"%char :: l' => (1, l')
  | _ => (1, l)
  end.

Definition strip_0x (l : list ascii) : option (list ascii) :=
  match l with
  | "0"%char :: "x"%char :: l' => Some l'
  | "0"%char :: "X"%char :: l' => Some l'
  | _ => None
  end.

(** [parseInt(s, radix)] with [radix] either omitted ([None]) or 16:
    leading white space and a sign are skipped, a [0x] prefix selects
    (or is allowed by) radix 16, and the longest digit prefix is read.
    The result is the double nearest to the integer read. *)
Definition parseInt (s : string) (radix : option Z) : number :=
  let '(sign, l) := strip_sign (drop_ws (chars s)) in
  let '(r, l) :=
    match radix, strip_0x l with
    | None, Some l' => (16, l')
    | None, None => (10, l)
    | Some 16, Some l' => (16, l')
    | Some r, _ => (r, l)
    end in
  match digits r l None with
  | Some v => double (sign * v)
  | None => NaN
  end.

(** [parseInt(undefined)]: the string ["undefined"] has no digit. *)
Definition parseInt_opt (s : option string) : number :=
  match s with Some s => parseInt s None | None => NaN end.

(** ['' + n] for an integer. *)
Definition num_to_string (z : Z) : string := pretty z.

(** The property names a plain object inherits from [Object.prototype]. *)
Definition object_prototype : list string :=
  ["constructor"; "__defineGetter__"; "__defineSetter__"; "hasOwnProperty";
   "__lookupGetter__"; "__lookupSetter__"; "isPrototypeOf";
   "propertyIsEnumerable"; "toString"; "valueOf"; "__proto__";
   "toLocaleString"].

(** [key in {}]: is the key answered by [Object.prototype]? *)
Definition inherited (key : string) : bool :=
  existsb (String.eqb key) object_prototype.

(** [typeof {}[key] === 'function'] for an inherited key: every member is
    a function but [__proto__], which reads as the prototype object. *)
Definition inherited_function (key : string) : bool :=
  inherited key && negb (String.eqb key "__proto__").

(** The inherited functions that raise a [TypeError] when their second
    argument is not callable. *)
Definition wants_callable (key : string) : bool :=
  String.eqb key "__defineGetter__" || String.eqb key "__defineSetter__".

(** ['' + {}[key]] for an inherited key. *)
Definition inherited_text (key : string) : string :=
  if String.eqb key "__proto__" then "[object Object]"
  else "function " +:+ (if String.eqb key "constructor" then "Object" else key)
       +:+ "() { [native code] }".

End JS.

(** ** Tools.toId *)

Module Tools.

Definition lower (c : ascii) : ascii :=
  let n := JS.code c in
  if ((65 <=? n) && (n <=? 90))%N then ascii_of_N (n + 32) else c.

Definition is_id_char (c : ascii) : bool :=
  let n := JS.code c in
  ((97 <=? n) && (n <=? 122) || (48 <=? n) && (n <=? 57))%N.

(** Modelled from the spec: [Tools.toId] lives in the repository's tools
    module, which is not part of [src/].  The glossary describes a
    normalized identifier as the "lowercase, punctuation/space-stripped
    canonical form of a name": letters are lowered and every character
    that is not a lowercase letter or a digit is removed. *)
Definition toId (s : string) : string :=
  JS.str (filter (fun c => is_id_char c = true) (map lower (JS.chars s))).

(** [Tools.toId] applied to a possibly [undefined] field: nothing to
    normalize yields the empty identifier. *)
Definition toId_opt (s : option string) : string :=
  match s with Some s => toId s | None => "" end.

End Tools.

(** ** Data model: users, rooms, moderation records, formats *)

(** The per-(user, room) moderation record, [user.roomData.get(room)]. *)
Module Record.
Record t := mk {
  messages : list (string * JS.number);   (* newest first *)
  points : JS.number;
  lastAction : JS.number;
}.

(** [{messages: [], points: 0, lastAction: 0}] *)
Definition fresh : t := mk [] (JS.Num 0) (JS.Num 0).
End Record.

(** A [User] object.  The [Map]s keyed by [Room] objects are keyed here by
    the room's id. *)
Module User.
Record t := mk {
  name : string;
  id : string;
  rooms : gmap string string;        (* room -> rank *)
  roomData : gmap string Record.t;   (* room -> moderation record *)
}.
End User.

(** A callback is represented by the way a call to it completes. *)
Inductive thrown :=
| Nullish                           (* [throw null], [throw undefined] *)
| Thrown (stack : option string).   (* any other value; what [e.stack] reads *)

Inductive outcome := Returns | Throws (e : thrown).

(** A [Room] object.  [users], a [Map] from user objects to ranks, is
    keyed by user id; the rank the map holds under the key [undefined],
    which is no user, is kept apart. *)
Module Room.
Record t := mk {
  id : string;
  users : gmap string string;        (* user -> rank *)
  listeners : gmap string outcome;   (* token -> pending listener *)
  undefined_rank : option string;    (* room.users.get(undefined) *)
}.
End Room.

(** [Room | User]: where a command was issued. *)
Inductive place := InRoom (r : Room.t) | InPM (u : User.t).

Module Format.
Record t := mk {
  name : string;
  id : string;
  section : string;
  searchShow : bool;
  challengeShow : bool;
  tournamentShow : bool;
}.
End Format.

(** Errors that leave a method of this file. *)
Inductive error :=
| TypeError (site : string)   (* raised by the runtime at [site] *)
| Error (message : string)    (* [throw new Error(message)] *)
| Uncaught (e : thrown).      (* thrown by a callback and not caught *)

Inductive completion (A : Type) :=
| Normal (a : A)
| Abrupt (e : error).
Arguments Normal {A} a.
Arguments Abrupt {A} e.

(** ** class Context *)

Module Context.

Record t := mk {
  target : string;
  room : place;
  user : User.t;
  command : string;
  time : JS.number;
}.

End Context.

(** A value read from [Commands]: a handler, called with [this] bound to
    the context and the target as first argument, the name of another
    entry, or a member of [Object.prototype]. *)
Inductive entry :=
| Handler (h : Context.t -> string -> outcome)
| Alias (a : string)
| Inherited (key : string).

(** [Commands[command]]: the own property, else the inherited one. *)
Definition lookup_entry (Commands : gmap string entry) (command : string)
    : option entry :=
  match Commands !! command with
  | Some e => Some e
  | None => if JS.inherited command then Some (Inherited command) else None
  end.

(** [!Commands[command]]: absent entries and the empty alias are falsy. *)
Definition truthy_entry (e : option entry) : bool :=
  match e with
  | Some (Handler _) => true
  | Some (Alias a) => JS.truthy_str a
  | Some (Inherited _) => true
  | None => false
  end.

(** Lines 57-61 of [run] and 248-252 of [parseCommand]: a falsy entry
    stops the resolution; an alias is followed, once. *)
Definition follow (Commands : gmap string entry) (command : string) : option string :=
  if negb (truthy_entry (lookup_entry Commands command)) then None
  else Some (match lookup_entry Commands command with
             | Some (Alias a) => a
             | _ => command
             end).

(** What the parser does to the outside, in program order. *)
Inductive event :=
| Log (text : string)                            (* console.log(text) *)
| Send (text : string)                           (* Client.send(text) *)
| Login                                          (* Client.login() *)
| Say (room : string) (text : string)            (* room.say(text), room given by id *)
| Invoke (command : string) (this : Context.t) (target : string)
                                                 (* Commands[command].call(this, target, ...) *)
| Listener (room : string) (token : string)      (* room.listeners[token]() *)
| OnJoin (room : string) (user : string) (rank : string)   (* room.onJoin(user, rank) *)
| OnLeave (room : string) (user : string)        (* room.onLeave(user) *)
| OnRename (room : string) (user : string) (newName : option string)
                                                 (* room.onRename(user, name) *)
| Destroy (room : string)                        (* Rooms.destroy(room) *)
| FormatCacheClear                               (* Tools.FormatCache.clear() *)
| CallParseCommand (message : string) (room : place) (user : string)
                                                 (* this.parseCommand(...) entered *)
| CallModerate (message : string) (room : string) (user : string)
                                                 (* this.moderate(...) entered *).

(** Collaborators whose code is outside this file and whose answers the
    parser only consumes. *)
Record Env := {
  (** [Date.now()] during the call. *)
  now : Z;
  (** [new Date(time).toLocaleString()] *)
  toLocaleString : JS.number -> string;
  (** [user.hasRank(room, rank)] *)
  hasRank : User.t -> string -> string -> bool;
  (** [e.stack] of the [TypeError] the inherited function of that name
      raises *)
  stackOf : string -> string;
}.

(** An inherited function called as a handler, with the target and the
    room as first arguments: [__defineGetter__] and [__defineSetter__]
    refuse the room, which is not callable; the others return. *)
Definition builtin (E : Env) (key : string) : Context.t -> string -> outcome :=
  fun _ _ =>
    if JS.wants_callable key then Throws (Thrown (Some (stackOf E key)))
    else Returns.

(** [typeof Commands[command] === 'function'], and the function. *)
Definition as_function (E : Env) (e : option entry)
    : option (Context.t -> string -> outcome) :=
  match e with
  | Some (Handler h) => Some h
  | Some (Inherited key) =>
      if JS.inherited_function key then Some (builtin E key) else None
  | _ => None
  end.

Definition nl : string := String (ascii_of_nat 10) "".

(** The double quote character. *)
Definition dq : string := String (ascii_of_nat 34) "".

Module ContextMethods.
Import Context.

(** [new Context(target, room, user, command, time)] *)
Definition new (E : Env) (target : option string) (room : place)
    (user : User.t) (command : string) (time : option JS.number) : Context.t :=
  {| target := match target with
               | Some t => if JS.truthy_str t then JS.trim t else ""
               | None => ""
               end;
     room := room;
     user := user;
     command := command;
     time := match time with
             | Some n => if JS.truthy_num n then n else JS.Num (now E)
             | None => JS.Num (now E)
             end |}.

Definition place_id (p : place) : string :=
  match p with InRoom r => Room.id r | InPM u => User.id u end.

(** [say(text)] *)
Definition say (this : Context.t) (text : string) : list event :=
  [Say (place_id (room this)) text].

(** The text logged by the [catch] block of [run]. *)
Definition diagnostic (E : Env) (this : Context.t) (stack : option string)
    (command target : string) : string :=
  default "undefined" stack
    +:+ "Additional information:" +:+ nl
    +:+ "Command = " +:+ command +:+ nl
    +:+ "Target = " +:+ target +:+ nl
    +:+ "Time = " +:+ toLocaleString E (time this) +:+ nl
    +:+ "User = " +:+ User.name (user this) +:+ nl
    +:+ "Room = " +:+ match room this with
                      | InPM _ => "in PM"
                      | InRoom r => Room.id r
                      end.

(** Lines 68-84 of [run]: the type test, the call in its [try] block and
    the [catch] block. *)
Definition invoke (E : Env) (Commands : gmap string entry) (this : Context.t)
    (command target : string) : list event * completion bool :=
  match as_function E (lookup_entry Commands command) with
  | None => ([], Normal false)
  | Some h =>
      match h this target with
      | Returns => ([Invoke command this target], Normal true)
      | Throws Nullish =>
          (* [e.stack] on [null] or [undefined] *)
          ([Invoke command this target], Abrupt (TypeError "e.stack"))
      | Throws (Thrown stack) =>
          ([Invoke command this target;
            Log (diagnostic E this stack command target)], Normal false)
      end
  end.

(** [run(command, target)], both arguments optional. *)
Definition run (E : Env) (Commands : gmap string entry) (this : Context.t)
    (command target : option string) : list event * completion bool :=
  match command with
  | Some (String _ _ as c) =>
      match follow Commands (Tools.toId c) with
      | None => ([], Normal false)
      | Some c =>
          match target with
          | None => ([], Abrupt (TypeError "target.trim"))
          | Some t => invoke E Commands this c (JS.trim t)
          end
      end
  | _ => invoke E Commands this (Context.command this) (Context.target this)
  end.

End ContextMethods.

(** ** class MessageParser *)

(** The options of [Config] read by this file. *)
Inductive rooms_option :=
| RoomsArray (l : list string)
| RoomsOther.                   (* truthy, but not an array *)

Inductive allow_option :=
| AllowFlag (b : bool)
| AllowPerRoom (m : gmap string bool).

(** A candidate punishment, [{action, rule, reason}]. *)
Record punishment := {
  action : string;
  rule : string;
  reason : string;
}.

Record Config := {
  username : string;
  commandCharacter : string;
  rooms : option rooms_option;
  (** The optional hook; the boolean answers
      [Config.parseMessage(room, messageType, splitMessage) === false]. *)
  parseMessage : option (Room.t -> option string -> list string -> bool);
  (** [Config.moderate(message, room, user, time)] when it returns an array *)
  moderate_hook : option (string -> Room.t -> User.t -> JS.number -> list punishment);
  allowModeration : allow_option;
  punishmentPoints : option (gmap string Z);
  punishmentActions : option (gmap string string);
  punishmentReasons : option (gmap string string);
}.

(** [Array.prototype.sort(cmp)]: a stable sort; an element moves behind its
    right neighbour only when [cmp] is positive. *)
Fixpoint sort_insert {A} (cmp : A -> A -> Z) (x : A) (l : list A) : list A :=
  match l with
  | [] => [x]
  | y :: l' => if 0 <? cmp x y then y :: sort_insert cmp x l' else x :: l
  end.

Definition js_sort {A} (cmp : A -> A -> Z) (l : list A) : list A :=
  foldr (sort_insert cmp) [] l.

(** *** Regular expressions of the file *)

Module Regex.

(** [s.replace(whitespaceRegex, '')] *)
Definition strip_whitespace (s : string) : string :=
  JS.str (filter (fun c => JS.is_ws c = false) (JS.chars s)).

(** [s.replace(nullCharactersRegex, '')]: of the class U+0000,
    U+200B to U+200F only code unit 0 is representable. *)
Definition strip_null (s : string) : string :=
  JS.str (filter (fun c => (JS.code c =? 0)%N = false) (JS.chars s)).

(** [s.match(capsRegex)]: the matches are the capital letters, one each. *)
Definition is_cap (c : ascii) : bool :=
  let n := JS.code c in ((65 <=? n) && (n <=? 90))%N.

Definition caps (s : string) : list ascii :=
  filter (fun c => is_cap c = true) (JS.chars s).

(** Number of copies of [p] at the head of [l]. *)
Fixpoint repeats (fuel : nat) (p l : list ascii) : nat :=
  match fuel with
  | O => O
  | S fuel' =>
      if JS.is_prefix p l then S (repeats fuel' p (drop (length p) l)) else O
  end.

(** [(.+)\1+] anchored at the head of [l]: the group is tried greedily,
    with [k], [k - 1], ..., 1 characters, and the first group that is
    followed by a copy of itself wins; [\1+] then takes every further
    copy.  The result is the length of the match. *)
Fixpoint stretch_at (k : nat) (l : list ascii) : option nat :=
  match k with
  | O => None
  | S k' =>
      let p := take k l in
      if (length p =? k)%nat
         && forallb (fun c => negb (JS.is_line_terminator c)) p
         && JS.is_prefix p (drop k l)
      then Some (k * S (repeats (length l) p (drop k l)))%nat
      else stretch_at k' l
  end.

(** The successive matches of the global [stretchRegex], left to right. *)
Fixpoint stretch_matches (fuel : nat) (l : list ascii) : list string :=
  match fuel with
  | O => []
  | S fuel' =>
      match l with
      | [] => []
      | _ :: l' =>
          match stretch_at (length l) l with
          | Some n => JS.str (take n l) :: stretch_matches fuel' (drop n l)
          | None => stretch_matches fuel' l'
          end
      end
  end.

(** [s.match(stretchRegex)]; [null] is the empty list. *)
Definition stretches (s : string) : list string :=
  stretch_matches (S (String.length s)) (JS.chars s).

End Regex.

Definition FLOOD_MINIMUM_MESSAGES : nat := 5.
Definition FLOOD_MAXIMUM_TIME : Z := 5 * 1000.
Definition STRETCHING_MINIMUM : Z := 20.
Definition CAPS_MINIMUM : Z := 30.
Definition PUNISHMENT_COOLDOWN : Z := 5 * 1000.

(** Modelled from the spec: the user registry [Users] lives in the
    repository's users module, which is not part of [src/].  The spec has
    each user "added/looked up in the global user registry" under its
    normalized identifier, and has "no user created when the identifier
    cannot be normalized"; [Users.self] is the registry's user for the
    local account. *)
Module Users.

Record t := mk {
  users : gmap string User.t;
  selfId : string;
}.

(** [Users.get(name)]: the user, or [undefined]. *)
Definition get (U : t) (name : option string) : option User.t :=
  users U !! Tools.toId_opt name.

(** [Users.add(name)]: the user of that id, created when new. *)
Definition add (U : t) (name : option string) : option User.t * t :=
  let id := Tools.toId_opt name in
  if JS.truthy_str id then
    match users U !! id with
    | Some u => (Some u, U)
    | None =>
        let u := User.mk (default "" name) id ∅ ∅ in
        (Some u, mk (<[id := u]> (users U)) (selfId U))
    end
  else (None, U).

(** [Users.self] *)
Definition self (U : t) : User.t :=
  default (User.mk "" (selfId U) ∅ ∅) (users U !! selfId U).

End Users.

Module MessageParser.

(** *** parseCommand *)

(** Lines 234-247: is the message a command, and if so which normalized
    command token and which target does it carry? *)
Definition command_of (C : Config) (message : string) : option (string * string) :=
  let message := JS.trim message in
  if negb (String.eqb (JS.charAt message 0) (commandCharacter C)) then None
  else
    let message := JS.substr_from message 1 in
    let spaceIndex := JS.indexOf message " " in
    let '(command, target) :=
      if negb (spaceIndex =? -1)
      then (JS.substr message 0 spaceIndex, JS.substr_from message (spaceIndex + 1))
      else (message, "") in
    Some (Tools.toId command, target).

(** [parseCommand(message, room, user, time)]; [None] is [undefined]. *)
Definition parseCommand (E : Env) (C : Config) (Commands : gmap string entry)
    (message : string) (room : place) (user : User.t) (time : option JS.number)
    : list event * completion (option bool) :=
  match command_of C message with
  | None => ([], Normal None)
  | Some (command, target) =>
      match follow Commands command with
      | None => ([], Normal None)
      | Some command =>
          match as_function E (lookup_entry Commands command) with
          | None => ([], Normal None)
          | Some _ =>
              let this := ContextMethods.new E (Some target) room user command time in
              match ContextMethods.run E Commands this None None with
              | (tr, Normal b) => (tr, Normal (Some b))
              | (tr, Abrupt e) => (tr, Abrupt e)
              end
          end
      end
  end.

(** *** parseFormats *)

(** The [else] branch of the loop body (lines 272-305): one descriptor,
    with the current section, to its entry; [None] when the identifier
    is empty. *)
Definition descriptor (raw section : string) : option Format.t :=
  let lastCommaIndex := JS.lastIndexOf raw ","%char in
  let code :=
    if 0 <=? lastCommaIndex
    then JS.parseInt (JS.substr_from raw (lastCommaIndex + 1)) (Some 16)
    else JS.NaN in
  let '(name, searchShow, challengeShow, tournamentShow) :=
    match code with
    | JS.Num code =>
        (JS.substr raw 0 lastCommaIndex,
         negb (Z.land code 2 =? 0),
         negb (Z.land code 4 =? 0),
         negb (Z.land code 8 =? 0))
    | JS.Inf _ =>
        (* [Infinity & n] is [0] *)
        (JS.substr raw 0 lastCommaIndex, false, false, false)
    | JS.NaN =>
        let name :=
          if String.eqb (JS.substr_from raw (JS.len raw - 2)) ",#"
          then JS.substr raw 0 (JS.len raw - 2) else raw in
        if String.eqb (JS.substr_from name (JS.len name - 2)) ",,"
        then (JS.substr name 0 (JS.len name - 2), true, false, true)
        else if String.eqb (JS.substr_from name (JS.len name - 1)) ","
        then (JS.substr name 0 (JS.len name - 1), false, true, true)
        else (name, true, true, true)
    end in
  let id := Tools.toId name in
  if JS.truthy_str id
  then Some (Format.mk name id section searchShow challengeShow tournamentShow)
  else None.

(** Is the element a section-header marker (line 269)? *)
Definition is_header (x : string) : bool :=
  String.eqb x ""
  || String.eqb (JS.charAt x 0) ","
     && negb (JS.isNaN (JS.parseInt (JS.substr_from x 1) None)).

(** The [for] loop of [parseFormats], from element [i] on. *)
Fixpoint parseFormats_loop (l : list string) (isSection : bool) (section : string)
    (formatsData : gmap string Format.t) : gmap string Format.t :=
  match l with
  | [] => formatsData
  | x :: l' =>
      if isSection then parseFormats_loop l' false x formatsData
      else if String.eqb x ",LL" then parseFormats_loop l' isSection section formatsData
      else if is_header x then parseFormats_loop l' true section formatsData
      else match descriptor x section with
           | Some f => parseFormats_loop l' isSection section (<[Format.id f := f]> formatsData)
           | None => parseFormats_loop l' isSection section formatsData
           end
  end.

(** [parseFormats()] on the fields [formatsList] and [formatsData] of the
    parser. *)
Definition parseFormats (formatsList : list string) (formatsData : gmap string Format.t)
    : gmap string Format.t * list event :=
  match formatsList with
  | [] => (formatsData, [])
  | _ => (parseFormats_loop formatsList false "" ∅, [FormatCacheClear])
  end.

(** *** moderate *)

(** Lines 319-325: the three gates.  [Config.allowModeration[room.id]] on
    a plain object is truthy for the ids it inherits a member for. *)
Definition gate (E : Env) (C : Config) (self : User.t) (room : Room.t) : bool :=
  hasRank E self (Room.id room) "%"
  && match allowModeration C with
     | AllowPerRoom m =>
         match m !! Room.id room with
         | Some b => b
         | None => JS.inherited (Room.id room)
         end
     | AllowFlag b => b
     end.

(** Line 327 *)
Definition normalize (message : string) : string :=
  Regex.strip_null (Regex.strip_whitespace (JS.trim message)).

(** Lines 329-333: [user.roomData.get(room)], or a fresh record. *)
Definition record_of (user : User.t) (room : Room.t) : Record.t :=
  default Record.fresh (User.roomData user !! Room.id room).

(** Line 335: the message goes in front of the history. *)
Definition observe (user : User.t) (room : Room.t) (message : string)
    (time : JS.number) : Record.t :=
  let data := record_of user room in
  Record.mk ((message, time) :: Record.messages data)
            (Record.points data) (Record.lastAction data).

Definition set_data (user : User.t) (room : Room.t) (data : Record.t) : User.t :=
  User.mk (User.name user) (User.id user) (User.rooms user)
          (<[Room.id room := data]> (User.roomData user)).

(** Line 338 *)
Definition cooldown (data : Record.t) (time : JS.number) : bool :=
  JS.truthy_num (Record.lastAction data)
  && JS.lt (JS.sub time (Record.lastAction data)) (JS.Num PUNISHMENT_COOLDOWN).

(** Line 349 *)
Definition flooding (data : Record.t) (time : JS.number) : bool :=
  (FLOOD_MINIMUM_MESSAGES <=? length (Record.messages data))%nat
  && match Record.messages data !! (FLOOD_MINIMUM_MESSAGES - 1)%nat with
     | Some (_, t) => JS.le (JS.sub time t) (JS.Num FLOOD_MAXIMUM_TIME)
     | None => false
     end.

(** Lines 354-360 *)
Definition stretching (message : string) : bool :=
  match js_sort (fun a b => JS.len b - JS.len a) (Regex.stretches message) with
  | longest :: _ => STRETCHING_MINIMUM <=? JS.len longest
  | [] => false
  end.

(** Lines 363-364 *)
Definition shouting (message : string) : bool :=
  CAPS_MINIMUM <=? Z.of_nat (length (Regex.caps message)).

(** The candidate of the built-in flood rule. *)
Definition flood_punishment : punishment :=
  {| action := "mute"; rule := "flooding"; reason := "please do not flood the chat" |}.

(** Lines 341-366: the candidates in the order they are pushed. *)
Definition candidates (C : Config) (message : string) (room : Room.t)
    (user : User.t) (time : JS.number) (data : Record.t) : list punishment :=
  match moderate_hook C with
  | Some hook => hook message room user time
  | None => []
  end
  ++ (if flooding data time then [flood_punishment] else [])
  ++ (if stretching message
      then [{| action := "verbalwarn"; rule := "stretching";
               reason := "please do not stretch" |}] else [])
  ++ (if shouting message
      then [{| action := "verbalwarn"; rule := "caps";
               reason := "please do not abuse caps" |}] else []).

(** [Config.punishmentPoints[action]]; a missing entry behaves as [NaN]
    in every use below, and so does an inherited member, which is no
    number: the difference of line 370 and the comparison of line 375
    convert it to [NaN], and line 381 stores it where only these two read
    it back. *)
Definition points_of (pts : gmap string Z) (action : string) : JS.number :=
  match pts !! action with Some p => JS.Num p | None => JS.NaN end.

(** The comparator of line 370, on points counted in [Z]; a [NaN]
    difference counts as 0. *)
Definition by_points (pts : gmap string Z) (a b : punishment) : Z :=
  match points_of pts (action b), points_of pts (action a) with
  | JS.Num x, JS.Num y => x - y
  | _, _ => 0
  end.

(** Lines 373-374: the reason, with its optional override per rule.  For
    a rule named like a member of [Object.prototype] the override is that
    member, which the concatenations of lines 383 and 385 turn into
    text. *)
Definition reason_of (C : Config) (p : punishment) : string :=
  match punishmentReasons C with
  | Some reasons =>
      match reasons !! rule p with
      | Some (String _ _ as r) => r
      | Some EmptyString => reason p
      | None => if JS.inherited (rule p) then JS.inherited_text (rule p) else reason p
      end
  | None => reason p
  end.

(** Lines 372 and 375-382: the points of the record and the action after
    escalation. *)
Definition escalate (pts : gmap string Z) (acts : gmap string string)
    (data : Record.t) (p : punishment) : Record.t * string :=
  let points := points_of pts (action p) in
  if JS.ge (Record.points data) points then
    let points :=
      match Record.points data with JS.Num n => JS.Num (n + 1) | other => other end in
    (Record.mk (Record.messages data) points (Record.lastAction data),
     (* the key is a numeral or names an infinity; no plain object
        inherits such a key *)
     match acts !! match points with
                   | JS.Num n => JS.num_to_string n
                   | JS.Inf true => "-Infinity"
                   | JS.Inf false => "Infinity"
                   | JS.NaN => "NaN"
                   end with
     | Some (String _ _ as a) => a
     | _ => action p
     end)
  else
    (Record.mk (Record.messages data) points (Record.lastAction data), action p).

(** Lines 371-386: escalation and application of the chosen candidate. *)
Definition apply (E : Env) (C : Config) (self : User.t)
    (pts : gmap string Z) (acts : gmap string string)
    (room : Room.t) (user : User.t) (time : JS.number) (data : Record.t)
    (p : punishment) : Record.t * list event :=
  let reason := reason_of C p in
  let '(data, act) := escalate pts acts data p in
  if String.eqb act "verbalwarn"
  then (data, [Say (Room.id room) (User.name user +:+ ", " +:+ reason)])
  else
    let act :=
      if String.eqb act "roomban" && negb (hasRank E self (Room.id room) "@")
      then "hourmute" else act in
    (Record.mk (Record.messages data) (Record.points data) time,
     [Say (Room.id room) ("/" +:+ act +:+ " " +:+ User.name user +:+ ", " +:+ reason)]).

(** [moderate(message, room, user, time)], with [Users.self] as [self];
    the user comes back with its record for [room] updated. *)
Definition moderate (E : Env) (C : Config) (self : User.t)
    (message : string) (room : Room.t) (user : User.t) (time : JS.number)
    : User.t * list event :=
  if negb (gate E C self room) then (user, [])
  else
    match punishmentPoints C, punishmentActions C with
    | Some pts, Some acts =>
        let message := normalize message in
        let data := observe user room message time in
        let user := set_data user room data in
        if cooldown data time then (user, [])
        else
          match js_sort (by_points pts) (candidates C message room user time data) with
          | [] => (user, [])
          | p :: _ =>
              let '(data, out) := apply E C self pts acts room user time data p in
              (set_data user room data, out)
          end
    | _, _ => (user, [])
    end.

(** Successive calls of [moderate] for one user in one room, with what
    each call says. *)
Fixpoint moderate_all (E : Env) (C : Config) (self : User.t) (room : Room.t)
    (user : User.t) (calls : list (string * JS.number)) : User.t * list (list event) :=
  match calls with
  | [] => (user, [])
  | (message, time) :: calls' =>
      let '(user, out) := moderate E C self message room user time in
      let '(user, outs) := moderate_all E C self room user calls' in
      (user, out :: outs)
  end.

(** *** parse *)

(** The state [parse] reads and writes besides its [room] argument: the
    user registry, the [Client] fields and the parser's own fields. *)
Record World := mkWorld {
  registry : Users.t;
  challengeKeyId : option string;
  challenge : option string;
  lockdown : bool;
  formatsList : list string;
  formatsData : gmap string Format.t;
}.

Definition set_registry (w : World) (U : Users.t) : World :=
  mkWorld U (challengeKeyId w) (challenge w) (lockdown w) (formatsList w) (formatsData w).

(** How a call of [parse] ends: it returns, the process exits, or an
    error escapes. *)
Inductive status := Returned | Exited | Raised (e : error).

Record result := mkResult {
  world : World;
  room_after : Room.t;
  trace : list event;
  status_of : status;
}.

Definition done (w : World) (room : Room.t) (tr : list event) : result :=
  mkResult w room tr Returned.

(** [user.rooms.set(room, rank)] *)
Definition set_rank (user : User.t) (room : Room.t) (rank : string) : User.t :=
  User.mk (User.name user) (User.id user)
          (<[Room.id room := rank]> (User.rooms user)) (User.roomData user).

(** [room.users.set(user, rank)], the user given by its registry key. *)
Definition set_user (room : Room.t) (user : string) (rank : string) : Room.t :=
  Room.mk (Room.id room) (<[user := rank]> (Room.users room)) (Room.listeners room)
          (Room.undefined_rank room).

(** [room.users.set(undefined, rank)] *)
Definition set_undefined (room : Room.t) (rank : string) : Room.t :=
  Room.mk (Room.id room) (Room.users room) (Room.listeners room) (Some rank).

(** A user object is shared with the registry: mutating it updates the
    registry slot it was found in. *)
Definition update (w : World) (key : string) (user : User.t) : World :=
  set_registry w (Users.mk (<[key := user]> (Users.users (registry w)))
                           (Users.selfId (registry w))).

(** Lines 105-107 *)
Definition vetoed (C : Config) (room : Room.t) (messageType : option string)
    (splitMessage : list string) : bool :=
  match parseMessage C with
  | Some hook => hook room messageType splitMessage
  | None => false
  end.

(** [case 'updateuser'] *)
Definition updateuser (C : Config) (w : World) (room : Room.t)
    (splitMessage : list string) : result :=
  if negb (bool_decide (splitMessage !! 0%nat = Some (username C))) then done w room []
  else if negb (bool_decide (splitMessage !! 1%nat = Some "1"))
  then mkResult w room [Log "Failed to log in"] Exited
  else
    match rooms C with
    | None => done w room [Log "Successfully logged in"]
    | Some RoomsOther =>
        mkResult w room [Log "Successfully logged in"]
                 (Raised (Error "Config.rooms must be an array"))
    | Some (RoomsArray l) =>
        done w room (Log "Successfully logged in"
                     :: map (fun r => Send ("|/join " +:+ r)) l)
    end.

(** The loop of [case 'users'] over the entries after the count.  When
    [Users.add] yields no user, line 146 stores the rank in [room.users]
    under the key [undefined] and [user.rooms] of line 147 raises a
    [TypeError]. *)
Fixpoint snapshot (w : World) (room : Room.t) (entries : list string)
    : World * Room.t * status :=
  match entries with
  | [] => (w, room, Returned)
  | x :: entries' =>
      let key := Tools.toId (JS.substr_from x 1) in
      match Users.add (registry w) (Some (JS.substr_from x 1)) with
      | (None, _) =>
          (w, set_undefined room (JS.charAt x 0), Raised (TypeError "user.rooms"))
      | (Some user, U) =>
          let rank := JS.charAt x 0 in
          let room := set_user room key rank in
          let w := update (set_registry w U) key (set_rank user room rank) in
          snapshot w room entries'
      end
  end.

(** [case 'users'] *)
Definition users_snapshot (w : World) (room : Room.t) (splitMessage : list string)
    : result :=
  match splitMessage !! 0%nat with
  | Some s =>
      if String.eqb s "0" then done w room []
      else
        let '(w, room, st) := snapshot w room (drop 1 (JS.split s ","%char)) in
        mkResult w room [] st
  | None => mkResult w room [] (Raised (TypeError "splitMessage[0].split"))
  end.

(** How a call of [parse] ends when its last statement is the call of a
    callback. *)
Definition finish (w : World) (room : Room.t) (tr : list event) (o : outcome) : result :=
  match o with
  | Returns => done w room tr
  | Throws e => mkResult w room tr (Raised (Uncaught e))
  end.

(** Lines 185 and 201: [if (message in room.listeners)
    room.listeners[message]()].  The table is a plain object, and [in]
    also answers for the keys it inherits: the member of
    [Object.prototype] is then called, without arguments and with the
    table as [this].  [__proto__] reads as an object, which cannot be
    called; [__defineGetter__] and [__defineSetter__] raise for want of a
    function; [toLocaleString] calls [this.toString()], which an own
    property [toString] of the table answers; the others return. *)
Definition listen (E : Env) (w : World) (room : Room.t) (token : string) : result :=
  let called := Listener (Room.id room) token in
  match Room.listeners room !! token with
  | Some o => finish w room [called] o
  | None =>
      if negb (JS.inherited token) then done w room []
      else if negb (JS.inherited_function token)
      then mkResult w room [] (Raised (TypeError "room.listeners[message]"))
      else if JS.wants_callable token
      then mkResult w room [called]
                    (Raised (Uncaught (Thrown (Some (stackOf E token)))))
      else if String.eqb token "toLocaleString"
      then match Room.listeners room !! "toString" with
           | Some o => finish w room [called; Listener (Room.id room) "toString"] o
           | None => done w room [called]
           end
      else done w room [called]
  end.

(** Lines 180-181 and 196-197: the rank that leads the speaker field
    replaces the cached one when they differ. *)
Definition ranked (room : Room.t) (user : User.t) (s : string) : User.t :=
  if bool_decide (User.rooms user !! Room.id room = Some (JS.charAt s 0))
  then user else set_rank user room (JS.charAt s 0).

(** [case 'c'] and [case 'c:'], which differ in the field that names the
    speaker, in where the body starts and in the time: [who] is
    [splitMessage[0]] or [splitMessage[1]], [body] is
    [splitMessage.slice(1)] or [splitMessage.slice(2)]. *)
Definition chat (E : Env) (C : Config) (Commands : gmap string entry)
    (w : World) (room : Room.t) (who : option string) (body : list string)
    (time : JS.number) : result :=
  match Users.get (registry w) who with
  | None => done w room []
  | Some user =>
      match who with
      | None => mkResult w room [] (Raised (TypeError "charAt"))
      | Some s =>
          let key := Tools.toId s in
          let user := ranked room user s in
          let w := update w key user in
          let message := JS.join "|" body in
          if String.eqb (User.id user) (User.id (Users.self (registry w))) then
            let message := Tools.toId message in
            listen E w room message
          else
            let called := CallParseCommand message (InRoom room) key in
            match parseCommand E C Commands message (InRoom room) user (Some time) with
            | (tr, Abrupt e) => mkResult w room (called :: tr) (Raised e)
            | (tr, Normal _) =>
                if negb (hasRank E user (Room.id room) "+") then
                  let '(user, out) :=
                    moderate E C (Users.self (registry w)) message room user time in
                  done (update w key user) room
                       (called :: tr ++ CallModerate message (Room.id room) key :: out)
                else done w room (called :: tr)
            end
      end
  end.

(** [case 'pm'] *)
Definition pm (E : Env) (C : Config) (Commands : gmap string entry)
    (w : World) (room : Room.t) (splitMessage : list string) : result :=
  match Users.add (registry w) (splitMessage !! 0%nat) with
  | (None, _) => done w room []
  | (Some user, U) =>
      let w := set_registry w U in
      if String.eqb (User.id user) (User.id (Users.self (registry w))) then done w room []
      else
        let message := JS.join "|" (drop 2 splitMessage) in
        let called := CallParseCommand message (InPM user) (Tools.toId_opt (splitMessage !! 0%nat)) in
        match parseCommand E C Commands message (InPM user) user None with
        | (tr, Abrupt e) => mkResult w room (called :: tr) (Raised e)
        | (tr, Normal _) => done w room (called :: tr)
        end
  end.

(** [case 'J'], [case 'L'] and [case 'N']: the user is resolved with
    [Users.add] from field [who], and [hook] is the room method called
    with it. *)
Definition membership (w : World) (room : Room.t) (who : option string)
    (hook : string -> list event) : result :=
  match Users.add (registry w) who with
  | (None, _) => done w room []
  | (Some _, U) => done (set_registry w U) room (hook (Tools.toId_opt who))
  end.

(** [case 'raw'] *)
Definition raw (w : World) (room : Room.t) (splitMessage : list string) : result :=
  let message := JS.join "|" splitMessage in
  let set b := mkWorld (registry w) (challengeKeyId w) (challenge w) b
                       (formatsList w) (formatsData w) in
  if JS.includes message ("<div class=" +:+ dq +:+ "broadcast-red" +:+ dq +:+ ">")
     && JS.includes message "The server is restarting soon."
  then done (set true) room []
  else if JS.includes message ("<div class=" +:+ dq +:+ "broadcast-green" +:+ dq +:+ ">")
          && JS.includes message "The server restart was canceled."
  then done (set false) room []
  else done w room [].

(** [messageType === s] *)
Definition is_type (messageType : option string) (s : string) : bool :=
  bool_decide (messageType = Some s).

(** [parse(message, room)] *)
Definition parse (E : Env) (C : Config) (Commands : gmap string entry)
    (w : World) (message : string) (room : Room.t) : result :=
  let splitMessage := drop 1 (JS.split message "|"%char) in
  let messageType := splitMessage !! 0%nat in
  let splitMessage := drop 1 splitMessage in
  if vetoed C room messageType splitMessage then done w room []
  else if is_type messageType "challstr" then
    done (mkWorld (registry w) (splitMessage !! 0%nat) (splitMessage !! 1%nat)
                  (lockdown w) (formatsList w) (formatsData w))
         room [Login]
  else if is_type messageType "updateuser" then updateuser C w room splitMessage
  else if is_type messageType "init" then
    done w room [OnJoin (Room.id room) (Users.selfId (registry w)) " ";
                 Log ("Joined room: " +:+ Room.id room)]
  else if is_type messageType "noinit" then
    done w room [Log ("Could not join room: " +:+ Room.id room);
                 Destroy (Room.id room)]
  else if is_type messageType "deinit" then done w room [Destroy (Room.id room)]
  else if is_type messageType "users" then users_snapshot w room splitMessage
  else if is_type messageType "formats" then
    let '(data, tr) := parseFormats splitMessage (formatsData w) in
    done (mkWorld (registry w) (challengeKeyId w) (challenge w) (lockdown w)
                  splitMessage data)
         room tr
  else if is_type messageType "J" || is_type messageType "j" then
    membership w room (splitMessage !! 0%nat)
      (fun user => [OnJoin (Room.id room) user
                           (JS.charAt (default "" (splitMessage !! 0%nat)) 0)])
  else if is_type messageType "L" || is_type messageType "l" then
    membership w room (splitMessage !! 0%nat)
      (fun user => [OnLeave (Room.id room) user])
  else if is_type messageType "N" || is_type messageType "n" then
    membership w room (splitMessage !! 1%nat)
      (fun user => [OnRename (Room.id room) user (splitMessage !! 0%nat)])
  else if is_type messageType "c" then
    chat E C Commands w room (splitMessage !! 0%nat) (drop 1 splitMessage)
         (JS.Num (now E))
  else if is_type messageType "c:" then
    chat E C Commands w room (splitMessage !! 1%nat) (drop 2 splitMessage)
         (JS.mul (JS.parseInt_opt (splitMessage !! 0%nat)) (JS.Num 1000))
  else if is_type messageType "pm" then pm E C Commands w room splitMessage
  else if is_type messageType "raw" then raw w room splitMessage
  else done w room [].

End MessageParser.

(** ** Predicates used in the statements *)

(** The two sides of the rank relation agree for [room]: the room's user
    map and the room-membership maps of the registered users give every
    user the same rank, or none. *)
Definition in_sync (w : MessageParser.World) (room : Room.t) : Prop :=
  forall key,
    Room.users room !! key
    = Users.users (MessageParser.registry w) !! key
        ≫= fun u => User.rooms u !! Room.id room.

(** The time stamps of a record, newest first. *)
Definition times (data : Record.t) : list JS.number :=
  map snd (Record.messages data).

(** The recorded time stamps are integers and no message carries an
    earlier time than one recorded before it. *)
Definition chronological (data : Record.t) : Prop :=
  exists zs, times data = map JS.Num zs
    ∧ forall i j a b, (i <= j)%nat -> zs !! i = Some a -> zs !! j = Some b -> b <= a.

(** In the words of the spec: the 5 most recent recorded messages all fall
    within a 5-second window. *)
Definition recent_within_window (data : Record.t) : Prop :=
  exists zs, take 5 (times data) = map JS.Num zs
    ∧ length zs = 5%nat
    ∧ forall a b, a ∈ zs -> b ∈ zs -> a - b <= 5000.

(** ** Notions used by the further properties *)

Section Notions.
Import MessageParser.

(** A list of characters that does not start with white space. *)
Definition starts_clean (l : list ascii) : Prop :=
  match l with c :: _ => JS.is_ws c = false | [] => True end.

(** The type tags [parse] has a [case] for. *)
Definition known_types : list string :=
  ["challstr"; "updateuser"; "init"; "noinit"; "deinit"; "users"; "formats";
   "J"; "j"; "L"; "l"; "N"; "n"; "c"; "c:"; "pm"; "raw"].

(** The points configured for the action of [p], which the sort of line
    370 compares; 0 stands in when none are configured, a case the
    statements exclude. *)
Definition severity (pts : gmap string Z) (p : punishment) : Z :=
  default 0 (pts !! action p).

(** What every entry of a catalog built from the list [L] satisfies. *)
Definition entry_of (L : list string) (key : string) (f : Format.t) : Prop :=
  Format.id f = key
  ∧ key ≠ ""
  ∧ Format.id f = Tools.toId (Format.name f)
  ∧ (Format.section f = "" ∨ Format.section f ∈ L)
  ∧ exists x, x ∈ L ∧ descriptor x (Format.section f) = Some f.

(** The registry key of an entry of a [users] line:
    [toId(users[i].substr(1))]. *)
Definition entry_key (x : string) : string := Tools.toId (JS.substr_from x 1).

(** One turn of the loop of [case 'users'] on an entry that names a user:
    [u] is the user [Users.add] answers. *)
Definition write_rank (k r : string) (S : World * Room.t) (u : User.t) : World * Room.t :=
  (update S.1 k (set_rank u (set_user S.2 k r) r), set_user S.2 k r).

Definition snapshot_step (S : World * Room.t) (x : string) : World * Room.t :=
  write_rank (entry_key x) (JS.charAt x 0) S
    (default (User.mk (JS.substr_from x 1) (entry_key x) ∅ ∅)
             (Users.users (registry S.1) !! entry_key x)).

(** The entries the loop gets through: those before the first one that
    names no user. *)
Fixpoint named_prefix (l : list string) : list string :=
  match l with
  | [] => []
  | x :: l' => if JS.truthy_str (entry_key x) then x :: named_prefix l' else []
  end.

(** The entry at which the loop stops, if there is one. *)
Fixpoint first_unnamed (l : list string) : option string :=
  match l with
  | [] => None
  | x :: l' => if JS.truthy_str (entry_key x) then first_unnamed l' else Some x
  end.

(** Line 146 on that entry. *)
Definition stamp (S : World * Room.t) (x : option string) : World * Room.t :=
  match x with
  | Some x => (S.1, set_undefined S.2 (JS.charAt x 0))
  | None => S
  end.

(** The key [k] is registered. *)
Definition present (k : string) (S : World * Room.t) : Prop :=
  is_Some (Users.users (registry S.1) !! k).

(** Both sides hold the rank of the entry [x] for its user. *)
Definition settled (S : World * Room.t) (x : string) : Prop :=
  Room.users S.2 !! entry_key x = Some (JS.charAt x 0)
  ∧ exists u, Users.users (registry S.1) !! entry_key x = Some u
              ∧ User.rooms u !! Room.id S.2 = Some (JS.charAt x 0).

(** The users of [w] are still registered in [w'], and the local account
    is the same. *)
Definition keeps_users (w w' : World) : Prop :=
  Users.selfId (registry w') = Users.selfId (registry w)
  ∧ forall key, is_Some (Users.users (registry w) !! key) ->
                is_Some (Users.users (registry w') !! key).

(** The connection state of the client: challenge, lockdown flag and
    format catalog. *)
Definition client (w : World) :=
  (challengeKeyId w, challenge w, lockdown w, formatsList w, formatsData w).

End Notions.

(** ** A concrete session, used to run the definitions *)

Module Session.
Import MessageParser.

(** The local account [Bot] is the only ranked user. *)
Definition E : Env :=
  {| now := 1000;
     toLocaleString := fun _ => "1/1/1970, 12:00:01 AM";
     hasRank := fun u _ _ => String.eqb (User.id u) "bot";
     stackOf := fun key => "TypeError: " +:+ key |}.

Definition C : Config :=
  {| username := "Bot";
     commandCharacter := ".";
     rooms := Some (RoomsArray ["lobby"; "help"]);
     parseMessage := None;
     moderate_hook := None;
     allowModeration := AllowFlag true;
     punishmentPoints := Some (<["verbalwarn" := 1]> (<["mute" := 2]> ∅));
     punishmentActions := Some ∅;
     punishmentReasons := None |}.


(** A configuration that gives a verbal warning more points than a mute. *)
Definition Warnful : Config :=
  {| username := "Bot";
     commandCharacter := ".";
     rooms := None;
     parseMessage := None;
     moderate_hook := None;
     allowModeration := AllowFlag true;
     punishmentPoints := Some (<["verbalwarn" := 3]> (<["mute" := 2]> ∅));
     punishmentActions := Some ∅;
     punishmentReasons := None |}.

Definition bot : User.t := User.mk "Bot" "bot" ∅ ∅.
Definition alice : User.t := User.mk "alice" "alice" (<["lobby" := " "]> ∅) ∅.

Definition lobby : Room.t := Room.mk "lobby" (<["alice" := " "]> ∅) ∅ None.

(** The lobby while the token [ok] is awaited. *)
Definition waiting : Room.t :=
  Room.mk "lobby" (<["alice" := " "]> ∅) (<["ok" := Returns]> ∅) None.

Definition W : World :=
  mkWorld (Users.mk (<["alice" := alice]> (<["bot" := bot]> ∅)) "bot")
          None None false [] ∅.

Definition hello : Context.t -> string -> outcome := fun _ _ => Returns.
Definition boom : Context.t -> string -> outcome := fun _ _ => Throws Nullish.

(** [{hello: fn, hi: 'hello', hey: 'hi', boom: fn}] *)
Definition Commands : gmap string entry :=
  <["hello" := Handler hello]> (<["hi" := Alias "hello"]>
    (<["hey" := Alias "hi"]> (<["boom" := Handler boom]> ∅))).


Definition this : Context.t :=
  ContextMethods.new E (Some "x") (InRoom lobby) alice "boom" None.

(** Thirty capital letters with no repeated run. *)
Definition SHOUT : string := "ABCDEFGHIJKLMNOPQRSTUVWXYZABCD".

End Session.

(** * Properties *)

Import MessageParser.

(** ** Rounding to a double *)

Lemma double_small z : Z.abs z < 2 ^ 53 -> JS.double z = JS.Num z.
Proof. intros H. unfold JS.double. apply Z.ltb_lt in H. rewrite H. reflexivity. Qed.

(** Beyond 2^53 a rounded integer keeps its sign and stays beyond 2^53. *)
Lemma double_large z :
  2 ^ 53 <= Z.abs z ->
  JS.double z = JS.Inf (z <? 0)
  ∨ exists v, 2 ^ 53 <= v ∧ JS.double z = JS.Num (Z.sgn z * v).
Proof.
  intros H. unfold JS.double.
  destruct (Z.ltb_spec (Z.abs z) (2 ^ 53)) as [Hlt | _]; [lia |].
  set (a := Z.abs z) in *.
  set (e := Z.log2 a - 52).
  assert (Ha : 0 < a) by lia.
  assert (Hlog : 53 <= Z.log2 a) by (apply Z.log2_le_pow2; lia).
  assert (He : 1 <= e) by (unfold e; lia).
  set (q := Z.shiftr a e).
  assert (Hq : 2 ^ 52 <= q).
  { unfold q. rewrite Z.shiftr_div_pow2 by lia.
    apply Z.div_le_lower_bound; [apply Z.pow_pos_nonneg; lia |].
    rewrite <- Z.pow_add_r by lia. replace (e + 52) with (Z.log2 a) by (unfold e; lia).
    apply Z.log2_spec. exact Ha. }
  cbv zeta.
  match goal with |- context [Z.shiftl ?q' e] => set (q1 := q') end.
  assert (Hq1 : 2 ^ 52 <= q1) by (unfold q1; destruct (_ || _); lia).
  destruct (2 ^ 1024 <=? Z.shiftl q1 e); [left; reflexivity |].
  right. exists (Z.shiftl q1 e). split; [| reflexivity].
  rewrite Z.shiftl_mul_pow2 by lia.
  assert (2 ^ 1 <= 2 ^ e) by (apply Z.pow_le_mono_r; lia).
  change (2 ^ 53) with (2 ^ 52 * 2 ^ 1). apply Z.mul_le_mono_nonneg; lia.
Qed.

(** Rounding a difference does not change how it compares with a double
    below 2^53, such as the constants of the file. *)
Lemma double_compare z c :
  Z.abs c < 2 ^ 53 ->
  JS.lt (JS.double z) (JS.Num c) = (z <? c)
  ∧ JS.le (JS.double z) (JS.Num c) = (z <=? c).
Proof.
  intros Hc. destruct (Z.lt_ge_cases (Z.abs z) (2 ^ 53)) as [Hz | Hz].
  - rewrite (double_small z Hz). split; reflexivity.
  - destruct (double_large z Hz) as [-> | (v & Hv & ->)]; cbn [JS.lt JS.le].
    + destruct (Z.ltb_spec z 0).
      * split; symmetry; [apply Z.ltb_lt | apply Z.leb_le]; lia.
      * split; symmetry; [apply Z.ltb_ge | apply Z.leb_gt]; lia.
    + destruct (Z.lt_trichotomy z 0) as [Hn | [H0 | Hp]]; [| lia |].
      * rewrite (Z.sgn_neg z Hn).
        assert (z < c) by lia. assert (-1 * v < c) by lia.
        split; [transitivity true | transitivity true];
          first [apply Z.ltb_lt | apply Z.leb_le | symmetry; apply Z.ltb_lt
                | symmetry; apply Z.leb_le]; lia.
      * rewrite (Z.sgn_pos z Hp).
        assert (c < z) by lia. assert (c < 1 * v) by lia.
        split; [transitivity false | transitivity false];
          first [apply Z.ltb_ge | apply Z.leb_gt | symmetry; apply Z.ltb_ge
                | symmetry; apply Z.leb_gt]; lia.
Qed.

(** From 2^(53+k) on, the last k+1 bits of a rounded integer are 0. *)
Lemma double_low_bits z k :
  0 <= k -> 2 ^ (53 + k) <= Z.abs z ->
  JS.double z = JS.Inf (z <? 0) ∨ exists m, JS.double z = JS.Num (m * 2 ^ (k + 1)).
Proof.
  intros Hk H. unfold JS.double.
  assert (H53 : 2 ^ 53 <= 2 ^ (53 + k)) by (apply Z.pow_le_mono_r; lia).
  destruct (Z.ltb_spec (Z.abs z) (2 ^ 53)) as [Hlt | _]; [lia |].
  set (a := Z.abs z) in *.
  set (e := Z.log2 a - 52).
  assert (Hlog : 53 + k <= Z.log2 a) by (apply Z.log2_le_pow2; lia).
  assert (He : k + 1 <= e) by (unfold e; lia).
  cbv zeta.
  match goal with |- context [Z.shiftl ?q' e] => set (q1 := q') end.
  destruct (2 ^ 1024 <=? Z.shiftl q1 e); [left; reflexivity |].
  right. exists (Z.sgn z * q1 * 2 ^ (e - (k + 1))). f_equal.
  rewrite Z.shiftl_mul_pow2 by lia.
  replace (2 ^ e) with (2 ^ (e - (k + 1)) * 2 ^ (k + 1))
    by (rewrite <- Z.pow_add_r by lia; f_equal; lia).
  ring.
Qed.


Lemma le_sub a b c :
  Z.abs c < 2 ^ 53 ->
  JS.le (JS.sub (JS.Num a) (JS.Num b)) (JS.Num c) = (a - b <=? c).
Proof. intros Hc. exact (proj2 (double_compare (a - b) c Hc)). Qed.

(** ** Resolution of a command *)

(** An own property shadows the inherited one. *)
Lemma lookup_own (Commands : gmap string entry) key e :
  Commands !! key = Some e -> lookup_entry Commands key = Some e.
Proof. intros H. unfold lookup_entry. rewrite H. reflexivity. Qed.

(** [parse] on a line whose type tag is a known string: the line is split,
    the hook is consulted and the [switch] selects the case. *)
Ltac dispatch Hsplit Hveto :=
  unfold parse; rewrite Hsplit;
  match goal with
  | |- context [drop 1 (?t :: ?f)] => change (drop 1 (t :: f)) with f
  end;
  cbn [lookup list_lookup]; rewrite Hveto; try reflexivity.

(** ** parseFormats *)

(** C8: [parseFormats] on the list ["", "SectionA", "Abc,8", "Def"]
    produces a catalog with exactly two entries, both in section
    "SectionA"; the entry of "Abc,8" has [searchShow = false],
    [challengeShow = false], [tournamentShow = true], and the entry of
    "Def" has the three flags [true].  Whatever catalog was there before is
    replaced. *)
Theorem parseFormats_SectionA (old : gmap string Format.t) :
  let data := (parseFormats [""; "SectionA"; "Abc,8"; "Def"] old).1 in
  size data = 2%nat
  ∧ data !! "abc" = Some (Format.mk "Abc" "abc" "SectionA" false false true)
  ∧ data !! "def" = Some (Format.mk "Def" "def" "SectionA" true true true).
Proof. vm_compute. auto. Qed.

(** ** Dispatch on the message type *)

Section Dispatch.
Context (E : Env) (C : Config) (Commands : gmap string entry)
        (w : World) (room : Room.t) (message : string) (fields : list string).

Lemma parse_vetoed ty :
  drop 1 (JS.split message "|"%char) = ty :: fields ->
  vetoed C room (Some ty) fields = true ->
  parse E C Commands w message room = done w room [].
Proof. intros Hs Hv. dispatch Hs Hv. Qed.

Lemma parse_updateuser :
  drop 1 (JS.split message "|"%char) = "updateuser" :: fields ->
  vetoed C room (Some "updateuser") fields = false ->
  parse E C Commands w message room = updateuser C w room fields.
Proof. intros Hs Hv. dispatch Hs Hv. Qed.

Lemma parse_users :
  drop 1 (JS.split message "|"%char) = "users" :: fields ->
  vetoed C room (Some "users") fields = false ->
  parse E C Commands w message room = users_snapshot w room fields.
Proof. intros Hs Hv. dispatch Hs Hv. Qed.

Lemma parse_c :
  drop 1 (JS.split message "|"%char) = "c" :: fields ->
  vetoed C room (Some "c") fields = false ->
  parse E C Commands w message room
  = chat E C Commands w room (fields !! 0%nat) (drop 1 fields) (JS.Num (now E)).
Proof. intros Hs Hv. dispatch Hs Hv. Qed.

Lemma parse_c_colon :
  drop 1 (JS.split message "|"%char) = "c:" :: fields ->
  vetoed C room (Some "c:") fields = false ->
  parse E C Commands w message room
  = chat E C Commands w room (fields !! 1%nat) (drop 2 fields)
         (JS.mul (JS.parseInt_opt (fields !! 0%nat)) (JS.Num 1000)).
Proof. intros Hs Hv. dispatch Hs Hv. Qed.

Lemma parse_pm :
  drop 1 (JS.split message "|"%char) = "pm" :: fields ->
  vetoed C room (Some "pm") fields = false ->
  parse E C Commands w message room = pm E C Commands w room fields.
Proof. intros Hs Hv. dispatch Hs Hv. Qed.

Lemma parse_join ty :
  ty = "J" \/ ty = "j" ->
  drop 1 (JS.split message "|"%char) = ty :: fields ->
  vetoed C room (Some ty) fields = false ->
  parse E C Commands w message room
  = membership w room (fields !! 0%nat)
      (fun user => [OnJoin (Room.id room) user
                           (JS.charAt (default "" (fields !! 0%nat)) 0)]).
Proof. intros [-> | ->] Hs Hv; dispatch Hs Hv. Qed.

Lemma parse_leave ty :
  ty = "L" \/ ty = "l" ->
  drop 1 (JS.split message "|"%char) = ty :: fields ->
  vetoed C room (Some ty) fields = false ->
  parse E C Commands w message room
  = membership w room (fields !! 0%nat) (fun user => [OnLeave (Room.id room) user]).
Proof. intros [-> | ->] Hs Hv; dispatch Hs Hv. Qed.

Lemma parse_rename ty :
  ty = "N" \/ ty = "n" ->
  drop 1 (JS.split message "|"%char) = ty :: fields ->
  vetoed C room (Some ty) fields = false ->
  parse E C Commands w message room
  = membership w room (fields !! 1%nat)
      (fun user => [OnRename (Room.id room) user (fields !! 0%nat)]).
Proof. intros [-> | ->] Hs Hv; dispatch Hs Hv. Qed.

End Dispatch.

(** ** updateuser *)

(** C6: for every [updateuser] line that reaches its handler: if
    [fields[0]] differs from the configured account name the handler
    returns with no state change; if it matches and [fields[1]] is anything
    but ["1"] the process terminates; if [fields[1]] is ["1"], one join
    request is sent per room of the configured room list, in the
    configured order. *)
Theorem updateuser_line E C Commands w room message fields :
  drop 1 (JS.split message "|"%char) = "updateuser" :: fields ->
  vetoed C room (Some "updateuser") fields = false ->
  let r := parse E C Commands w message room in
  (fields !! 0%nat ≠ Some (username C) -> r = done w room [])
  ∧ (fields !! 0%nat = Some (username C) -> fields !! 1%nat ≠ Some "1" ->
     status_of r = Exited ∧ world r = w ∧ room_after r = room
     ∧ trace r = [Log "Failed to log in"])
  ∧ (fields !! 0%nat = Some (username C) -> fields !! 1%nat = Some "1" ->
     forall l, rooms C = Some (RoomsArray l) ->
     r = done w room (Log "Successfully logged in"
                      :: map (fun name => Send ("|/join " +:+ name)) l)).
Proof.
  intros Hs Hv r. subst r. rewrite (parse_updateuser _ _ _ _ _ _ _ Hs Hv).
  unfold updateuser. repeat split.
  - intros Hne. rewrite bool_decide_eq_false_2 by exact Hne. reflexivity.
  - rewrite bool_decide_eq_true_2 by assumption. cbn [negb].
    rewrite bool_decide_eq_false_2 by assumption. reflexivity.
  - rewrite bool_decide_eq_true_2 by assumption. cbn [negb].
    rewrite bool_decide_eq_false_2 by assumption. reflexivity.
  - rewrite bool_decide_eq_true_2 by assumption. cbn [negb].
    rewrite bool_decide_eq_false_2 by assumption. reflexivity.
  - rewrite bool_decide_eq_true_2 by assumption. cbn [negb].
    rewrite bool_decide_eq_false_2 by assumption. reflexivity.
  - intros H0 H1 l Hl.
    rewrite !bool_decide_eq_true_2 by assumption. cbn [negb]. rewrite Hl. reflexivity.
Qed.

Lemma updateuser_line_witness :
  let r := parse Session.E Session.C Session.Commands Session.W
                 "|updateuser|Bot|1" Session.lobby in
  trace r = [Log "Successfully logged in"; Send "|/join lobby"; Send "|/join help"]
  ∧ status_of r = Returned.
Proof.
  pose proof (updateuser_line Session.E Session.C Session.Commands Session.W
                Session.lobby "|updateuser|Bot|1" ["Bot"; "1"]
                eq_refl eq_refl) as (_ & _ & H).
  cbv zeta. rewrite (H eq_refl eq_refl _ eq_refl). split; reflexivity.
Defined.

(** ** Chat lines *)

(** A normalized identifier holds lowercase letters and digits only, so
    the one name of [Object.prototype] it can be is [constructor]. *)
Lemma toId_id_chars s :
  forallb Tools.is_id_char (JS.chars (Tools.toId s)) = true.
Proof.
  unfold Tools.toId, JS.chars, JS.str. rewrite list_ascii_of_string_of_list_ascii.
  induction (map Tools.lower (list_ascii_of_string s)) as [| c l IH]; [reflexivity |].
  cbn [filter]. unfold filter in *. cbn [list_filter].
  destruct (decide (Tools.is_id_char c = true)) as [Hc | Hc].
  - cbn [forallb]. rewrite Hc. exact IH.
  - exact IH.
Qed.

Lemma toId_inherited s :
  JS.inherited (Tools.toId s) = true -> Tools.toId s = "constructor".
Proof.
  pose proof (toId_id_chars s) as Hid. revert Hid.
  generalize (Tools.toId s). intros t Hid Hin.
  unfold JS.inherited, JS.object_prototype in Hin. cbn [existsb] in Hin.
  repeat (apply orb_true_iff in Hin as [Hin | Hin];
          [apply String.eqb_eq in Hin; subst t;
           first [reflexivity | vm_compute in Hid; discriminate Hid] |]).
  discriminate Hin.
Qed.

(** The test of lines 185 and 201 on a normalized identifier. *)
Lemma listen_token E w room s :
  let token := Tools.toId s in
  listen E w room token
  = match Room.listeners room !! token with
    | Some o => finish w room [Listener (Room.id room) token] o
    | None =>
        if String.eqb token "constructor"
        then done w room [Listener (Room.id room) token]
        else done w room []
    end.
Proof.
  cbv zeta. unfold listen.
  destruct (Room.listeners room !! Tools.toId s); [reflexivity |].
  destruct (JS.inherited (Tools.toId s)) eqn:Hin.
  - rewrite (toId_inherited s Hin). reflexivity.
  - cbn [negb]. destruct (String.eqb_spec (Tools.toId s) "constructor") as [He |];
      [| reflexivity].
    rewrite He in Hin. discriminate Hin.
Qed.

Section Chat.
Context (E : Env) (C : Config) (Commands : gmap string entry)
        (w : World) (room : Room.t).

Lemma ranked_id user s : User.id (ranked room user s) = User.id user.
Proof. unfold ranked. case_bool_decide; reflexivity. Qed.

Lemma self_after_update key user :
  User.id user = User.id (Users.self (registry w)) ->
  User.id (Users.self (registry (update w key user))) = User.id user.
Proof.
  intros Hid. unfold Users.self, update, set_registry. cbn.
  destruct (decide (key = Users.selfId (registry w))) as [-> | Hne].
  - rewrite lookup_insert_eq. reflexivity.
  - rewrite lookup_insert_ne by exact Hne. symmetry. exact Hid.
Qed.

(** The speaker is the local account: the body is a token for the
    room's listeners. *)
Lemma chat_self s user body time :
  Users.get (registry w) (Some s) = Some user ->
  User.id user = User.id (Users.self (registry w)) ->
  chat E C Commands w room (Some s) body time
  = listen E (update w (Tools.toId s) (ranked room user s)) room
           (Tools.toId (JS.join "|" body)).
Proof.
  intros Hget Hid. unfold chat. rewrite Hget.
  rewrite self_after_update by (rewrite ranked_id; exact Hid).
  rewrite String.eqb_refl. reflexivity.
Qed.

(** No user under the speaker's identifier: the line is dropped. *)
Lemma chat_unresolved who body time :
  Users.get (registry w) who = None ->
  chat E C Commands w room who body time = done w room [].
Proof. intros Hget. unfold chat. rewrite Hget. reflexivity. Qed.

(** A chat line never writes the room's user map. *)
Lemma chat_room_after who body time :
  room_after (chat E C Commands w room who body time) = room.
Proof.
  unfold chat.
  destruct (Users.get (registry w) who); [| reflexivity].
  destruct who as [s |]; [| reflexivity].
  cbv zeta.
  destruct (String.eqb _ _).
  - rewrite listen_token.
    destruct (Room.listeners room !! _) as [[] |]; [reflexivity | reflexivity |].
    destruct (String.eqb _ _); reflexivity.
  - destruct (parseCommand _ _ _ _ _ _ _) as [tr []]; [| reflexivity].
    destruct (negb _); [| reflexivity].
    destruct (moderate _ _ _ _ _ _ _). reflexivity.
Qed.

End Chat.

(** The trace of a self-authored chat line, for every line: nothing, or
    the one call of lines 185 and 201. *)
Lemma self_chat_trace E C Commands w room message ty fields who body user :
  drop 1 (JS.split message "|"%char) = ty :: fields ->
  (ty = "c" ∧ who = fields !! 0%nat ∧ body = drop 1 fields)
  ∨ (ty = "c:" ∧ who = fields !! 1%nat ∧ body = drop 2 fields) ->
  Users.get (registry w) who = Some user ->
  User.id user = User.id (Users.self (registry w)) ->
  let r := parse E C Commands w message room in
  let token := Tools.toId (JS.join "|" body) in
  (trace r = []
   ∨ trace r = [Listener (Room.id room) token]
     ∧ (is_Some (Room.listeners room !! token) ∨ token = "constructor"))
  ∧ (vetoed C room (Some ty) fields = false -> is_Some who ->
     trace r = match Room.listeners room !! token with
               | Some _ => [Listener (Room.id room) token]
               | None =>
                   if String.eqb token "constructor"
                   then [Listener (Room.id room) token] else []
               end).
Proof.
  intros Hs Hty Hget Hid r token.
  subst r. destruct (vetoed C room (Some ty) fields) eqn:Hv.
  - rewrite (parse_vetoed _ _ _ _ _ _ _ _ Hs Hv). split; [left; reflexivity | discriminate].
  - assert (Hparse :
      exists time, parse E C Commands w message room
                   = chat E C Commands w room who body time).
    { destruct Hty as [(-> & -> & ->) | (-> & -> & ->)].
      - eexists. apply parse_c; assumption.
      - eexists. apply parse_c_colon; assumption. }
    destruct Hparse as [time ->].
    destruct who as [s |].
    + rewrite (chat_self _ _ _ _ _ _ _ _ _ Hget Hid), listen_token. cbv zeta. fold token.
      destruct (Room.listeners room !! token) as [[] |] eqn:Hl; cbn.
      * split; [right; split; [reflexivity | eauto] | reflexivity].
      * split; [right; split; [reflexivity | eauto] | reflexivity].
      * destruct (String.eqb_spec token "constructor") as [He | Hne]; cbn.
        -- split; [right; split; [reflexivity | auto] | reflexivity].
        -- split; [left; reflexivity | reflexivity].
    + unfold chat. rewrite Hget. cbn.
      split; [left; reflexivity | intros _ [? ?]; discriminate].
Qed.

(** C1, where the code departs from it.  The local account says
    [Constructor!] in a room with no listener pending.  The body
    normalizes to [constructor], which is no key of the room's listener
    table; yet the test [message in room.listeners] of line 185 also
    answers for the keys a plain object inherits, and
    [room.listeners['constructor']()] is called.  Neither [parseCommand]
    nor [moderate] is called, and for every other identifier the call
    requires a key of the table. *)
Theorem self_chat_calls_inherited_constructor :
  let r := parse Session.E Session.C Session.Commands Session.W
                 "|c| Bot|Constructor!" Session.lobby in
  Users.get (registry Session.W) (Some " Bot") = Some Session.bot
  ∧ User.id Session.bot = User.id (Users.self (registry Session.W))
  ∧ Tools.toId "Constructor!" = "constructor"
  ∧ Room.listeners Session.lobby !! "constructor" = None
  ∧ trace r = [Listener "lobby" "constructor"]
  ∧ status_of r = Returned.
Proof. vm_compute. repeat split; reflexivity. Qed.

(** ** Users that cannot be resolved *)

Section Unresolved.
Context (E : Env) (C : Config) (Commands : gmap string entry)
        (w : World) (room : Room.t).

Lemma membership_unresolved who hook :
  (Users.add (registry w) who).1 = None ->
  membership w room who hook = done w room [].
Proof.
  intros Hadd. unfold membership.
  destruct (Users.add (registry w) who) as [[u |] U]; [discriminate | reflexivity].
Qed.

Lemma pm_unresolved fields :
  (Users.add (registry w) (fields !! 0%nat)).1 = None ->
  pm E C Commands w room fields = done w room [].
Proof.
  intros Hadd. unfold pm.
  destruct (Users.add (registry w) (fields !! 0%nat)) as [[u |] U];
    [discriminate | reflexivity].
Qed.

End Unresolved.

(** ** The rank relation between users and rooms *)

(** A membership snapshot ([case 'users']) writes both sides for every
    entry, so it keeps the two sides in agreement. *)
Lemma snapshot_in_sync entries : forall w room,
  in_sync w room ->
  let '(w', room', st) := snapshot w room entries in
  in_sync w' room' ∧ Room.id room' = Room.id room.
Proof.
  induction entries as [| x entries IH]; intros w room Hsync; cbn [snapshot].
  - split; [exact Hsync | reflexivity].
  - unfold Users.add. cbn [Tools.toId_opt].
    destruct (JS.truthy_str (Tools.toId (JS.substr_from x 1))) eqn:Hid;
      [| split; [exact Hsync | reflexivity]].
    set (key := Tools.toId (JS.substr_from x 1)) in *.
    set (rank := JS.charAt x 0).
    destruct (Users.users (registry w) !! key) as [u |] eqn:Hu.
    + match goal with |- context [snapshot ?w1 ?r1 entries] =>
        specialize (IH w1 r1); destruct (snapshot w1 r1 entries) as [[w' room'] st] end.
      destruct IH as [IH1 IH2].
      * intros k. cbn. destruct (decide (key = k)) as [<- | Hne].
        -- rewrite !lookup_insert_eq. cbn. rewrite lookup_insert_eq. reflexivity.
        -- rewrite !lookup_insert_ne by exact Hne. apply Hsync.
      * split; [exact IH1 | rewrite IH2; reflexivity].
    + match goal with |- context [snapshot ?w1 ?r1 entries] =>
        specialize (IH w1 r1); destruct (snapshot w1 r1 entries) as [[w' room'] st] end.
      destruct IH as [IH1 IH2].
      * intros k. cbn. destruct (decide (key = k)) as [<- | Hne].
        -- rewrite !lookup_insert_eq. cbn. rewrite lookup_insert_eq. reflexivity.
        -- rewrite !lookup_insert_ne by exact Hne. apply Hsync.
      * split; [exact IH1 | rewrite IH2; reflexivity].
Qed.

(** [parse] on a [users] line keeps the two sides in agreement. *)
Lemma parse_users_in_sync E C Commands w room message fields :
  drop 1 (JS.split message "|"%char) = "users" :: fields ->
  vetoed C room (Some "users") fields = false ->
  in_sync w room ->
  let r := parse E C Commands w message room in
  in_sync (world r) (room_after r).
Proof.
  intros Hs Hv Hsync r. subst r.
  rewrite (parse_users E C Commands w room message fields Hs Hv).
  unfold users_snapshot.
  destruct (fields !! 0%nat) as [s |]; [| exact Hsync].
  destruct (String.eqb s "0"); [exact Hsync |].
  pose proof (snapshot_in_sync (drop 1 (JS.split s ","%char)) w room Hsync) as H.
  destruct (snapshot w room (drop 1 (JS.split s ","%char))) as [[w' room'] st].
  apply H.
Qed.

Lemma session_in_sync : in_sync Session.W Session.lobby.
Proof.
  intros key. cbn.
  destruct (decide (key = "alice")) as [-> | Ha]; [reflexivity |].
  rewrite !lookup_insert_ne by congruence.
  destruct (decide (key = "bot")) as [-> | Hb]; [reflexivity |].
  rewrite lookup_insert_ne by congruence. reflexivity.
Qed.

(** C7 fails on chat lines: the line [|c|+alice|hello] arrives in the
    lobby, where [alice] has the rank [" "] on both sides.  [parse] writes
    the new rank ["+"] into the user's room-membership map only; the room's
    user map keeps [" "], and the two sides no longer agree. *)
Theorem chat_rank_change_is_one_sided :
  let r := parse Session.E Session.C Session.Commands Session.W
                 "|c|+alice|hello" Session.lobby in
  in_sync Session.W Session.lobby
  ∧ Users.users (registry (world r)) !! "alice" ≫= (fun u => User.rooms u !! "lobby")
    = Some "+"
  ∧ Room.users (room_after r) !! "alice" = Some " "
  ∧ ¬ in_sync (world r) (room_after r).
Proof.
  cbv zeta. split; [exact session_in_sync |].
  assert (H1 : Users.users (registry (world (parse Session.E Session.C Session.Commands
                 Session.W "|c|+alice|hello" Session.lobby))) !! "alice"
               ≫= (fun u => User.rooms u !! "lobby") = Some "+")
    by (vm_compute; reflexivity).
  assert (H2 : Room.users (room_after (parse Session.E Session.C Session.Commands
                 Session.W "|c|+alice|hello" Session.lobby)) !! "alice" = Some " ")
    by (vm_compute; reflexivity).
  split; [exact H1 |]. split; [exact H2 |].
  intros Hsync. specialize (Hsync "alice").
  vm_compute in Hsync. discriminate Hsync.
Qed.

(** ** Context.run and command resolution *)

Section Run.
Context (E : Env) (Commands : gmap string entry).

Lemma invoke_handler this command target h :
  Commands !! command = Some (Handler h) ->
  ContextMethods.invoke E Commands this command target
  = match h this target with
    | Returns => ([Invoke command this target], Normal true)
    | Throws Nullish => ([Invoke command this target], Abrupt (TypeError "e.stack"))
    | Throws (Thrown stack) =>
        ([Invoke command this target;
          Log (ContextMethods.diagnostic E this stack command target)], Normal false)
    end.
Proof. intros H. unfold ContextMethods.invoke. rewrite (lookup_own _ _ _ H). reflexivity. Qed.




(** The handler returns: [run()] reports success. *)
Lemma run_returns_true this h :
  Commands !! Context.command this = Some (Handler h) ->
  h this (Context.target this) = Returns ->
  ContextMethods.run E Commands this None None
  = ([Invoke (Context.command this) this (Context.target this)], Normal true).
Proof.
  intros Hc Hh. unfold ContextMethods.run.
  rewrite (invoke_handler _ _ _ _ Hc), Hh. reflexivity.
Qed.

(** The handler throws a value on which [e.stack] can be read: the
    exception is contained, the diagnostic is logged and [run()] reports
    failure. *)
Lemma run_contains_thrown this h stack :
  Commands !! Context.command this = Some (Handler h) ->
  h this (Context.target this) = Throws (Thrown stack) ->
  ContextMethods.run E Commands this None None
  = ([Invoke (Context.command this) this (Context.target this);
      Log (default "undefined" stack
           +:+ "Additional information:" +:+ nl
           +:+ "Command = " +:+ Context.command this +:+ nl
           +:+ "Target = " +:+ Context.target this +:+ nl
           +:+ "Time = " +:+ toLocaleString E (Context.time this) +:+ nl
           +:+ "User = " +:+ User.name (Context.user this) +:+ nl
           +:+ "Room = " +:+ match Context.room this with
                             | InPM _ => "in PM"
                             | InRoom r => Room.id r
                             end)],
     Normal false).
Proof.
  intros Hc Hh. unfold ContextMethods.run.
  rewrite (invoke_handler _ _ _ _ Hc), Hh. reflexivity.
Qed.

(** The handler throws [null] or [undefined]: reading [e.stack] in the
    [catch] block raises, and that error leaves [run()]. *)
Lemma run_nullish_escapes this h :
  Commands !! Context.command this = Some (Handler h) ->
  h this (Context.target this) = Throws Nullish ->
  ContextMethods.run E Commands this None None
  = ([Invoke (Context.command this) this (Context.target this)],
     Abrupt (TypeError "e.stack")).
Proof.
  intros Hc Hh. unfold ContextMethods.run.
  rewrite (invoke_handler _ _ _ _ Hc), Hh. reflexivity.
Qed.

End Run.

(** C2 fails for a handler that throws [null]: [alice] sends [.boom x] in
    the lobby, the handler of [boom] does [throw null], and the [catch]
    block of [run] raises a [TypeError] on [e.stack].  [run] neither
    returns [false] nor logs, and the error leaves [parseCommand] and
    [parse]. *)
Theorem run_does_not_contain_throw_null :
  Session.Commands !! "boom" = Some (Handler Session.boom)
  ∧ Session.boom Session.this "x" = Throws Nullish
  ∧ ContextMethods.run Session.E Session.Commands Session.this None None
    = ([Invoke "boom" Session.this "x"], Abrupt (TypeError "e.stack"))
  ∧ status_of (parse Session.E Session.C Session.Commands Session.W
                     "|c| alice|.boom x" Session.lobby)
    = Raised (TypeError "e.stack").
Proof. repeat split; vm_compute; reflexivity. Qed.







(** ** Moderation *)

Lemma sort_insert_nonempty {A} (cmp : A -> A -> Z) x l : sort_insert cmp x l ≠ [].
Proof. destruct l as [| y l]; cbn; [| destruct (0 <? cmp x y)]; discriminate. Qed.

Lemma js_sort_nonempty {A} (cmp : A -> A -> Z) l : l ≠ [] -> js_sort cmp l ≠ [].
Proof.
  destruct l as [| x l]; [congruence |]. intros _. cbn. apply sort_insert_nonempty.
Qed.

Lemma sort_insert_perm {A} (cmp : A -> A -> Z) x l : sort_insert cmp x l ≡ₚ x :: l.
Proof.
  induction l as [| y l IH]; cbn; [reflexivity |].
  destruct (0 <? cmp x y); [| reflexivity].
  rewrite IH. apply Permutation_swap.
Qed.

Lemma js_sort_perm {A} (cmp : A -> A -> Z) l : js_sort cmp l ≡ₚ l.
Proof.
  induction l as [| x l IH]; cbn; [reflexivity |].
  rewrite sort_insert_perm. apply Permutation_skip, IH.
Qed.

(** An element that no other one beats stays in front. *)
Lemma js_sort_head {A} (cmp : A -> A -> Z) x l :
  (forall y, y ∈ l -> cmp x y <= 0) ->
  js_sort cmp (x :: l) = x :: js_sort cmp l.
Proof.
  intros H. cbn [js_sort foldr]. fold (js_sort cmp l).
  assert (Hl : forall y, y ∈ js_sort cmp l -> cmp x y <= 0)
    by (intros y Hy; apply H; rewrite <- (js_sort_perm cmp l); exact Hy).
  destruct (js_sort cmp l) as [| y l']; [reflexivity |]. cbn [sort_insert].
  destruct (Z.ltb_spec 0 (cmp x y)) as [Hlt | _]; [| reflexivity].
  specialize (Hl y (list_elem_of_here _ _)). lia.
Qed.

Lemma record_of_set_data user room data : record_of (set_data user room data) room = data.
Proof. unfold record_of, set_data. cbn. rewrite lookup_insert_eq. reflexivity. Qed.

Lemma escalate_keeps pts acts data p :
  Record.messages (escalate pts acts data p).1 = Record.messages data
  ∧ Record.lastAction (escalate pts acts data p).1 = Record.lastAction data.
Proof. unfold escalate. destruct (JS.ge _ _); split; reflexivity. Qed.

Section Moderation.
Context (E : Env) (C : Config) (self : User.t) (room : Room.t)
        (pts : gmap string Z) (acts : gmap string string).

(** An applied punishment is one message to the room; the history is kept,
    and [lastAction] becomes the time of the call unless the action is a
    verbal warning. *)
Lemma apply_spec user time data p :
  let r := apply E C self pts acts room user time data p in
  (exists text, r.2 = [Say (Room.id room) text])
  ∧ Record.messages r.1 = Record.messages data
  ∧ Record.lastAction r.1
    = if String.eqb (escalate pts acts data p).2 "verbalwarn"
      then Record.lastAction data else time.
Proof.
  unfold apply. pose proof (escalate_keeps pts acts data p) as [Hm Hl].
  destruct (escalate pts acts data p) as [d act]. cbn [fst snd] in *.
  destruct (String.eqb act "verbalwarn"); cbn [fst snd].
  - split; [eexists; reflexivity |]. split; assumption.
  - split; [eexists; reflexivity |]. split; [exact Hm | reflexivity].
Qed.

Hypothesis Hgate : gate E C self room = true.
Hypothesis Hpts : punishmentPoints C = Some pts.
Hypothesis Hacts : punishmentActions C = Some acts.

Lemma moderate_eq user message time :
  moderate E C self message room user time
  = let message := normalize message in
    let data := observe user room message time in
    let user := set_data user room data in
    if cooldown data time then (user, [])
    else
      match js_sort (by_points pts) (candidates C message room user time data) with
      | [] => (user, [])
      | p :: _ =>
          let '(data, out) := apply E C self pts acts room user time data p in
          (set_data user room data, out)
      end.
Proof. unfold moderate. rewrite Hgate, Hpts, Hacts. reflexivity. Qed.

(** The message is recorded, whatever the evaluation decides. *)
Lemma moderate_records user message time :
  Record.messages (record_of (moderate E C self message room user time).1 room)
  = (normalize message, time) :: Record.messages (record_of user room).
Proof.
  rewrite moderate_eq. cbv zeta.
  destruct (cooldown _ _); [cbn [fst]; rewrite record_of_set_data; reflexivity |].
  destruct (js_sort _ _) as [| p ?]; [cbn [fst]; rewrite record_of_set_data; reflexivity |].
  match goal with |- context [apply ?E ?C ?s ?p ?a ?r ?u ?t ?d ?q] =>
    pose proof (apply_spec u t d q) as (_ & Hm & _);
    destruct (apply E C s p a r u t d q) as [d' out] end.
  cbn [fst snd] in *. rewrite record_of_set_data, Hm. reflexivity.
Qed.

(** One evaluation applies at most one punishment. *)
Lemma moderate_at_most_one user message time :
  (length (moderate E C self message room user time).2 <= 1)%nat.
Proof.
  rewrite moderate_eq. cbv zeta.
  destruct (cooldown _ _); [cbn; lia |].
  destruct (js_sort _ _) as [| p ?]; [cbn; lia |].
  match goal with |- context [apply ?E ?C ?s ?p ?a ?r ?u ?t ?d ?q] =>
    pose proof (apply_spec u t d q) as ([text Ho] & _ & _);
    destruct (apply E C s p a r u t d q) as [d' out] end.
  cbn [fst snd] in *. subst out. cbn. lia.
Qed.


End Moderation.




(** ** The flood rule *)

Lemma flooding_spec data t :
  flooding data (JS.Num t) = true
  <-> exists m4,
        (exists t4, Record.messages data !! 4%nat = Some (m4, JS.Num t4) ∧ t - t4 <= 5000)
        ∨ Record.messages data !! 4%nat = Some (m4, JS.Inf false).
Proof.
  unfold flooding, FLOOD_MINIMUM_MESSAGES, FLOOD_MAXIMUM_TIME.
  change (5 - 1)%nat with 4%nat. split.
  - intros H. apply andb_prop in H as [_ H].
    destruct (Record.messages data !! 4%nat) as [[m4 [| t4 | []]] |];
      try discriminate; exists m4; [left | right; reflexivity].
    exists t4. split; [reflexivity |].
    rewrite le_sub in H by (cbn; lia). apply Z.leb_le in H. exact H.
  - intros (m4 & [(t4 & Hl & Hle) | Hl]); rewrite Hl; apply andb_true_intro; split;
      try (apply Nat.leb_le; apply lookup_lt_Some in Hl; lia).
    + rewrite le_sub by (cbn; lia). apply Z.leb_le. exact Hle.
    + reflexivity.
Qed.

Lemma flooding_needs_five data time :
  (length (Record.messages data) < 5)%nat -> flooding data time = false.
Proof.
  intros H. unfold flooding, FLOOD_MINIMUM_MESSAGES.
  destruct (Nat.leb_spec 5 (length (Record.messages data))); [lia | reflexivity].
Qed.

(** With time stamps in chronological order, the test of line 349 is the
    spec's window. *)
Lemma flooding_iff_window data m t rest :
  Record.messages data = (m, JS.Num t) :: rest ->
  chronological data ->
  flooding data (JS.Num t) = true <-> recent_within_window data.
Proof.
  intros Hm (zs & Hz & Hsorted). rewrite flooding_spec.
  unfold recent_within_window, times in *. split.
  - intros (m4 & [(t4 & Hl & Hle) | Hl]).
    2: { assert (H : (map snd (Record.messages data)) !! 4%nat = Some (JS.Inf false))
           by (rewrite list_lookup_fmap, Hl; reflexivity).
         rewrite Hz, list_lookup_fmap in H.
         destruct (zs !! 4%nat); cbn in H; congruence. }
    assert (H0 : zs !! 0%nat = Some t).
    { assert (H : (map snd (Record.messages data)) !! 0%nat = Some (JS.Num t))
        by (rewrite Hm; reflexivity).
      rewrite Hz, list_lookup_fmap in H.
      destruct (zs !! 0%nat); cbn in H; congruence. }
    assert (H4 : zs !! 4%nat = Some t4).
    { assert (H : (map snd (Record.messages data)) !! 4%nat = Some (JS.Num t4))
        by (rewrite list_lookup_fmap, Hl; reflexivity).
      rewrite Hz, list_lookup_fmap in H.
      destruct (zs !! 4%nat); cbn in H; congruence. }
    exists (take 5 zs). split; [| split].
    + rewrite Hz. symmetry. apply fmap_take.
    + rewrite length_take. apply lookup_lt_Some in H4. lia.
    + intros a b Ha Hb.
      apply list_elem_of_lookup in Ha as [i Hi], Hb as [j Hj].
      apply lookup_take_Some in Hi as [Hi Hi5], Hj as [Hj Hj5].
      pose proof (Hsorted 0%nat i t a ltac:(lia) H0 Hi).
      pose proof (Hsorted j 4%nat b t4 ltac:(lia) Hj H4).
      lia.
  - intros (ws & Hw & Hlen & Hpair).
    assert (H0 : ws !! 0%nat = Some t).
    { assert (H : take 5 (map snd (Record.messages data)) !! 0%nat = Some (JS.Num t))
        by (rewrite Hm; reflexivity).
      rewrite Hw, list_lookup_fmap in H.
      destruct (ws !! 0%nat); cbn in H; congruence. }
    destruct (ws !! 4%nat) as [t4 |] eqn:H4;
      [| apply lookup_ge_None in H4; lia].
    assert (Ht4 : map snd (Record.messages data) !! 4%nat = Some (JS.Num t4)).
    { rewrite <- (lookup_take_lt _ 5 4) by lia.
      rewrite Hw, list_lookup_fmap, H4. reflexivity. }
    rewrite list_lookup_fmap in Ht4.
    destruct (Record.messages data !! 4%nat) as [[m4 x] |] eqn:Hl; [| discriminate].
    cbn in Ht4. injection Ht4 as ->.
    exists m4. left. exists t4. split; [reflexivity |].
    apply Hpair; apply list_elem_of_lookup; eauto.
Qed.

Section Burst.
Context (E : Env) (C : Config) (self : User.t) (room : Room.t)
        (pts : gmap string Z) (acts : gmap string string).
Hypothesis Hgate : gate E C self room = true.
Hypothesis Hpts : punishmentPoints C = Some pts.
Hypothesis Hacts : punishmentActions C = Some acts.

(** Every call of a series records its message. *)
Lemma moderate_all_records calls : forall user,
  Record.messages (record_of (moderate_all E C self room user calls).1 room)
  = (rev (map (fun c => (normalize c.1, c.2)) calls)
     ++ Record.messages (record_of user room))%list.
Proof.
  induction calls as [| [m t] calls IH]; intros user; [reflexivity |].
  cbn [moderate_all].
  pose proof (moderate_records E C self room pts acts Hgate Hpts Hacts user m t) as Hr.
  destruct (moderate E C self m room user t) as [u out]. cbn [fst] in Hr.
  specialize (IH u).
  destruct (moderate_all E C self room u calls) as [u' outs]. cbn [fst] in *.
  rewrite IH, Hr. cbn [map rev fst snd]. rewrite <- app_assoc. reflexivity.
Qed.

End Burst.

(** With the built-in rules alone, and a verbal warning worth no more
    points than a mute, the flood candidate is the one the sort puts
    first. *)
Lemma flood_comes_first C pts message room user time data :
  moderate_hook C = None ->
  flooding data time = true ->
  (forall pv pm, pts !! "verbalwarn" = Some pv -> pts !! "mute" = Some pm -> pv <= pm) ->
  exists rest,
    js_sort (by_points pts) (candidates C message room user time data)
    = flood_punishment :: rest.
Proof.
  intros Hhook Hflood Hle. unfold candidates. rewrite Hhook, Hflood.
  cbn [app]. eexists. apply js_sort_head.
  intros y Hy.
  assert (Hact : action y = "verbalwarn").
  { apply elem_of_app in Hy as [Hy | Hy];
      [destruct (stretching message) | destruct (shouting message)];
      first [inversion Hy; fail
            | apply list_elem_of_singleton in Hy; subst y; reflexivity]. }
  unfold by_points, points_of. rewrite Hact. cbn [action flood_punishment].
  destruct (pts !! "verbalwarn") as [pv |] eqn:Hv; [| lia].
  destruct (pts !! "mute") as [pm |] eqn:Hm; [| lia].
  specialize (Hle pv pm eq_refl eq_refl). lia.
Qed.

Lemma append_assoc (a b c : string) : (a +:+ b) +:+ c = a +:+ (b +:+ c).
Proof.
  induction a as [| x a IH]; [reflexivity |].
  change (String x ((a +:+ b) +:+ c) = String x (a +:+ (b +:+ c))).
  f_equal. exact IH.
Qed.

(** The text of an applied punishment ends with the offender's name and
    the reason of the candidate. *)
Lemma apply_text E C self pts acts room user time data p :
  exists head,
    (apply E C self pts acts room user time data p).2
    = [Say (Room.id room) (head +:+ User.name user +:+ ", " +:+ reason_of C p)].
Proof.
  unfold apply. destruct (escalate pts acts data p) as [d act].
  destruct (String.eqb act "verbalwarn"); cbn [snd].
  - exists "". reflexivity.
  - match goal with
    | |- context ["/" +:+ ?a +:+ " " +:+ _] => exists ("/" +:+ a +:+ " ")
    end.
    rewrite !append_assoc. reflexivity.
Qed.

(** C4, as the code has it: when the recorded time stamps are in
    chronological order, the flood rule fires exactly when the 5 most
    recent recorded messages, the current one included, fall within a
    5-second window; fewer than 5 recorded messages never fire it.  Five
    messages of one user in one room whose first and last are at most 5
    seconds apart make the rule fire on the 5th; if no punishment was
    applied in the 5 seconds before, the flood candidate is among the
    candidates of that evaluation and exactly one punishment is applied,
    that of the candidate the sort by points puts first.  It is the flood
    punishment, said with the flood reason, when no [Config.moderate] hook
    is configured and a verbal warning has no more points than a mute.  A
    6th message 10 seconds after a chronological burst does not fire the
    rule. *)
Theorem flood_rule E C self room pts acts :
  gate E C self room = true ->
  punishmentPoints C = Some pts ->
  punishmentActions C = Some acts ->
  (forall data m t rest,
     Record.messages data = (m, JS.Num t) :: rest ->
     chronological data ->
     flooding data (JS.Num t) = true <-> recent_within_window data)
  ∧ (forall data time,
       (length (Record.messages data) < 5)%nat -> flooding data time = false)
  ∧ (forall user m1 t1 m2 t2 m3 t3 m4 t4 m5 t5,
       t5 - t1 <= 5000 ->
       let u4 := (moderate_all E C self room user
                    [(m1, JS.Num t1); (m2, JS.Num t2); (m3, JS.Num t3);
                     (m4, JS.Num t4)]).1 in
       let data := observe u4 room (normalize m5) (JS.Num t5) in
       let found :=
         candidates C (normalize m5) room (set_data u4 room data) (JS.Num t5) data in
       let r := moderate E C self m5 room u4 (JS.Num t5) in
       let applied p :=
         (apply E C self pts acts room (set_data u4 room data) (JS.Num t5) data p).2 in
       flooding data (JS.Num t5) = true
       ∧ (cooldown data (JS.Num t5) = false ->
          flood_punishment ∈ found
          ∧ length r.2 = 1%nat
          ∧ (exists p rest,
               js_sort (by_points pts) found = p :: rest ∧ p ∈ found
               ∧ r.2 = applied p)
          ∧ (moderate_hook C = None ->
             (forall pv pm,
                pts !! "verbalwarn" = Some pv -> pts !! "mute" = Some pm -> pv <= pm) ->
             r.2 = applied flood_punishment
             ∧ exists head,
                 r.2 = [Say (Room.id room)
                            (head +:+ User.name u4 +:+ ", "
                             +:+ reason_of C flood_punishment)])))
  ∧ (forall user m1 t1 m2 t2 m3 t3 m4 t4 m5 t5 m6,
       t2 <= t5 ->
       let u5 := (moderate_all E C self room user
                    [(m1, JS.Num t1); (m2, JS.Num t2); (m3, JS.Num t3);
                     (m4, JS.Num t4); (m5, JS.Num t5)]).1 in
       let t6 := JS.Num (t5 + 10000) in
       flooding (observe u5 room (normalize m6) t6) t6 = false).
Proof.
  intros Hgate Hpts Hacts. split; [| split; [| split]].
  - apply flooding_iff_window.
  - apply flooding_needs_five.
  - intros user m1 t1 m2 t2 m3 t3 m4 t4 m5 t5 Hspan u4 data found r applied.
    assert (Hmsgs : Record.messages data !! 4%nat = Some (normalize m1, JS.Num t1)).
    { subst data u4. unfold observe. cbn [Record.messages].
      rewrite (moderate_all_records E C self room pts acts Hgate Hpts Hacts).
      reflexivity. }
    assert (Hflood : flooding data (JS.Num t5) = true).
    { apply flooding_spec. exists (normalize m1). left. exists t1.
      split; [exact Hmsgs | lia]. }
    split; [exact Hflood |]. intros Hcool.
    assert (Hin : flood_punishment ∈ found).
    { subst found. unfold candidates. rewrite Hflood.
      apply elem_of_app. right. apply elem_of_app. left. apply list_elem_of_here. }
    split; [exact Hin |].
    assert (Hr : forall p rest, js_sort (by_points pts) found = p :: rest ->
                 r.2 = applied p).
    { intros p rest Hsort. subst r applied.
      rewrite (moderate_eq E C self room pts acts Hgate Hpts Hacts). cbv zeta.
      fold u4. fold data. rewrite Hcool. fold found. rewrite Hsort.
      destruct (apply E C self pts acts room (set_data u4 room data)
                      (JS.Num t5) data p) as [d out].
      reflexivity. }
    destruct (js_sort (by_points pts) found) as [| p rest] eqn:Hsort.
    { exfalso. apply (js_sort_nonempty (by_points pts) found); [| exact Hsort].
      intros Hnil. rewrite Hnil in Hin. inversion Hin. }
    split; [| split].
    + rewrite (Hr p rest eq_refl). subst applied. cbv beta.
      destruct (apply_text E C self pts acts room (set_data u4 room data)
                  (JS.Num t5) data p) as [head ->].
      reflexivity.
    + exists p, rest. split; [reflexivity |]. split; [| exact (Hr p rest eq_refl)].
      rewrite <- (js_sort_perm (by_points pts) found), Hsort. apply list_elem_of_here.
    + intros Hhook Hle.
      destruct (flood_comes_first C pts (normalize m5) room (set_data u4 room data)
                  (JS.Num t5) data Hhook Hflood Hle) as [rest' Hhead].
      fold found in Hhead. rewrite Hsort in Hhead. injection Hhead as -> _.
      split; [exact (Hr _ _ eq_refl) |].
      rewrite (Hr _ _ eq_refl). subst applied. cbv beta.
      exact (apply_text E C self pts acts room (set_data u4 room data)
               (JS.Num t5) data flood_punishment).
  - intros user m1 t1 m2 t2 m3 t3 m4 t4 m5 t5 m6 Hle u5 t6.
    destruct (flooding (observe u5 room (normalize m6) t6) t6) eqn:Hf; [| reflexivity].
    exfalso. subst t6. apply flooding_spec in Hf as (m & [(t & Hl & Ht) | Hl]);
      subst u5; unfold observe in Hl; cbn [Record.messages] in Hl;
      rewrite (moderate_all_records E C self room pts acts Hgate Hpts Hacts) in Hl;
      cbn in Hl; [injection Hl as _ <-; lia | discriminate Hl].
Qed.

Lemma flood_rule_witness :
  let u4 := (moderate_all Session.E Session.C Session.bot Session.lobby Session.alice
               [("a", JS.Num 1000); ("b", JS.Num 2000); ("c", JS.Num 3000);
                ("d", JS.Num 4000)]).1 in
  let u5 := (moderate_all Session.E Session.C Session.bot Session.lobby Session.alice
               [("a", JS.Num 1000); ("b", JS.Num 2000); ("c", JS.Num 3000);
                ("d", JS.Num 4000); ("e", JS.Num 5000)]).1 in
  flooding (observe u4 Session.lobby (normalize "e") (JS.Num 5000)) (JS.Num 5000) = true
  ∧ recent_within_window (observe u4 Session.lobby (normalize "e") (JS.Num 5000))
  ∧ (exists head,
       (moderate Session.E Session.C Session.bot "e" Session.lobby u4 (JS.Num 5000)).2
       = [Say "lobby" (head +:+ "alice, please do not flood the chat")])
  ∧ flooding (observe u5 Session.lobby (normalize "f") (JS.Num 15000)) (JS.Num 15000)
    = false.
Proof.
  pose proof (flood_rule Session.E Session.C Session.bot Session.lobby
                (<["verbalwarn" := 1]> (<["mute" := 2]> ∅)) ∅
                eq_refl eq_refl eq_refl) as (HA & _ & HB & HC).
  cbv zeta.
  pose proof (HB Session.alice "a" 1000 "b" 2000 "c" 3000 "d" 4000 "e" 5000
                ltac:(lia)) as [Hfire Happlied].
  cbv zeta in Hfire, Happlied.
  split; [exact Hfire |]. split; [| split].
  - refine (proj1 (HA _ "e" 5000
                     [("d", JS.Num 4000); ("c", JS.Num 3000); ("b", JS.Num 2000);
                      ("a", JS.Num 1000)] _ _) Hfire).
    + vm_compute. reflexivity.
    + exists [5000; 4000; 3000; 2000; 1000]. split; [vm_compute; reflexivity |].
      intros i j a b Hij Hi Hj.
      repeat (destruct i as [| i]; [injection Hi as <- |]);
        repeat (destruct j as [| j]; [injection Hj as <- |]);
        try lia; try (destruct i; discriminate); destruct j; discriminate.
  - destruct (Happlied ltac:(vm_compute; reflexivity)) as (_ & _ & _ & Hflood).
    destruct (Hflood eq_refl) as [_ [head Hsay]].
    + intros pv pm Hv Hm. vm_compute in Hv, Hm.
      injection Hv as <-. injection Hm as <-. lia.
    + exists head. exact Hsay.
  - apply (HC Session.alice "a" 1000 "b" 2000 "c" 3000 "d" 4000 "e" 5000 "f"). lia.
Defined.

(** C4 as stated fails in two ways.  When time stamps are out of order:
    of five messages of [alice] in the lobby, the middle three carry a
    time 100 seconds after the first and 99 seconds after the last; the
    rule compares the newest message with the fifth most recent only,
    fires, and [alice] is muted, though the five messages do not fall
    within any 5-second window.  And the punishment of the 5th message of
    a burst need not be the flood punishment: where a verbal warning has
    more points than a mute and the 5th message is in capitals, the rule
    fires, yet the one punishment applied is the warning for caps. *)
Lemma flood_rule_counterexamples :
  let r := moderate_all Session.E Session.C Session.bot Session.lobby Session.alice
             [("a", JS.Num 1000); ("b", JS.Num 101000); ("c", JS.Num 101000);
              ("d", JS.Num 101000); ("e", JS.Num 2000)] in
  let u4 := (moderate_all Session.E Session.Warnful Session.bot Session.lobby
               Session.alice
               [("a", JS.Num 1000); ("b", JS.Num 2000); ("c", JS.Num 3000);
                ("d", JS.Num 4000)]).1 in
  (r.2 = [[]; []; []; []; [Say "lobby" "/mute alice, please do not flood the chat"]]
   ∧ times (record_of r.1 Session.lobby)
     = [JS.Num 2000; JS.Num 101000; JS.Num 101000; JS.Num 101000; JS.Num 1000]
   ∧ flooding (record_of r.1 Session.lobby) (JS.Num 2000) = true
   ∧ ¬ recent_within_window (record_of r.1 Session.lobby))
  ∧ (Record.lastAction (record_of u4 Session.lobby) = JS.Num 0
     ∧ flooding (observe u4 Session.lobby (normalize Session.SHOUT) (JS.Num 5000))
                (JS.Num 5000) = true
     ∧ (moderate Session.E Session.Warnful Session.bot Session.SHOUT Session.lobby
                 u4 (JS.Num 5000)).2
       = [Say "lobby" "alice, please do not abuse caps"]).
Proof.
  cbv zeta.
  assert (Ht : times (record_of (moderate_all Session.E Session.C Session.bot
                 Session.lobby Session.alice
                 [("a", JS.Num 1000); ("b", JS.Num 101000); ("c", JS.Num 101000);
                  ("d", JS.Num 101000); ("e", JS.Num 2000)]).1 Session.lobby)
               = [JS.Num 2000; JS.Num 101000; JS.Num 101000; JS.Num 101000; JS.Num 1000])
    by (vm_compute; reflexivity).
  split; [| repeat split; vm_compute; reflexivity].
  split; [vm_compute; reflexivity |]. split; [exact Ht |].
  split; [vm_compute; reflexivity |].
  intros (zs & Hz & _ & Hpair). rewrite Ht in Hz. cbn [take] in Hz.
  destruct zs as [| z0 [| z1 [| z2 [| z3 [| z4 [| z5 zs]]]]]]; try discriminate Hz.
  injection Hz as <- <- <- <- <-.
  specialize (Hpair 101000 1000).
  assert (101000 - 1000 <= 5000); [| lia].
  apply Hpair.
  - apply list_elem_of_further, list_elem_of_here.
  - do 4 apply list_elem_of_further. apply list_elem_of_here.
Qed.

(** * Further properties of the parser *)

(** ** Splitting a line and joining its fields *)

Lemma str_app a b : JS.str (a ++ b)%list = JS.str a +:+ JS.str b.
Proof.
  unfold JS.str. induction a as [| c a IH]; [reflexivity |].
  cbn [app string_of_list_ascii].
  change (String c (string_of_list_ascii a) +:+ string_of_list_ascii b)
    with (String c (string_of_list_ascii a +:+ string_of_list_ascii b)).
  f_equal. exact IH.
Qed.

Lemma str_chars s : JS.str (JS.chars s) = s.
Proof. apply string_of_list_ascii_of_string. Qed.

Lemma chars_str l : JS.chars (JS.str l) = l.
Proof. apply list_ascii_of_string_of_list_ascii. Qed.

Lemma chars_app a b : JS.chars (a +:+ b) = (JS.chars a ++ JS.chars b)%list.
Proof.
  unfold JS.chars. induction a as [| c a IH]; [reflexivity |].
  change (String c a +:+ b) with (String c (a +:+ b)).
  cbn [list_ascii_of_string app]. f_equal. exact IH.
Qed.

Lemma split_chars_nonempty sep l cur : JS.split_chars sep l cur ≠ [].
Proof.
  revert cur. induction l as [| a l IH]; intros cur; cbn; [discriminate |].
  destruct (Ascii.eqb a sep); [discriminate | apply IH].
Qed.

Lemma join_cons sep x l : l ≠ [] -> JS.join sep (x :: l) = x +:+ sep +:+ JS.join sep l.
Proof. destruct l; [congruence | reflexivity]. Qed.

Lemma join_split_chars sep l cur :
  JS.join (String sep "") (JS.split_chars sep l cur) = JS.str (rev cur ++ l)%list.
Proof.
  revert cur. induction l as [| a l IH]; intros cur; cbn [JS.split_chars].
  - rewrite app_nil_r. reflexivity.
  - destruct (Ascii.eqb_spec a sep) as [-> | Hne].
    + rewrite join_cons by apply split_chars_nonempty.
      rewrite IH. cbn [rev app]. rewrite (str_app (rev cur) (sep :: l)). reflexivity.
    + rewrite IH. cbn [rev]. rewrite <- app_assoc. reflexivity.
Qed.

(** A field that holds no separator is split off whole. *)
Lemma split_chars_field sep a l cur :
  sep ∉ a ->
  JS.split_chars sep (a ++ sep :: l)%list cur
  = JS.str (rev cur ++ a)%list :: JS.split_chars sep l [].
Proof.
  revert cur. induction a as [| c a IH]; intros cur Hnot; cbn [app JS.split_chars].
  - rewrite Ascii.eqb_refl, app_nil_r. reflexivity.
  - destruct (Ascii.eqb_spec c sep) as [-> | Hne].
    + exfalso. apply Hnot. apply list_elem_of_here.
    + rewrite IH by (intros H; apply Hnot; apply list_elem_of_further, H).
      cbn [rev]. rewrite <- app_assoc. reflexivity.
Qed.

Lemma split_field a b :
  "|"%char ∉ JS.chars a ->
  JS.split (a +:+ "|" +:+ b) "|"%char = a :: JS.split b "|"%char.
Proof.
  intros Hnot. unfold JS.split. rewrite chars_app.
  change (JS.chars ("|" +:+ b)) with ("|"%char :: JS.chars b).
  rewrite (split_chars_field "|"%char (JS.chars a) (JS.chars b) [] Hnot).
  cbn [rev app]. rewrite str_chars. reflexivity.
Qed.

(** X1: [join] undoes [split]; and in a line [|type|who|body], the fields
    after the discarded head are the type, the speaker, and the pieces of
    the body, which [slice(2).join('|')] puts back together whatever pipes
    the body holds. *)
Theorem line_fields_and_body ty who body :
  "|"%char ∉ JS.chars ty ->
  "|"%char ∉ JS.chars who ->
  let splitMessage :=
    drop 1 (JS.split ("|" +:+ ty +:+ "|" +:+ who +:+ "|" +:+ body) "|"%char) in
  splitMessage = ty :: who :: JS.split body "|"%char
  ∧ JS.join "|" (drop 2 splitMessage) = body
  ∧ forall s, JS.join "|" (JS.split s "|"%char) = s.
Proof.
  intros Hty Hwho splitMessage.
  assert (Hjoin : forall s, JS.join "|" (JS.split s "|"%char) = s).
  { intros s. unfold JS.split.
    rewrite (join_split_chars "|"%char (JS.chars s) []). cbn [rev app].
    apply str_chars. }
  assert (Hs : splitMessage = ty :: who :: JS.split body "|"%char).
  { subst splitMessage.
    change ("|" +:+ ty +:+ "|" +:+ who +:+ "|" +:+ body)
      with ("" +:+ "|" +:+ (ty +:+ "|" +:+ (who +:+ "|" +:+ body))).
    rewrite (split_field "") by (cbn; apply not_elem_of_nil).
    rewrite (split_field ty) by exact Hty.
    rewrite (split_field who) by exact Hwho. reflexivity. }
  split; [exact Hs |]. split; [| exact Hjoin].
  rewrite Hs. cbn [drop]. apply Hjoin.
Qed.

Lemma line_fields_and_body_witness :
  let splitMessage := drop 1 (JS.split "|c:|+alice|a|b||c" "|"%char) in
  splitMessage = ["c:"; "+alice"; "a"; "b"; ""; "c"]
  ∧ JS.join "|" (drop 2 splitMessage) = "a|b||c".
Proof.
  pose proof (line_fields_and_body "c:" "+alice" "a|b||c") as H.
  cbv zeta in *. destruct H as (H1 & H2 & _).
  - cbn. intros H. repeat (apply elem_of_cons in H as [H | H]; [discriminate |]). inversion H.
  - cbn. intros H. repeat (apply elem_of_cons in H as [H | H]; [discriminate |]). inversion H.
  - split; [exact H1 | exact H2].
Defined.

(** ** The Context constructor *)

Lemma drop_ws_clean l : starts_clean (JS.drop_ws l).
Proof.
  induction l as [| c l IH]; cbn; [exact I |].
  destruct (JS.is_ws c) eqn:Hc; [exact IH | exact Hc].
Qed.

Lemma drop_ws_id l : starts_clean l -> JS.drop_ws l = l.
Proof. destruct l as [| c l]; cbn; [reflexivity |]. intros ->. reflexivity. Qed.

Lemma drop_ws_suffix l : exists p, l = (p ++ JS.drop_ws l)%list.
Proof.
  induction l as [| c l [p IH]]; cbn; [exists []; reflexivity |].
  destruct (JS.is_ws c).
  - exists (c :: p). cbn. f_equal. exact IH.
  - exists []. reflexivity.
Qed.

Lemma rev_drop_ws_rev_clean l : starts_clean l -> starts_clean (rev (JS.drop_ws (rev l))).
Proof.
  intros Hl. destruct (drop_ws_suffix (rev l)) as [p Hp].
  destruct (JS.drop_ws (rev l)) as [| d ds] eqn:Hd; [exact I |].
  assert (Hrev : l = (rev (d :: ds) ++ rev p)%list).
  { rewrite <- rev_app_distr, <- Hp, rev_involutive. reflexivity. }
  destruct (rev (d :: ds)) as [| x xs] eqn:Hx.
  - apply (f_equal (@length ascii)) in Hx. rewrite length_rev in Hx. discriminate.
  - rewrite Hrev in Hl. exact Hl.
Qed.

Lemma trim_idempotent s : JS.trim (JS.trim s) = JS.trim s.
Proof.
  unfold JS.trim. rewrite chars_str.
  set (l1 := JS.drop_ws (JS.chars s)).
  assert (H1 : starts_clean l1) by apply drop_ws_clean.
  rewrite (drop_ws_id (rev (JS.drop_ws (rev l1)))) by (apply rev_drop_ws_rev_clean, H1).
  rewrite rev_involutive.
  rewrite (drop_ws_id (JS.drop_ws (rev l1))) by apply drop_ws_clean.
  reflexivity.
Qed.

(** X2: every context is built with a target that [trim] leaves alone (it
    is trimmed, or empty when none was given) and with a time that is
    never [NaN]: a missing, zero or [NaN] time is replaced by the clock,
    and any other time, an infinity included, is kept. *)
Theorem new_context_is_normalized E target room user command time :
  let this := ContextMethods.new E target room user command time in
  JS.trim (Context.target this) = Context.target this
  ∧ JS.isNaN (Context.time this) = false
  ∧ (match time with Some n => JS.truthy_num n = false | None => True end ->
     Context.time this = JS.Num (now E))
  ∧ (forall n, time = Some n -> JS.truthy_num n = true -> Context.time this = n)
  ∧ Context.room this = room ∧ Context.user this = user
  ∧ Context.command this = command.
Proof.
  cbv zeta. unfold ContextMethods.new. cbn [Context.target Context.time Context.room
    Context.user Context.command]. repeat split.
  - destruct target as [[| c t] |]; cbn [JS.truthy_str]; try reflexivity.
    apply trim_idempotent.
  - destruct time as [[| z | s] |]; cbn; try reflexivity.
    destruct (z =? 0); reflexivity.
  - destruct time as [n |]; [| reflexivity]. intros ->. reflexivity.
  - intros n -> ->. reflexivity.
Qed.

(** ** parseCommand *)

Lemma charAt_length s i : (String.length (JS.charAt s i) <= 1)%nat.
Proof.
  unfold JS.charAt. destruct (i <? 0); [cbn; lia |].
  destruct (String.get (Z.to_nat i) s); cbn; lia.
Qed.

Lemma invoke_function E Commands this command target h :
  as_function E (lookup_entry Commands command) = Some h ->
  ContextMethods.invoke E Commands this command target
  = match h this target with
    | Returns => ([Invoke command this target], Normal true)
    | Throws Nullish => ([Invoke command this target], Abrupt (TypeError "e.stack"))
    | Throws (Thrown stack) =>
        ([Invoke command this target;
          Log (ContextMethods.diagnostic E this stack command target)], Normal false)
    end.
Proof. intros H. unfold ContextMethods.invoke. rewrite H. reflexivity. Qed.

(** Where the function that [Commands[c]] reads comes from. *)
Lemma as_function_origin E Commands c h :
  as_function E (lookup_entry Commands c) = Some h ->
  Commands !! c = Some (Handler h)
  ∨ exists key,
      (Commands !! c = Some (Inherited key) ∨ (Commands !! c = None ∧ key = c))
      ∧ JS.inherited_function key = true ∧ h = builtin E key.
Proof.
  unfold lookup_entry.
  destruct (Commands !! c) as [[h' | a | key] |] eqn:Hc; cbn [as_function].
  - intros [= <-]. left. reflexivity.
  - discriminate.
  - destruct (JS.inherited_function key) eqn:Hk; [| discriminate].
    intros [= <-]. right. exists key. auto.
  - destruct (JS.inherited c); cbn [as_function]; [| discriminate].
    destruct (JS.inherited_function c) eqn:Hk; [| discriminate].
    intros [= <-]. right. exists c. auto.
Qed.

(** X3: [parseCommand] calls at most one function, the one that
    [Commands[command]] reads after at most one alias: a handler that
    [Commands] holds itself, or, when it holds no property of that name, a
    function it inherits from [Object.prototype].  The result is nothing
    at all, or the call of that function with the context built for it,
    followed by the logged diagnostic when it threw.  So [.constructor x]
    calls [Object] and reports success when [Commands] has no entry
    [constructor].  A message is never a command when the configured
    command character is not a single character, the empty message
    apart. *)
Theorem parseCommand_calls_one_function E C Commands message room user time :
  let r := parseCommand E C Commands message room user time in
  (r = ([], Normal None)
   ∨ exists token target c h,
       command_of C message = Some (token, target)
       ∧ follow Commands token = Some c
       ∧ as_function E (lookup_entry Commands c) = Some h
       ∧ (Commands !! c = Some (Handler h)
          ∨ exists key,
              (Commands !! c = Some (Inherited key) ∨ (Commands !! c = None ∧ key = c))
              ∧ JS.inherited_function key = true ∧ h = builtin E key)
       ∧ let this := ContextMethods.new E (Some target) room user c time in
         let call := Invoke c this (Context.target this) in
         (h this (Context.target this) = Returns ∧ r = ([call], Normal (Some true)))
         ∨ (exists stack,
              h this (Context.target this) = Throws (Thrown stack)
              ∧ r = ([call; Log (ContextMethods.diagnostic E this stack c
                                   (Context.target this))],
                     Normal (Some false)))
         ∨ (h this (Context.target this) = Throws Nullish
            ∧ r = ([call], Abrupt (TypeError "e.stack"))))
  ∧ ((2 <= String.length (commandCharacter C))%nat -> r = ([], Normal None))
  ∧ (commandCharacter C = "" -> JS.trim message ≠ "" -> r = ([], Normal None))
  ∧ (forall target,
       Commands !! "constructor" = None ->
       command_of C message = Some ("constructor", target) ->
       let this := ContextMethods.new E (Some target) room user "constructor" time in
       r = ([Invoke "constructor" this (Context.target this)], Normal (Some true))).
Proof.
  cbv zeta. split; [| split; [| split]].
  - unfold parseCommand.
    destruct (command_of C message) as [[token target] |] eqn:Hm; [| left; reflexivity].
    destruct (follow Commands token) as [c |] eqn:Hf; [| left; reflexivity].
    destruct (as_function E (lookup_entry Commands c)) as [h |] eqn:Hc;
      [| left; reflexivity].
    right. exists token, target, c, h.
    split; [reflexivity |]. split; [exact Hf |]. split; [exact Hc |].
    split; [exact (as_function_origin E Commands c h Hc) |].
    unfold ContextMethods.run.
    change (Context.command (ContextMethods.new E (Some target) room user c time)) with c.
    rewrite (invoke_function E Commands _ c _ h Hc).
    destruct (h _ _) as [| [| stack]].
    + left. split; reflexivity.
    + right. right. split; reflexivity.
    + right. left. exists stack. split; reflexivity.
  - intros Hlen. unfold parseCommand, command_of.
    destruct (String.eqb_spec (JS.charAt (JS.trim message) 0) (commandCharacter C))
      as [Heq | Hne]; [| reflexivity].
    pose proof (charAt_length (JS.trim message) 0) as Hle. rewrite Heq in Hle. lia.
  - intros He Hm. unfold parseCommand, command_of.
    destruct (String.eqb_spec (JS.charAt (JS.trim message) 0) (commandCharacter C))
      as [Heq | Hne]; [| reflexivity].
    exfalso. rewrite He in Heq. unfold JS.charAt in Heq. cbn in Heq.
    destruct (JS.trim message); [congruence | discriminate].
  - intros target Hown Hm. unfold parseCommand. rewrite Hm.
    unfold follow, lookup_entry. rewrite Hown. cbn.
    unfold ContextMethods.run, ContextMethods.invoke, lookup_entry.
    cbn [Context.command ContextMethods.new]. rewrite Hown. reflexivity.
Qed.

(** ** Lines that [parse] ignores *)

Lemma is_type_unknown messageType s :
  (forall ty, messageType = Some ty -> ty ∉ known_types) ->
  s ∈ known_types ->
  is_type messageType s = false.
Proof.
  intros Hun Hs. unfold is_type. apply bool_decide_eq_false. intros ->.
  exact (Hun s eq_refl Hs).
Qed.

(** X4: a line whose type tag is none of the seventeen tags of the
    [switch], or that has no type tag at all, is ignored: [parse] returns
    with the state as it was and nothing done. *)
Theorem unrecognized_lines_are_ignored E C Commands w room message :
  (forall ty, drop 1 (JS.split message "|"%char) !! 0%nat = Some ty -> ty ∉ known_types) ->
  parse E C Commands w message room = done w room [].
Proof.
  intros Hun. unfold parse.
  destruct (vetoed _ _ _ _); [reflexivity |].
  rewrite !(is_type_unknown _ _ Hun)
    by (unfold known_types; repeat first [apply list_elem_of_here | apply list_elem_of_further]).
  reflexivity.
Qed.

Lemma unrecognized_lines_are_ignored_witness :
  parse Session.E Session.C Session.Commands Session.W "|tournament|create|ou" Session.lobby
  = done Session.W Session.lobby []
  ∧ parse Session.E Session.C Session.Commands Session.W "hello" Session.lobby
    = done Session.W Session.lobby [].
Proof.
  split; apply unrecognized_lines_are_ignored; intros ty Hty; vm_compute in Hty.
  - injection Hty as <-. unfold known_types. intros H.
    repeat (apply elem_of_cons in H as [H | H]; [discriminate |]). inversion H.
  - discriminate.
Defined.

(** What [parseCommand] can leave in the trace, and how it can end. *)
Lemma parseCommand_trace E C Commands message room user time :
  let r := parseCommand E C Commands message room user time in
  (forall e, e ∈ r.1 -> (exists c this t, e = Invoke c this t) ∨ exists s, e = Log s)
  ∧ ((exists b, r.2 = Normal b) ∨ r.2 = Abrupt (TypeError "e.stack")).
Proof.
  cbv zeta. unfold parseCommand.
  destruct (command_of C message) as [[token target] |];
    [| split; [intros e H; inversion H | left; eauto]].
  destruct (follow Commands token) as [c |];
    [| split; [intros e H; inversion H | left; eauto]].
  destruct (as_function E (lookup_entry Commands c)) as [h |] eqn:Hc;
    [| split; [intros e H; inversion H | left; eauto]].
  unfold ContextMethods.run.
  change (Context.command (ContextMethods.new E (Some target) room user c time)) with c.
  rewrite (invoke_function E Commands _ c _ h Hc).
  destruct (h _ _) as [| [| stack]]; cbn [fst snd]; (split; [| eauto]); intros e He.
  - apply list_elem_of_singleton in He as ->. left. eauto.
  - apply list_elem_of_singleton in He as ->. left. eauto.
  - apply elem_of_cons in He as [-> | He]; [left; eauto |].
    apply list_elem_of_singleton in He as ->. right. eauto.
Qed.

(** ** Private messages *)

Lemma add_keeps_self_id U name u U' :
  Users.add U name = (Some u, U') ->
  User.id (Users.self U') = User.id (Users.self U).
Proof.
  unfold Users.add. destruct (JS.truthy_str (Tools.toId_opt name)); [| discriminate].
  destruct (Users.users U !! Tools.toId_opt name) eqn:Hl.
  - intros [= _ <-]. reflexivity.
  - intros [= _ <-]. unfold Users.self. cbn.
    destruct (decide (Tools.toId_opt name = Users.selfId U)) as [He | Hne].
    + rewrite He in *. rewrite lookup_insert_eq, Hl. reflexivity.
    + rewrite lookup_insert_ne by exact Hne. reflexivity.
Qed.

Lemma add_keeps_users U name r U' :
  Users.add U name = (r, U') ->
  forall key u, Users.users U !! key = Some u -> Users.users U' !! key = Some u.
Proof.
  unfold Users.add. destruct (JS.truthy_str (Tools.toId_opt name));
    [| intros [= _ <-]; auto].
  destruct (Users.users U !! Tools.toId_opt name) eqn:Hl.
  - intros [= _ <-]. auto.
  - intros [= _ <-] key u Hk. cbn.
    rewrite lookup_insert_ne; [exact Hk | congruence].
Qed.

(** X5: a private message is never moderated.  On a [pm] line [parse]
    leaves the room as it was, keeps every user that was registered,
    moderation records included, and does nothing but call [parseCommand]
    with the sender as room, which can only call a handler and log; a
    private message of the local account to itself does nothing. *)
Theorem pm_is_never_moderated E C Commands w room message fields :
  drop 1 (JS.split message "|"%char) = "pm" :: fields ->
  let r := parse E C Commands w message room in
  room_after r = room
  ∧ (forall e, e ∈ trace r ->
       (exists m u key, e = CallParseCommand m (InPM u) key)
       ∨ (exists c this t, e = Invoke c this t)
       ∨ exists s, e = Log s)
  ∧ (forall key u, Users.users (registry w) !! key = Some u ->
       Users.users (registry (world r)) !! key = Some u)
  ∧ (forall u, (Users.add (registry w) (fields !! 0%nat)).1 = Some u ->
       User.id u = User.id (Users.self (registry w)) -> trace r = []).
Proof.
  intros Hs r. subst r.
  destruct (vetoed C room (Some "pm") fields) eqn:Hv.
  { rewrite (parse_vetoed E C Commands w room message fields "pm" Hs Hv).
    repeat split; auto. intros e H. inversion H. }
  rewrite (parse_pm E C Commands w room message fields Hs Hv).
  unfold pm.
  destruct (Users.add (registry w) (fields !! 0%nat)) as [[u |] U] eqn:Hadd; cbn [fst].
  2: { repeat split; auto; intros ? H; inversion H. }
  pose proof (add_keeps_self_id _ _ _ _ Hadd) as Hself.
  pose proof (add_keeps_users _ _ _ _ Hadd) as Hkeep.
  cbn [registry set_registry] in *. rewrite Hself.
  destruct (String.eqb_spec (User.id u) (User.id (Users.self (registry w)))) as [Heq | Hne].
  { repeat split; auto. intros e H. inversion H. }
  pose proof (parseCommand_trace E C Commands (JS.join "|" (drop 2 fields)) (InPM u) u None)
    as [Htr _].
  destruct (parseCommand E C Commands (JS.join "|" (drop 2 fields)) (InPM u) u None)
    as [tr [b | e]]; cbn [fst] in Htr; cbn [room_after trace world registry].
  - repeat split; auto.
    + intros e [-> | He]%elem_of_cons; [left; eauto | right; exact (Htr e He)].
    + intros u' [= <-] Heq. contradiction.
  - repeat split; auto.
    + intros e' [-> | He]%elem_of_cons; [left; eauto | right; exact (Htr e' He)].
    + intros u' [= <-] Heq. contradiction.
Qed.

Lemma pm_is_never_moderated_witness :
  trace (parse Session.E Session.C Session.Commands Session.W
               "|pm| zed| Bot|.hello ABCDEFGHIJKLMNOPQRSTUVWXYZABCDEFG" Session.lobby)
  ≠ []
  ∧ forall e,
      e ∈ trace (parse Session.E Session.C Session.Commands Session.W
                       "|pm| zed| Bot|.hello ABCDEFGHIJKLMNOPQRSTUVWXYZABCDEFG"
                       Session.lobby) ->
      (exists m u key, e = CallParseCommand m (InPM u) key)
      ∨ (exists c this t, e = Invoke c this t)
      ∨ exists s, e = Log s.
Proof.
  split; [vm_compute; discriminate |].
  exact (proj1 (proj2 (pm_is_never_moderated Session.E Session.C Session.Commands
                         Session.W Session.lobby
                         "|pm| zed| Bot|.hello ABCDEFGHIJKLMNOPQRSTUVWXYZABCDEFG"
                         [" zed"; " Bot"; ".hello ABCDEFGHIJKLMNOPQRSTUVWXYZABCDEFG"]
                         eq_refl))).
Defined.

(** ** Chat lines of other users *)

Section OtherChat.
Context (E : Env) (C : Config) (Commands : gmap string entry)
        (w : World) (room : Room.t).

Lemma self_after_update_other s user user' :
  Users.get (registry w) (Some s) = Some user ->
  User.id user ≠ User.id (Users.self (registry w)) ->
  Users.self (registry (update w (Tools.toId s) user')) = Users.self (registry w).
Proof.
  intros Hget Hid. unfold Users.self, update, set_registry. cbn.
  destruct (decide (Tools.toId s = Users.selfId (registry w))) as [He | Hne].
  - exfalso. apply Hid. unfold Users.self, Users.get in *. cbn in Hget.
    rewrite <- He, Hget. reflexivity.
  - rewrite lookup_insert_ne by exact Hne. reflexivity.
Qed.

(** The speaker is another user: the body goes to [parseCommand], then to
    [moderate] unless the speaker has the rank [+]. *)
Lemma chat_other s user body time :
  Users.get (registry w) (Some s) = Some user ->
  User.id user ≠ User.id (Users.self (registry w)) ->
  chat E C Commands w room (Some s) body time
  = let key := Tools.toId s in
    let speaker := ranked room user s in
    let w' := update w key speaker in
    let message := JS.join "|" body in
    let called := CallParseCommand message (InRoom room) key in
    match parseCommand E C Commands message (InRoom room) speaker (Some time) with
    | (tr, Abrupt e) => mkResult w' room (called :: tr) (Raised e)
    | (tr, Normal _) =>
        if negb (hasRank E speaker (Room.id room) "+") then
          let '(user, out) :=
            moderate E C (Users.self (registry w)) message room speaker time in
          done (update w' key user) room
               (called :: tr ++ CallModerate message (Room.id room) key :: out)
        else done w' room (called :: tr)
    end.
Proof.
  intros Hget Hid. unfold chat. rewrite Hget. cbv zeta.
  rewrite (self_after_update_other s user _ Hget Hid).
  rewrite ranked_id.
  destruct (String.eqb_spec (User.id user) (User.id (Users.self (registry w))));
    [contradiction | reflexivity].
Qed.

End OtherChat.

Lemma moderate_says E C self message room user time :
  forall e, e ∈ (moderate E C self message room user time).2 ->
            exists text, e = Say (Room.id room) text.
Proof.
  unfold moderate.
  destruct (negb (gate E C self room)); [intros e H; inversion H |].
  destruct (punishmentPoints C) as [pts |]; [| intros e H; inversion H].
  destruct (punishmentActions C) as [acts |]; [| intros e H; inversion H].
  cbv zeta. destruct (cooldown _ _); [intros e H; inversion H |].
  destruct (js_sort _ _) as [| p rest]; [intros e H; inversion H |].
  match goal with |- context [apply ?E ?C ?s ?p ?a ?r ?u ?t ?d ?q] =>
    pose proof (apply_spec E C s r p a u t d q) as ([text Ho] & _ & _);
    destruct (apply E C s p a r u t d q) as [d' out] end.
  cbn [fst snd] in *. subst out. intros e He%list_elem_of_singleton. eauto.
Qed.

(** X6: on a chat line of a registered user other than the local account,
    [parse] first calls [parseCommand] with the whole body; [moderate] is
    called exactly when the speaker lacks the rank [+] and the command did
    not raise, so a line that is a command is moderated as well; the only
    error that can leave [parse] is the one of a handler that threw [null];
    the room's user map is not written. *)
Theorem chat_moderation_condition E C Commands w room message ty fields s body time user :
  drop 1 (JS.split message "|"%char) = ty :: fields ->
  vetoed C room (Some ty) fields = false ->
  (ty = "c" ∧ fields !! 0%nat = Some s ∧ body = drop 1 fields ∧ time = JS.Num (now E))
  ∨ (ty = "c:" ∧ fields !! 1%nat = Some s ∧ body = drop 2 fields
     ∧ time = JS.mul (JS.parseInt_opt (fields !! 0%nat)) (JS.Num 1000)) ->
  Users.get (registry w) (Some s) = Some user ->
  User.id user ≠ User.id (Users.self (registry w)) ->
  let r := parse E C Commands w message room in
  let text := JS.join "|" body in
  (exists rest, trace r = CallParseCommand text (InRoom room) (Tools.toId s) :: rest)
  ∧ (CallModerate text (Room.id room) (Tools.toId s) ∈ trace r
     <-> hasRank E (ranked room user s) (Room.id room) "+" = false
         ∧ status_of r = Returned)
  ∧ (forall m rm u, CallModerate m rm u ∈ trace r ->
       hasRank E (ranked room user s) (Room.id room) "+" = false)
  ∧ (status_of r = Returned ∨ status_of r = Raised (TypeError "e.stack"))
  ∧ room_after r = room.
Proof.
  intros Hs Hv Hty Hget Hid r text. subst r.
  assert (Hparse : parse E C Commands w message room
                   = chat E C Commands w room (Some s) body time).
  { destruct Hty as [(-> & Hw & -> & ->) | (-> & Hw & -> & ->)].
    - rewrite (parse_c E C Commands w room message fields Hs Hv), Hw. reflexivity.
    - rewrite (parse_c_colon E C Commands w room message fields Hs Hv), Hw. reflexivity. }
  rewrite Hparse, (chat_other E C Commands w room s user body time Hget Hid). cbv zeta.
  fold text.
  pose proof (parseCommand_trace E C Commands text (InRoom room) (ranked room user s)
                (Some time)) as [Htr Hst].
  destruct (parseCommand E C Commands text (InRoom room) (ranked room user s) (Some time))
    as [tr res]. cbn [fst snd] in Htr, Hst.
  assert (Hno : forall m rm u, CallModerate m rm u ∉ tr).
  { intros m rm u Hin. destruct (Htr _ Hin) as [(? & ? & ? & ?) | [? ?]]; discriminate. }
  destruct res as [b | e].
  - destruct (hasRank E (ranked room user s) (Room.id room) "+") eqn:Hr; cbn [negb].
    + cbn [trace status_of room_after done].
      split; [eauto |]. split; [| split; [| split; [left; reflexivity | reflexivity]]].
      * split; [| intros [? _]; discriminate].
        intros [Hin | Hin]%elem_of_cons; [discriminate | destruct (Hno _ _ _ Hin)].
      * intros m rm u [Hin | Hin]%elem_of_cons; [discriminate | destruct (Hno _ _ _ Hin)].
    + destruct (moderate E C (Users.self (registry w)) text room
                         (ranked room user s) time) as [u' out].
      cbn [trace status_of room_after done].
      split; [eauto |]. split; [| split; [| split; [left; reflexivity | reflexivity]]].
      * split; [intros _; split; reflexivity |]. intros _.
        apply list_elem_of_further, elem_of_app. right. apply list_elem_of_here.
      * reflexivity.
  - cbn [trace status_of room_after].
    split; [eauto |]. split; [| split; [| split; [| reflexivity]]].
    + split; [| intros [_ ?]; discriminate].
      intros [Hin | Hin]%elem_of_cons; [discriminate | destruct (Hno _ _ _ Hin)].
    + intros m rm u [Hin | Hin]%elem_of_cons; [discriminate | destruct (Hno _ _ _ Hin)].
    + destruct Hst as [[b Hb] | Hb]; [discriminate |]. injection Hb as ->. right. reflexivity.
Qed.

Lemma chat_moderation_condition_witness :
  CallModerate ".hello there" "lobby" "alice"
  ∈ trace (parse Session.E Session.C Session.Commands Session.W
                 "|c| alice|.hello there" Session.lobby).
Proof.
  apply (proj2 (proj1 (proj2 (chat_moderation_condition Session.E Session.C
           Session.Commands Session.W Session.lobby "|c| alice|.hello there" "c"
           [" alice"; ".hello there"] " alice" [".hello there"] (JS.Num 1000)
           Session.alice eq_refl eq_refl
           (or_introl (conj eq_refl (conj eq_refl (conj eq_refl eq_refl))))
           eq_refl ltac:(discriminate))))).
  split; reflexivity.
Defined.

Lemma ranked_record room user s : record_of (ranked room user s) room = record_of user room.
Proof. unfold ranked. case_bool_decide; reflexivity. Qed.

(** X7: a chat line that is moderated lengthens the speaker's history in
    the registry: when the speaker lacks the rank [+], moderation is
    enabled and the command did not raise, the registry's user has, after
    [parse], the normalized body and the time of the line in front of the
    messages recorded before. *)
Theorem moderated_chat_is_recorded E C Commands w room message ty fields s body time user
    pts acts :
  drop 1 (JS.split message "|"%char) = ty :: fields ->
  vetoed C room (Some ty) fields = false ->
  (ty = "c" ∧ fields !! 0%nat = Some s ∧ body = drop 1 fields ∧ time = JS.Num (now E))
  ∨ (ty = "c:" ∧ fields !! 1%nat = Some s ∧ body = drop 2 fields
     ∧ time = JS.mul (JS.parseInt_opt (fields !! 0%nat)) (JS.Num 1000)) ->
  Users.get (registry w) (Some s) = Some user ->
  User.id user ≠ User.id (Users.self (registry w)) ->
  hasRank E (ranked room user s) (Room.id room) "+" = false ->
  gate E C (Users.self (registry w)) room = true ->
  punishmentPoints C = Some pts ->
  punishmentActions C = Some acts ->
  let r := parse E C Commands w message room in
  status_of r = Returned ->
  exists speaker,
    Users.get (registry (world r)) (Some s) = Some speaker
    ∧ Record.messages (record_of speaker room)
      = (normalize (JS.join "|" body), time) :: Record.messages (record_of user room).
Proof.
  intros Hs Hv Hty Hget Hid Hrank Hgate Hpts Hacts r. subst r.
  assert (Hparse : parse E C Commands w message room
                   = chat E C Commands w room (Some s) body time).
  { destruct Hty as [(-> & Hw & -> & ->) | (-> & Hw & -> & ->)].
    - rewrite (parse_c E C Commands w room message fields Hs Hv), Hw. reflexivity.
    - rewrite (parse_c_colon E C Commands w room message fields Hs Hv), Hw. reflexivity. }
  rewrite Hparse, (chat_other E C Commands w room s user body time Hget Hid). cbv zeta.
  destruct (parseCommand _ _ _ _ _ _ _) as [tr [b | e]]; [| discriminate].
  rewrite Hrank. cbn [negb].
  pose proof (moderate_records E C (Users.self (registry w)) room pts acts Hgate Hpts Hacts
                (ranked room user s) (JS.join "|" body) time) as Hrec.
  destruct (moderate E C (Users.self (registry w)) (JS.join "|" body) room
                     (ranked room user s) time) as [u' out].
  cbn [fst] in Hrec. intros _. exists u'. split.
  - unfold Users.get, update, set_registry. cbn. apply lookup_insert_eq.
  - rewrite Hrec, ranked_record. reflexivity.
Qed.

Lemma moderated_chat_is_recorded_witness :
  exists speaker,
    Users.get (registry (world (parse Session.E Session.C Session.Commands Session.W
                                      "|c:|17|+alice| hi  there|you " Session.lobby)))
              (Some "+alice") = Some speaker
    ∧ Record.messages (record_of speaker Session.lobby)
      = [("hithere|you", JS.Num 17000)].
Proof.
  exact (moderated_chat_is_recorded Session.E Session.C Session.Commands Session.W
           Session.lobby "|c:|17|+alice| hi  there|you " "c:"
           ["17"; "+alice"; " hi  there"; "you "] "+alice" [" hi  there"; "you "]
           (JS.Num 17000) Session.alice
           (<["verbalwarn" := 1]> (<["mute" := 2]> ∅)) ∅
           eq_refl eq_refl
           (or_intror (conj eq_refl (conj eq_refl (conj eq_refl eq_refl))))
           eq_refl ltac:(discriminate) eq_refl eq_refl eq_refl eq_refl eq_refl).
Defined.

(** ** What a moderation evaluation touches *)

(** X8: [moderate] writes nothing but the record of its user for its room:
    the user's name, id, ranks and records for other rooms stay as they
    were; all it does to the outside is at most one [room.say] in that
    room; and with a gate closed or a table missing it does nothing at
    all, not even recording the message. *)
Theorem moderate_touches_one_record E C self message room user time :
  let r := moderate E C self message room user time in
  User.name r.1 = User.name user
  ∧ User.id r.1 = User.id user
  ∧ User.rooms r.1 = User.rooms user
  ∧ (forall other, other ≠ Room.id room ->
       User.roomData r.1 !! other = User.roomData user !! other)
  ∧ (forall e, e ∈ r.2 -> exists text, e = Say (Room.id room) text)
  ∧ (length r.2 <= 1)%nat
  ∧ (gate E C self room = false ∨ punishmentPoints C = None ∨ punishmentActions C = None ->
     r = (user, [])).
Proof.
  cbv zeta.
  assert (Hclosed :
    gate E C self room = false ∨ punishmentPoints C = None ∨ punishmentActions C = None ->
    moderate E C self message room user time = (user, [])).
  { unfold moderate. intros [-> | [-> | Ha]]; [reflexivity | |].
    - destruct (negb _); reflexivity.
    - destruct (negb _); [reflexivity |]. rewrite Ha.
      destruct (punishmentPoints C); reflexivity. }
  destruct (gate E C self room) eqn:Hgate;
    [| rewrite Hclosed by auto; cbn; repeat split; auto; intros e H; inversion H].
  destruct (punishmentPoints C) as [pts |] eqn:Hpts;
    [| rewrite Hclosed by auto; cbn; repeat split; auto; intros e H; inversion H].
  destruct (punishmentActions C) as [acts |] eqn:Hacts;
    [| rewrite Hclosed by auto; cbn; repeat split; auto; intros e H; inversion H].
  split; [| split; [| split; [| split; [| split; [| split]]]]].
  5: apply moderate_says.
  5: apply (moderate_at_most_one E C self room pts acts Hgate Hpts Hacts).
  5: intros [H | [H | H]]; discriminate.
  all: rewrite (moderate_eq E C self room pts acts Hgate Hpts Hacts); cbv zeta;
    destruct (cooldown _ _);
    [| destruct (js_sort _ _) as [| p rest];
       [| destruct (apply _ _ _ _ _ _ _ _ _ _) as [d out]]];
    cbn; try reflexivity;
    intros other Hne; rewrite ?lookup_insert_ne by congruence; reflexivity.
Qed.

(** ** The choice among the candidates *)

Lemma by_points_severity pts a b :
  is_Some (pts !! action a) -> is_Some (pts !! action b) ->
  by_points pts a b = severity pts b - severity pts a.
Proof.
  intros [qa Ha] [qb Hb]. unfold by_points, points_of, severity. rewrite Ha, Hb. reflexivity.
Qed.

(** X9: sorting loses no candidate, and when every candidate's action has
    configured points the candidate chosen is the first one, in the order
    the rules were evaluated, among those with the highest points. *)
Theorem chosen_punishment_is_most_severe pts found :
  js_sort (by_points pts) found ≡ₚ found
  ∧ (found ≠ [] -> js_sort (by_points pts) found ≠ [])
  ∧ ((forall c, c ∈ found -> is_Some (pts !! action c)) ->
     forall p rest, js_sort (by_points pts) found = p :: rest ->
     exists earlier later,
       found = (earlier ++ p :: later)%list
       ∧ (forall c, c ∈ earlier -> severity pts c < severity pts p)
       ∧ (forall c, c ∈ found -> severity pts c <= severity pts p)).
Proof.
  split; [apply js_sort_perm |]. split; [apply js_sort_nonempty |].
  induction found as [| x found IH]; intros Hcfg p rest Hsort; [discriminate |].
  cbn [js_sort foldr] in Hsort. fold (js_sort (by_points pts) found) in Hsort.
  destruct (js_sort (by_points pts) found) as [| p' rest'] eqn:Hs.
  - assert (found = []) as ->.
    { destruct found; [reflexivity |]. exfalso.
      apply (js_sort_nonempty (by_points pts) (p0 :: found)); [discriminate | exact Hs]. }
    cbn in Hsort. injection Hsort as <- <-.
    exists [], []. split; [reflexivity |]. split; [intros c H; inversion H |].
    intros c ->%list_elem_of_singleton. lia.
  - destruct (IH (fun c H => Hcfg c (list_elem_of_further _ _ _ H)) p' rest' eq_refl)
      as (earlier & later & Hf & Hlt & Hle).
    assert (Hp' : p' ∈ found).
    { rewrite Hf. apply elem_of_app. right. apply list_elem_of_here. }
    cbn [sort_insert] in Hsort.
    rewrite (by_points_severity pts x p') in Hsort
      by (apply Hcfg; first [apply list_elem_of_here | apply list_elem_of_further, Hp']).
    destruct (Z.ltb_spec 0 (severity pts p' - severity pts x)) as [Hgt | Hge].
    + injection Hsort as <- _. exists (x :: earlier), later.
      split; [rewrite Hf; reflexivity |]. split.
      * intros c [-> | Hc]%elem_of_cons; [lia | apply Hlt, Hc].
      * intros c [-> | Hc]%elem_of_cons; [lia | apply Hle, Hc].
    + injection Hsort as <- _. exists [], found.
      split; [reflexivity |]. split; [intros c H; inversion H |].
      intros c [-> | Hc]%elem_of_cons; [lia |].
      specialize (Hle c Hc). lia.
Qed.

(** ** Points *)





(** ** Short messages *)

Lemma length_str l : String.length (JS.str l) = length l.
Proof. unfold JS.str. induction l; cbn; [reflexivity | f_equal; assumption]. Qed.

Lemma length_chars s : length (JS.chars s) = String.length s.
Proof. rewrite <- (str_chars s) at 2. symmetry. apply length_str. Qed.

Lemma is_prefix_length p l : JS.is_prefix p l = true -> (length p <= length l)%nat.
Proof.
  revert l. induction p as [| a p IH]; intros [| b l]; cbn; try lia; try discriminate.
  intros [_ H]%andb_prop. specialize (IH l H). lia.
Qed.

Lemma repeats_length fuel p l : (Regex.repeats fuel p l * length p <= length l)%nat.
Proof.
  revert l. induction fuel as [| fuel IH]; intros l; cbn; [lia |].
  destruct (JS.is_prefix p l) eqn:Hp; [| cbn; lia].
  apply is_prefix_length in Hp. specialize (IH (drop (length p) l)).
  rewrite length_drop in IH. cbn. lia.
Qed.

Lemma stretch_at_length k l n : Regex.stretch_at k l = Some n -> (n <= length l)%nat.
Proof.
  induction k as [| k IH]; cbn [Regex.stretch_at]; [discriminate |].
  destruct (_ && _ && _) eqn:Hc; [| exact IH].
  intros [= <-].
  apply andb_prop in Hc as [[Hlen _]%andb_prop _]. apply Nat.eqb_eq in Hlen.
  pose proof (repeats_length (length l) (take (S k) l) (drop (S k) l)) as Hr.
  rewrite Hlen, length_drop in Hr. rewrite length_take in Hlen. nia.
Qed.

Lemma stretch_matches_length fuel : forall l m,
  m ∈ Regex.stretch_matches fuel l -> (String.length m <= length l)%nat.
Proof.
  induction fuel as [| fuel IH]; intros l m; cbn [Regex.stretch_matches];
    [intros H; inversion H |].
  destruct l as [| c l']; [intros H; inversion H |].
  destruct (Regex.stretch_at (length (c :: l')) (c :: l')) as [n |] eqn:Hat.
  - intros [-> | Hin]%elem_of_cons.
    + rewrite length_str, length_take. lia.
    + specialize (IH _ _ Hin). rewrite length_drop in IH. lia.
  - intros Hin. specialize (IH _ _ Hin). cbn. lia.
Qed.

Lemma normalize_length message : (String.length (normalize message) <= String.length message)%nat.
Proof.
  unfold normalize, Regex.strip_null, Regex.strip_whitespace, JS.trim.
  rewrite !length_str, !chars_str.
  etransitivity; [apply length_filter |]. etransitivity; [apply length_filter |].
  rewrite length_rev.
  destruct (drop_ws_suffix (rev (JS.drop_ws (JS.chars message)))) as [p Hp].
  apply (f_equal (@length ascii)) in Hp. rewrite length_app, length_rev in Hp.
  destruct (drop_ws_suffix (JS.chars message)) as [p' Hp'].
  apply (f_equal (@length ascii)) in Hp'. rewrite length_app, length_chars in Hp'. lia.
Qed.

(** X11: the two rules on the content of a message cannot fire on a short
    one: a message of fewer than 20 characters is never taken for
    stretching, and one of fewer than 30 characters never for caps,
    whatever it holds. *)
Theorem short_messages_fire_no_content_rule message :
  ((String.length message < 20)%nat -> stretching (normalize message) = false)
  ∧ ((String.length message < 30)%nat -> shouting (normalize message) = false).
Proof.
  pose proof (normalize_length message) as Hn. split; intros Hlen.
  - unfold stretching.
    destruct (js_sort _ (Regex.stretches (normalize message))) as [| longest rest] eqn:Hs;
      [reflexivity |].
    assert (Hin : longest ∈ Regex.stretches (normalize message)).
    { rewrite <- (js_sort_perm (fun a b => JS.len b - JS.len a)), Hs.
      apply list_elem_of_here. }
    apply stretch_matches_length in Hin. rewrite length_chars in Hin.
    unfold STRETCHING_MINIMUM, JS.len. apply Z.leb_gt. lia.
  - unfold shouting, Regex.caps, CAPS_MINIMUM. apply Z.leb_gt.
    pose proof (length_filter (fun c => Regex.is_cap c = true) (JS.chars (normalize message))) as Hf.
    rewrite length_chars in Hf. lia.
Qed.

(** ** Stretching *)

Lemma js_sort_head_max {A} (key : A -> Z) l p rest :
  js_sort (fun a b => key b - key a) l = p :: rest ->
  forall c, c ∈ l -> key c <= key p.
Proof.
  revert p rest. induction l as [| x l IH]; intros p rest Hsort c Hc; [inversion Hc |].
  cbn [js_sort foldr] in Hsort. fold (js_sort (fun a b => key b - key a) l) in Hsort.
  destruct (js_sort (fun a b => key b - key a) l) as [| p' rest'] eqn:Hs.
  - assert (l = []) as ->.
    { destruct l; [reflexivity |]. exfalso.
      apply (js_sort_nonempty (fun a b => key b - key a) (a :: l)); [discriminate | exact Hs]. }
    cbn in Hsort. injection Hsort as <- <-.
    apply list_elem_of_singleton in Hc as ->. lia.
  - specialize (IH p' rest' eq_refl). cbn [sort_insert] in Hsort.
    destruct (Z.ltb_spec 0 (key p' - key x)); injection Hsort as <- _;
      apply elem_of_cons in Hc as [-> | Hc]; try lia; specialize (IH c Hc); lia.
Qed.

Lemma is_prefix_app p l : JS.is_prefix p (p ++ l)%list = true.
Proof.
  induction p as [| a p IH]; cbn; [reflexivity |]. rewrite Ascii.eqb_refl. exact IH.
Qed.

(** The match at the head is at least as long as twice any block that is
    repeated there. *)
Lemma stretch_at_repeated k p rest :
  p ≠ [] ->
  forallb (fun c => negb (JS.is_line_terminator c)) p = true ->
  (length p <= k)%nat ->
  exists n, Regex.stretch_at k (p ++ p ++ rest)%list = Some n ∧ (2 * length p <= n)%nat.
Proof.
  intros Hne Hlt. induction k as [| k IH]; intros Hk.
  - destruct p; [congruence | cbn in Hk; lia].
  - cbn [Regex.stretch_at].
    destruct (_ && _ && _) eqn:Hc.
    + eexists. split; [reflexivity |].
      apply andb_prop in Hc as [[Hlen _]%andb_prop Hpre].
      apply Nat.eqb_eq in Hlen.
      destruct (length (p ++ p ++ rest)%list) as [| fuel] eqn:Hl.
      { rewrite length_app in Hl. destruct p; [congruence | cbn in Hl; lia]. }
      cbn [Regex.repeats]. rewrite Hpre. lia.
    + destruct (Nat.eq_dec (length p) (S k)) as [He | Hn].
      * exfalso. rewrite <- He in Hc.
        rewrite take_app_length, drop_app_length, is_prefix_app, Nat.eqb_refl, Hlt in Hc.
        discriminate.
      * apply IH. lia.
Qed.

(** X12: a message, taken after normalization, that begins with a block
    of at least 10 characters immediately followed by the same block is
    taken for stretching: the two copies alone make a run of 20. *)
Theorem repeated_block_is_stretching p rest :
  (10 <= length p)%nat ->
  forallb (fun c => negb (JS.is_line_terminator c)) p = true ->
  stretching (JS.str (p ++ p ++ rest)%list) = true.
Proof.
  intros Hlen Hlt. unfold stretching, Regex.stretches.
  rewrite chars_str, length_str.
  assert (Hne : p ≠ []) by (destruct p; [cbn in Hlen; lia | discriminate]).
  destruct (stretch_at_repeated (length (p ++ p ++ rest)%list) p rest Hne Hlt)
    as (n & Hn & Hle); [rewrite length_app; lia |].
  cbn [Regex.stretch_matches].
  destruct (p ++ p ++ rest)%list as [| c l'] eqn:Hl.
  { destruct p; [congruence | discriminate]. }
  rewrite Hn.
  set (first := JS.str (take n (c :: l'))).
  set (others := Regex.stretch_matches _ _).
  destruct (js_sort (fun a b => JS.len b - JS.len a) (first :: others))
    as [| longest tl] eqn:Hs.
  { exfalso.
    apply (js_sort_nonempty (fun a b => JS.len b - JS.len a) (first :: others));
      [discriminate | exact Hs]. }
  pose proof (js_sort_head_max JS.len _ _ _ Hs first (list_elem_of_here _ _)) as Hmax.
  unfold STRETCHING_MINIMUM. apply Z.leb_le.
  assert (Hf : (n <= length (c :: l'))%nat) by (apply stretch_at_length in Hn; exact Hn).
  unfold JS.len in *. subst first. rewrite length_str, length_take in Hmax. lia.
Qed.

Lemma repeated_block_is_stretching_witness :
  stretching "hahahahahahahahahaha!" = true.
Proof.
  exact (repeated_block_is_stretching (JS.chars "hahahahaha") (JS.chars "!")
           ltac:(vm_compute; lia) eq_refl).
Defined.

(** ** The history of a record *)

(** X13: the history of a record only grows: after any series of
    evaluations that pass the gates, the record holds the normalized
    messages of the series, newest first, in front of what it held before,
    so its length has grown by the number of evaluations; nothing is ever
    removed. *)
Theorem history_is_append_only E C self room pts acts user calls :
  gate E C self room = true ->
  punishmentPoints C = Some pts ->
  punishmentActions C = Some acts ->
  let after := (moderate_all E C self room user calls).1 in
  Record.messages (record_of after room)
  = (rev (map (fun c => (normalize c.1, c.2)) calls)
     ++ Record.messages (record_of user room))%list
  ∧ length (Record.messages (record_of after room))
    = (length calls + length (Record.messages (record_of user room)))%nat.
Proof.
  intros Hgate Hpts Hacts after. subst after.
  assert (H : Record.messages
                (record_of (moderate_all E C self room user calls).1 room)
              = (rev (map (fun c => (normalize c.1, c.2)) calls)
                 ++ Record.messages (record_of user room))%list).
  { revert user. induction calls as [| [m t] calls IH]; intros user; [reflexivity |].
    cbn [moderate_all].
    pose proof (moderate_records E C self room pts acts Hgate Hpts Hacts user m t) as Hr.
    destruct (moderate E C self m room user t) as [u out]. cbn [fst] in Hr.
    specialize (IH u).
    destruct (moderate_all E C self room u calls) as [u' outs]. cbn [fst] in *.
    rewrite IH, Hr. cbn [map rev fst snd]. rewrite <- app_assoc. reflexivity. }
  split; [exact H |].
  rewrite H, length_app, length_rev, length_map. reflexivity.
Qed.

Lemma history_is_append_only_witness :
  Record.messages
    (record_of (moderate_all Session.E Session.C Session.bot Session.lobby Session.alice
                  [(" a b ", JS.Num 1000); ("c", JS.NaN)]).1 Session.lobby)
  = [("c", JS.NaN); ("ab", JS.Num 1000)].
Proof.
  exact (proj1 (history_is_append_only Session.E Session.C Session.bot Session.lobby
                  (<["verbalwarn" := 1]> (<["mute" := 2]> ∅)) ∅ Session.alice
                  [(" a b ", JS.Num 1000); ("c", JS.NaN)] eq_refl eq_refl eq_refl)).
Defined.

(** ** The format catalog *)

Lemma descriptor_entry raw section f :
  descriptor raw section = Some f ->
  Format.section f = section
  ∧ Format.id f = Tools.toId (Format.name f)
  ∧ Format.id f ≠ "".
Proof.
  unfold descriptor. cbv zeta.
  destruct (if 0 <=? JS.lastIndexOf raw ","%char then _ else JS.NaN) as [| code | s];
    repeat match goal with |- context [if String.eqb ?a ?b then _ else _] =>
             destruct (String.eqb a b) end;
    cbv beta iota;
    match goal with |- context [JS.truthy_str (Tools.toId ?x)] =>
      destruct (Tools.toId x) eqn:Hid end;
    cbn [JS.truthy_str]; try discriminate;
    intros [= <-]; cbn [Format.id Format.name Format.section]; rewrite Hid;
    repeat split; discriminate.
Qed.

Lemma parseFormats_loop_entries L l : forall isSection section data,
  (forall x, x ∈ l -> x ∈ L) ->
  section = "" ∨ section ∈ L ->
  (forall key f, data !! key = Some f -> entry_of L key f) ->
  forall key f,
    parseFormats_loop l isSection section data !! key = Some f -> entry_of L key f.
Proof.
  induction l as [| x l IH]; intros isSection section data Hl Hsec Hdata key f;
    cbn [parseFormats_loop]; [apply Hdata |].
  assert (Hl' : forall y, y ∈ l -> y ∈ L)
    by (intros y Hy; apply Hl, list_elem_of_further, Hy).
  assert (Hx : x ∈ L) by apply Hl, list_elem_of_here.
  destruct isSection; [apply IH; auto |].
  destruct (String.eqb x ",LL"); [apply IH; auto |].
  destruct (is_header x); [apply IH; auto |].
  destruct (descriptor x section) as [g |] eqn:Hg; [| apply IH; auto].
  apply IH; auto.
  intros k h. destruct (decide (Format.id g = k)) as [<- | Hne].
  - rewrite lookup_insert_eq. intros [= <-].
    destruct (descriptor_entry x section g Hg) as (Hs & Hi & Hn).
    unfold entry_of. rewrite Hs. repeat split; auto. exists x. split; [exact Hx | exact Hg].
  - rewrite lookup_insert_ne by exact Hne. apply Hdata.
Qed.

(** X14: [parseFormats] leaves the catalog alone and the cache uncleared
    on an empty list, and otherwise builds a new catalog from the list
    alone, whatever the old one held, and clears the cache once.  Every
    entry of the new catalog is stored under its own id, which is not
    empty and is the normalized name; its section is the empty string or
    an element of the list; and it is the entry of one of the list's
    descriptors. *)
Theorem parseFormats_entries_wellformed old :
  parseFormats [] old = (old, [])
  ∧ forall x l,
      let r := parseFormats (x :: l) old in
      r = parseFormats (x :: l) ∅
      ∧ r.2 = [FormatCacheClear]
      ∧ forall key f, r.1 !! key = Some f -> entry_of (x :: l) key f.
Proof.
  split; [reflexivity |]. intros x l r. subst r. cbn [parseFormats fst snd].
  split; [reflexivity |]. split; [reflexivity |].
  apply parseFormats_loop_entries; auto.
  intros key f H. rewrite lookup_empty in H. discriminate.
Qed.

Lemma land_pow2 c n :
  0 <= n -> negb (Z.land c (2 ^ n) =? 0) = Z.testbit c n.
Proof.
  intros Hn. destruct (Z.testbit c n) eqn:Hb.
  - assert (H : Z.land c (2 ^ n) = 2 ^ n).
    { apply Z.bits_inj'. intros m Hm. rewrite Z.land_spec, Z.pow2_bits_eqb by exact Hn.
      destruct (Z.eqb_spec n m) as [<- | Hne]; [rewrite Hb; reflexivity | apply andb_false_r]. }
    rewrite H. destruct (Z.eqb_spec (2 ^ n) 0) as [He | _]; [| reflexivity].
    pose proof (Z.pow_pos_nonneg 2 n ltac:(lia) Hn). lia.
  - assert (H : Z.land c (2 ^ n) = 0).
    { apply Z.bits_inj'. intros m Hm.
      rewrite Z.land_spec, Z.pow2_bits_eqb, Z.bits_0 by exact Hn.
      destruct (Z.eqb_spec n m) as [<- | Hne]; [rewrite Hb; reflexivity | apply andb_false_r]. }
    rewrite H. reflexivity.
Qed.

(** X15: the visibility of a format.  When the text after the last comma
    of a descriptor reads as a hexadecimal number, the name is what comes
    before that comma and the search, challenge and tournament flags are
    bits 1, 2 and 3 of the double that [parseInt] yields, which is the
    integer read rounded to 53 significant bits: from 2^56 on the three
    flags are off whatever the last digit, and so they are when the
    number reads as an infinity.  Otherwise the legacy suffixes apply: the
    tournament flag is set and at most one of the other two flags is
    cleared. *)
Theorem descriptor_flags raw section f :
  descriptor raw section = Some f ->
  let i := JS.lastIndexOf raw ","%char in
  let code := if 0 <=? i then JS.parseInt (JS.substr_from raw (i + 1)) (Some 16)
              else JS.NaN in
  match code with
  | JS.Num code =>
      Format.name f = JS.substr raw 0 i
      ∧ Format.searchShow f = Z.testbit code 1
      ∧ Format.challengeShow f = Z.testbit code 2
      ∧ Format.tournamentShow f = Z.testbit code 3
  | JS.Inf _ =>
      Format.name f = JS.substr raw 0 i
      ∧ Format.searchShow f = false
      ∧ Format.challengeShow f = false
      ∧ Format.tournamentShow f = false
  | JS.NaN =>
      Format.tournamentShow f = true
      ∧ (Format.searchShow f = true ∨ Format.challengeShow f = true)
  end
  ∧ (forall z, code = JS.double z -> 2 ^ 56 <= Z.abs z ->
       Format.searchShow f = false
       ∧ Format.challengeShow f = false
       ∧ Format.tournamentShow f = false).
Proof.
  intros Hd i code.
  assert (Hcases :
    match code with
    | JS.Num code =>
        Format.name f = JS.substr raw 0 i
        ∧ Format.searchShow f = Z.testbit code 1
        ∧ Format.challengeShow f = Z.testbit code 2
        ∧ Format.tournamentShow f = Z.testbit code 3
    | JS.Inf _ =>
        Format.name f = JS.substr raw 0 i
        ∧ Format.searchShow f = false
        ∧ Format.challengeShow f = false
        ∧ Format.tournamentShow f = false
    | JS.NaN =>
        Format.tournamentShow f = true
        ∧ (Format.searchShow f = true ∨ Format.challengeShow f = true)
    end).
  { revert Hd. unfold descriptor. cbv zeta. fold i. fold code.
    destruct code as [| c | s].
    - repeat match goal with |- context [if String.eqb ?a ?b then _ else _] =>
               destruct (String.eqb a b) end;
        match goal with |- context [JS.truthy_str ?x] => destruct (JS.truthy_str x) end;
        intros [= <-]; cbn; auto.
    - match goal with |- context [JS.truthy_str ?x] => destruct (JS.truthy_str x) end;
        intros [= <-]; cbn.
      change 2 with (2 ^ 1). change 4 with (2 ^ 2). change 8 with (2 ^ 3).
      rewrite !land_pow2 by lia. auto.
    - match goal with |- context [JS.truthy_str ?x] => destruct (JS.truthy_str x) end;
        intros [= <-]; cbn; auto. }
  split; [exact Hcases |].
  intros z Hz Hbig. rewrite Hz in Hcases.
  destruct (double_low_bits z 3 ltac:(lia) Hbig) as [Hinf | [m Hm]].
  - rewrite Hinf in Hcases. tauto.
  - rewrite Hm in Hcases. destruct Hcases as (_ & -> & -> & ->).
    rewrite !Z.mul_pow2_bits_low by lia. auto.
Qed.

Lemma descriptor_flags_witness :
  descriptor "[Gen 7] Random Battle,f" "Randoms"
  = Some (Format.mk "[Gen 7] Random Battle" "gen7randombattle" "Randoms" true true true)
  ∧ Format.searchShow
      (Format.mk "[Gen 7] Random Battle" "gen7randombattle" "Randoms" true true true)
    = Z.testbit 15 1
  ∧ descriptor "Abc,20000000000000e" "" = Some (Format.mk "Abc" "abc" "" false false false).
Proof.
  split; [vm_compute; reflexivity |]. split; [| vm_compute; reflexivity].
  exact (proj1 (proj2 (proj1 (descriptor_flags "[Gen 7] Random Battle,f" "Randoms"
           (Format.mk "[Gen 7] Random Battle" "gen7randombattle" "Randoms" true true true)
           eq_refl)))).
Defined.

(** ** Membership snapshots *)

Lemma snapshot_cons_ok w room x l :
  JS.truthy_str (entry_key x) = true ->
  snapshot w room (x :: l)
  = snapshot (snapshot_step (w, room) x).1 (snapshot_step (w, room) x).2 l.
Proof.
  intros Hok. cbn [snapshot]. unfold Users.add. cbn [Tools.toId_opt].
  fold (entry_key x). rewrite Hok.
  unfold snapshot_step, write_rank. cbn [fst snd].
  destruct (Users.users (registry w) !! entry_key x) as [u |] eqn:Hu; cbn [default].
  - destruct w as [[us sid] a b c d e]. reflexivity.
  - unfold update, set_registry. cbn. rewrite insert_insert_eq.
    reflexivity.
Qed.

Lemma snapshot_fold l : forall w room,
  snapshot w room l
  = (stamp (foldl snapshot_step (w, room) (named_prefix l)) (first_unnamed l),
     if forallb (fun x => JS.truthy_str (entry_key x)) l then Returned
     else Raised (TypeError "user.rooms")).
Proof.
  induction l as [| x l IH]; intros w room; [reflexivity |].
  cbn [named_prefix forallb first_unnamed].
  destruct (JS.truthy_str (entry_key x)) eqn:Hok.
  - rewrite (snapshot_cons_ok w room x l Hok), IH. cbn [foldl andb].
    destruct (snapshot_step (w, room) x). reflexivity.
  - cbn [snapshot]. unfold Users.add. cbn [Tools.toId_opt].
    fold (entry_key x). rewrite Hok. reflexivity.
Qed.

Lemma first_unnamed_all l :
  forallb (fun x => JS.truthy_str (entry_key x)) l = true -> first_unnamed l = None.
Proof.
  induction l as [| x l IH]; [reflexivity |]. cbn [forallb first_unnamed].
  intros [Hx Hl]%andb_true_iff. rewrite Hx. exact (IH Hl).
Qed.

Lemma step_stamp S o x : snapshot_step (stamp S o) x = stamp (snapshot_step S x) o.
Proof. destruct o as [y |]; [| reflexivity]. destruct S as [w room]. reflexivity. Qed.

Lemma fold_stamp P : forall S o,
  foldl snapshot_step (stamp S o) P = stamp (foldl snapshot_step S P) o.
Proof.
  induction P as [| x P IH]; intros S o; [reflexivity |].
  cbn [foldl]. rewrite step_stamp. apply IH.
Qed.

Lemma stamp_stamp S o : stamp (stamp S o) o = stamp S o.
Proof. destruct o; reflexivity. Qed.

Lemma step_same_key S x y :
  entry_key y = entry_key x -> present (entry_key x) S ->
  snapshot_step (snapshot_step S x) y = snapshot_step S y.
Proof.
  intros Hk [u Hu]. destruct S as [w room].
  unfold snapshot_step, write_rank, update, set_registry, set_rank, set_user.
  rewrite Hk. cbn in Hu |- *. rewrite Hu, lookup_insert_eq. cbn.
  rewrite !insert_insert_eq. reflexivity.
Qed.

Lemma step_commute S x y :
  entry_key y ≠ entry_key x ->
  snapshot_step (snapshot_step S x) y = snapshot_step (snapshot_step S y) x.
Proof.
  intros Hk. assert (Hk' : entry_key x ≠ entry_key y) by (intros He; apply Hk; auto).
  destruct S as [w room].
  unfold snapshot_step, write_rank, update, set_registry, set_rank, set_user. cbn.
  rewrite (lookup_insert_ne _ _ _ _ Hk), (lookup_insert_ne _ _ _ _ Hk').
  rewrite (insert_insert_ne (Users.users (registry w)) _ _ _ _ Hk').
  rewrite (insert_insert_ne (Room.users room) _ _ _ _ Hk').
  reflexivity.
Qed.

Lemma step_present S x k : present k S -> present k (snapshot_step S x).
Proof.
  intros [u Hu]. unfold present, snapshot_step, write_rank, update, set_registry.
  cbn in Hu |- *.
  destruct (decide (entry_key x = k)) as [<- | Hne].
  - rewrite lookup_insert_eq. eauto.
  - rewrite lookup_insert_ne by exact Hne. eauto.
Qed.

Lemma step_makes_present S x : present (entry_key x) (snapshot_step S x).
Proof.
  unfold present, snapshot_step, write_rank, update, set_registry. cbn.
  rewrite lookup_insert_eq. eauto.
Qed.

Lemma fold_present P : forall S k, present k S -> present k (foldl snapshot_step S P).
Proof.
  induction P as [| x P IH]; intros S k H; [exact H |].
  cbn [foldl]. apply IH, step_present, H.
Qed.

(** An entry whose user is named again later leaves no mark. *)
Lemma fold_overwrites P : forall S x,
  entry_key x ∈ map entry_key P -> present (entry_key x) S ->
  foldl snapshot_step (snapshot_step S x) P = foldl snapshot_step S P.
Proof.
  induction P as [| y P IH]; intros S x Hin Hp; [inversion Hin |].
  cbn [foldl]. destruct (decide (entry_key y = entry_key x)) as [He | Hne].
  - rewrite (step_same_key S x y He Hp). reflexivity.
  - rewrite (step_commute S x y Hne). apply IH.
    + cbn [map] in Hin. apply elem_of_cons in Hin as [Hin | Hin]; [congruence | exact Hin].
    + apply step_present, Hp.
Qed.

Lemma step_settles S x : settled (snapshot_step S x) x.
Proof.
  unfold settled, snapshot_step, write_rank, update, set_registry, set_rank, set_user. cbn.
  rewrite !lookup_insert_eq. split; [reflexivity |].
  eexists. split; [reflexivity |]. cbn. apply lookup_insert_eq.
Qed.

Lemma step_keeps_settled S x y :
  entry_key y ≠ entry_key x -> settled S x -> settled (snapshot_step S y) x.
Proof.
  intros Hne (Hr & u & Hu & Hur).
  unfold settled, snapshot_step, write_rank, update, set_registry, set_rank, set_user.
  cbn in Hr, Hu, Hur |- *.
  rewrite !lookup_insert_ne by exact Hne. split; [exact Hr | eauto].
Qed.

Lemma fold_keeps_settled P : forall S x,
  entry_key x ∉ map entry_key P -> settled S x -> settled (foldl snapshot_step S P) x.
Proof.
  induction P as [| y P IH]; intros S x Hnot Hs; [exact Hs |].
  cbn [foldl]. cbn [map] in Hnot. apply not_elem_of_cons in Hnot as [Hne Hnot].
  apply IH; [exact Hnot |]. apply step_keeps_settled; [congruence | exact Hs].
Qed.

Lemma step_settled S x : settled S x -> snapshot_step S x = S.
Proof.
  destruct S as [[[us sid] a b c d e] [rid rus rl]].
  intros (Hr & u & Hu & Hur). cbn in *.
  unfold snapshot_step, write_rank, update, set_registry, set_rank, set_user. cbn.
  rewrite Hu. cbn. rewrite (insert_id rus _ _ Hr).
  destruct u as [un uid ur ud]. cbn in *. rewrite (insert_id ur _ _ Hur).
  rewrite (insert_id us _ _ Hu). reflexivity.
Qed.

Lemma fold_idempotent P : forall S,
  foldl snapshot_step (foldl snapshot_step S P) P = foldl snapshot_step S P.
Proof.
  induction P as [| x P IH]; intros S; [reflexivity |].
  cbn [foldl]. specialize (IH (snapshot_step S x)).
  set (S' := foldl snapshot_step (snapshot_step S x) P) in *.
  destruct (decide (entry_key x ∈ map entry_key P)) as [Hin | Hnot].
  - rewrite fold_overwrites; [exact IH | exact Hin |].
    apply fold_present, step_makes_present.
  - rewrite step_settled; [exact IH |].
    apply fold_keeps_settled; [exact Hnot | apply step_settles].
Qed.

(** X16: reading the same membership snapshot a second time changes
    nothing: the loop of [case 'users'], run again on the entries it has
    just read, ends in the same registry and the same room and in the same
    way; and so does [parse] on the same [users] line when no hook is
    configured. *)
Theorem users_snapshot_is_idempotent :
  (forall w room l,
     let '(w1, room1, st1) := snapshot w room l in
     snapshot w1 room1 l = (w1, room1, st1))
  ∧ forall E C Commands w room message,
      parseMessage C = None ->
      drop 1 (JS.split message "|"%char) !! 0%nat = Some "users" ->
      let r := parse E C Commands w message room in
      parse E C Commands (world r) message (room_after r) = r.
Proof.
  assert (Hsnap : forall w room l,
            let '(w1, room1, st1) := snapshot w room l in
            snapshot w1 room1 l = (w1, room1, st1)).
  { intros w room l. rewrite snapshot_fold.
    destruct (stamp (foldl snapshot_step (w, room) (named_prefix l)) (first_unnamed l))
      as [w1 room1] eqn:Hf.
    rewrite snapshot_fold, <- Hf, fold_stamp, fold_idempotent, stamp_stamp.
    reflexivity. }
  split; [exact Hsnap |].
  intros E C Commands w room message Hhook Hty r. subst r.
  destruct (drop 1 (JS.split message "|"%char)) as [| ty fields] eqn:Hs; [discriminate |].
  cbn in Hty. injection Hty as ->.
  assert (Hv : forall rm, vetoed C rm (Some "users") fields = false)
    by (intros rm; unfold vetoed; rewrite Hhook; reflexivity).
  rewrite (parse_users E C Commands w room message fields Hs (Hv room)).
  unfold users_snapshot.
  destruct (fields !! 0%nat) as [s |] eqn:Hf.
  - destruct (String.eqb s "0") eqn:H0.
    + cbn [world room_after done].
      rewrite (parse_users E C Commands w room message fields Hs (Hv room)).
      unfold users_snapshot. rewrite Hf, H0. reflexivity.
    + specialize (Hsnap w room (drop 1 (JS.split s ","%char))).
      destruct (snapshot w room (drop 1 (JS.split s ","%char))) as [[w1 room1] st1].
      cbn [world room_after].
      rewrite (parse_users E C Commands w1 room1 message fields Hs (Hv room1)).
      unfold users_snapshot. rewrite Hf, H0, Hsnap. reflexivity.
  - cbn [world room_after].
    rewrite (parse_users E C Commands w room message fields Hs (Hv room)).
    unfold users_snapshot. rewrite Hf. reflexivity.
Qed.

Lemma users_snapshot_is_idempotent_witness :
  let r := parse Session.E Session.C Session.Commands Session.W
                 "|users|2,+alice,@Carol" Session.lobby in
  parse Session.E Session.C Session.Commands (world r) "|users|2,+alice,@Carol"
        (room_after r) = r.
Proof.
  apply (proj2 users_snapshot_is_idempotent Session.E Session.C Session.Commands
               Session.W Session.lobby "|users|2,+alice,@Carol"); reflexivity.
Defined.

Lemma named_prefix_all l :
  forallb (fun x => JS.truthy_str (entry_key x)) l = true -> named_prefix l = l.
Proof.
  induction l as [| x l IH]; [reflexivity |]. cbn [forallb named_prefix].
  intros [Hx Hl]%andb_true_iff. rewrite Hx, (IH Hl). reflexivity.
Qed.

(** X17: a [users] line gives every listed user the rank of its last
    entry, on both sides of the rank relation.  When every entry after the
    count names a user, [parse] returns, and for an entry [x] whose user is
    not named again further on, the room's user map and the room map of the
    registered user both hold the first character of [x] under the id of
    the rest of [x]; the entry before the first comma is never read. *)
Theorem users_line_sets_ranks E C Commands w room message fields s pre x post :
  drop 1 (JS.split message "|"%char) = "users" :: fields ->
  vetoed C room (Some "users") fields = false ->
  fields !! 0%nat = Some s -> s ≠ "0" ->
  drop 1 (JS.split s ","%char) = (pre ++ x :: post)%list ->
  forallb (fun y => JS.truthy_str (entry_key y)) (pre ++ x :: post) = true ->
  entry_key x ∉ map entry_key post ->
  let r := parse E C Commands w message room in
  status_of r = Returned
  ∧ trace r = []
  ∧ Room.users (room_after r) !! entry_key x = Some (JS.charAt x 0)
  ∧ exists u, Users.get (registry (world r)) (Some (JS.substr_from x 1)) = Some u
              ∧ User.rooms u !! Room.id (room_after r) = Some (JS.charAt x 0).
Proof.
  intros Hs Hv Hf H0 Hl Hall Hlast r. subst r.
  rewrite (parse_users E C Commands w room message fields Hs Hv).
  unfold users_snapshot. rewrite Hf.
  apply String.eqb_neq in H0. rewrite H0, Hl, snapshot_fold, Hall.
  rewrite (named_prefix_all _ Hall), (first_unnamed_all _ Hall), foldl_app.
  cbn [foldl stamp].
  pose proof (fold_keeps_settled post
                (snapshot_step (foldl snapshot_step (w, room) pre) x) x Hlast
                (step_settles _ x)) as (Hr & u & Hu & Hur).
  destruct (foldl snapshot_step _ post) as [w1 room1] eqn:Hfold.
  cbn [status_of trace room_after world fst snd] in *.
  split; [reflexivity |]. split; [reflexivity |]. split; [exact Hr |].
  exists u. split; [exact Hu | exact Hur].
Qed.

Lemma users_line_sets_ranks_witness :
  let r := parse Session.E Session.C Session.Commands Session.W
                 "|users|3,+alice,@Carol, alice" Session.lobby in
  status_of r = Returned
  ∧ trace r = []
  ∧ Room.users (room_after r) !! "carol" = Some "@"
  ∧ exists u, Users.get (registry (world r)) (Some "Carol") = Some u
              ∧ User.rooms u !! "lobby" = Some "@".
Proof.
  apply (users_line_sets_ranks Session.E Session.C Session.Commands Session.W
           Session.lobby "|users|3,+alice,@Carol, alice" ["3,+alice,@Carol, alice"]
           "3,+alice,@Carol, alice" ["+alice"] "@Carol" [" alice"]);
    try reflexivity.
  - intros H; discriminate H.
  - vm_compute. intros H. repeat (apply elem_of_cons in H as [H | H]; [discriminate H |]).
    inversion H.
Defined.


(** ** What a line can change *)

Lemma keeps_users_refl w : keeps_users w w.
Proof. split; auto. Qed.

Lemma keeps_users_trans w1 w2 w3 :
  keeps_users w1 w2 -> keeps_users w2 w3 -> keeps_users w1 w3.
Proof. intros [H1 H2] [H3 H4]. split; [congruence | auto]. Qed.

Lemma update_keeps_users w key u : keeps_users w (update w key u).
Proof.
  split; [reflexivity |]. intros k Hk. unfold update, set_registry. cbn.
  destruct (decide (key = k)) as [<- | Hne].
  - rewrite lookup_insert_eq. eauto.
  - rewrite lookup_insert_ne by exact Hne. exact Hk.
Qed.

Lemma add_keeps w name r U :
  Users.add (registry w) name = (r, U) ->
  keeps_users w (set_registry w U) ∧ client (set_registry w U) = client w.
Proof.
  intros Ha. split; [| reflexivity]. split.
  - revert Ha. unfold Users.add. cbn.
    destruct (JS.truthy_str _); [| intros [= _ <-]; reflexivity].
    destruct (Users.users (registry w) !! _); intros [= _ <-]; reflexivity.
  - intros k [u Hu]. exists u. cbn. exact (add_keeps_users _ _ _ _ Ha k u Hu).
Qed.

Lemma step_frame S x :
  keeps_users S.1 (snapshot_step S x).1
  ∧ client (snapshot_step S x).1 = client S.1
  ∧ Room.id (snapshot_step S x).2 = Room.id S.2
  ∧ Room.listeners (snapshot_step S x).2 = Room.listeners S.2.
Proof.
  destruct S as [w room]. unfold snapshot_step, write_rank. cbn [fst snd].
  split; [apply update_keeps_users |]. repeat split.
Qed.

Lemma fold_frame P : forall S,
  keeps_users S.1 (foldl snapshot_step S P).1
  ∧ client (foldl snapshot_step S P).1 = client S.1
  ∧ Room.id (foldl snapshot_step S P).2 = Room.id S.2
  ∧ Room.listeners (foldl snapshot_step S P).2 = Room.listeners S.2.
Proof.
  induction P as [| x P IH]; intros S.
  - split; [apply keeps_users_refl | auto].
  - cbn [foldl]. destruct (IH (snapshot_step S x)) as (H1 & H2 & H3 & H4).
    destruct (step_frame S x) as (G1 & G2 & G3 & G4).
    split; [exact (keeps_users_trans _ _ _ G1 H1) |].
    split; [congruence |]. split; congruence.
Qed.

Lemma is_type_true messageType s : is_type messageType s = true -> messageType = Some s.
Proof. unfold is_type. apply bool_decide_eq_true_1. Qed.

(** X18: what the statements of [parse] can change (the methods of the
    room and the callbacks it calls are recorded in the trace, and what
    they write is theirs).  Whatever the line, [parse] keeps the room's id
    and its listener table, keeps the local account and never unregisters
    a user; it writes the room's user map on [users] lines only; and of
    the client's connection state it writes the challenge on [challstr]
    lines only, the lockdown flag on [raw] lines only and the format
    catalog on [formats] lines only. *)
Theorem parse_writes_what_the_line_owns E C Commands w message room :
  let r := parse E C Commands w message room in
  let messageType := drop 1 (JS.split message "|"%char) !! 0%nat in
  Room.id (room_after r) = Room.id room
  ∧ Room.listeners (room_after r) = Room.listeners room
  ∧ keeps_users w (world r)
  ∧ (messageType ≠ Some "users" -> room_after r = room)
  ∧ (messageType ≠ Some "challstr" ->
     challengeKeyId (world r) = challengeKeyId w ∧ challenge (world r) = challenge w)
  ∧ (messageType ≠ Some "raw" -> lockdown (world r) = lockdown w)
  ∧ (messageType ≠ Some "formats" ->
     formatsList (world r) = formatsList w ∧ formatsData (world r) = formatsData w).
Proof.
  cbv zeta. unfold parse. cbv zeta.
  set (messageType := drop 1 (JS.split message "|"%char) !! 0%nat).
  set (fields := drop 1 (drop 1 (JS.split message "|"%char))).
  assert (Hsame : forall tr st,
    let r := mkResult w room tr st in
    Room.id (room_after r) = Room.id room
    ∧ Room.listeners (room_after r) = Room.listeners room
    ∧ keeps_users w (world r)
    ∧ (messageType ≠ Some "users" -> room_after r = room)
    ∧ (messageType ≠ Some "challstr" ->
       challengeKeyId (world r) = challengeKeyId w ∧ challenge (world r) = challenge w)
    ∧ (messageType ≠ Some "raw" -> lockdown (world r) = lockdown w)
    ∧ (messageType ≠ Some "formats" ->
       formatsList (world r) = formatsList w ∧ formatsData (world r) = formatsData w)).
  { intros tr st. cbn. repeat split; auto. }
  assert (Husers : forall w' tr st,
    keeps_users w w' -> client w' = client w ->
    let r := mkResult w' room tr st in
    Room.id (room_after r) = Room.id room
    ∧ Room.listeners (room_after r) = Room.listeners room
    ∧ keeps_users w (world r)
    ∧ (messageType ≠ Some "users" -> room_after r = room)
    ∧ (messageType ≠ Some "challstr" ->
       challengeKeyId (world r) = challengeKeyId w ∧ challenge (world r) = challenge w)
    ∧ (messageType ≠ Some "raw" -> lockdown (world r) = lockdown w)
    ∧ (messageType ≠ Some "formats" ->
       formatsList (world r) = formatsList w ∧ formatsData (world r) = formatsData w)).
  { intros w' tr st Hk Hc. unfold client in Hc. injection Hc as H1 H2 H3 H4 H5.
    cbn. repeat split; auto; apply Hk. }
  destruct (vetoed C room messageType fields); [apply Hsame |].
  destruct (is_type messageType "challstr") eqn:T1.
  { apply is_type_true in T1. cbn. repeat split; auto; try (intros; congruence). }
  destruct (is_type messageType "updateuser") eqn:T2.
  { unfold updateuser. destruct (negb _); [apply Hsame |].
    destruct (negb _); [apply Hsame |].
    destruct (rooms C) as [[l |] |]; apply Hsame. }
  destruct (is_type messageType "init"); [apply Hsame |].
  destruct (is_type messageType "noinit"); [apply Hsame |].
  destruct (is_type messageType "deinit"); [apply Hsame |].
  destruct (is_type messageType "users") eqn:T3.
  { apply is_type_true in T3. unfold users_snapshot.
    destruct (fields !! 0%nat) as [s |]; [| apply Hsame].
    destruct (String.eqb s "0"); [apply Hsame |].
    rewrite snapshot_fold.
    destruct (fold_frame (named_prefix (drop 1 (JS.split s ","%char))) (w, room))
      as (H1 & H2 & H3 & H4).
    destruct (foldl snapshot_step _ _) as [w1 room1]. cbn [fst snd] in *.
    unfold client in H2. injection H2 as G1 G2 G3 G4 G5.
    destruct (first_unnamed _) as [y |];
      cbn; repeat split; auto; try (intros; congruence); apply H1. }
  destruct (is_type messageType "formats") eqn:T4.
  { apply is_type_true in T4. destruct (parseFormats fields (formatsData w)) as [data tr].
    cbn. repeat split; auto; intros; congruence. }
  assert (Hmember : forall who hook,
    let r := membership w room who hook in
    Room.id (room_after r) = Room.id room
    ∧ Room.listeners (room_after r) = Room.listeners room
    ∧ keeps_users w (world r)
    ∧ (messageType ≠ Some "users" -> room_after r = room)
    ∧ (messageType ≠ Some "challstr" ->
       challengeKeyId (world r) = challengeKeyId w ∧ challenge (world r) = challenge w)
    ∧ (messageType ≠ Some "raw" -> lockdown (world r) = lockdown w)
    ∧ (messageType ≠ Some "formats" ->
       formatsList (world r) = formatsList w ∧ formatsData (world r) = formatsData w)).
  { intros who hook. unfold membership.
    destruct (Users.add (registry w) who) as [[u |] U] eqn:Ha; [| apply Hsame].
    destruct (add_keeps w who _ U Ha) as [H1 H2]. apply Husers; assumption. }
  destruct (is_type messageType "J" || is_type messageType "j"); [apply Hmember |].
  destruct (is_type messageType "L" || is_type messageType "l"); [apply Hmember |].
  destruct (is_type messageType "N" || is_type messageType "n"); [apply Hmember |].
  assert (Hchat : forall who body time,
    let r := chat E C Commands w room who body time in
    Room.id (room_after r) = Room.id room
    ∧ Room.listeners (room_after r) = Room.listeners room
    ∧ keeps_users w (world r)
    ∧ (messageType ≠ Some "users" -> room_after r = room)
    ∧ (messageType ≠ Some "challstr" ->
       challengeKeyId (world r) = challengeKeyId w ∧ challenge (world r) = challenge w)
    ∧ (messageType ≠ Some "raw" -> lockdown (world r) = lockdown w)
    ∧ (messageType ≠ Some "formats" ->
       formatsList (world r) = formatsList w ∧ formatsData (world r) = formatsData w)).
  { intros who body time. unfold chat.
    destruct (Users.get (registry w) who) as [user |]; [| apply Hsame].
    destruct who as [s |]; [| apply Hsame]. cbv zeta.
    pose proof (update_keeps_users w (Tools.toId s) (ranked room user s)) as Hk.
    destruct (String.eqb _ _).
    - rewrite listen_token.
      destruct (Room.listeners room !! _) as [[| e] |]; cbn [finish];
        [| | destruct (String.eqb _ _)]; apply Husers; auto.
    - destruct (parseCommand _ _ _ _ _ _ _) as [tr [b | e]];
        [| apply Husers; auto].
      destruct (negb _); [| apply Husers; auto].
      destruct (moderate _ _ _ _ _ _ _) as [user' out].
      apply Husers; [| reflexivity].
      exact (keeps_users_trans _ _ _ Hk (update_keeps_users _ _ _)). }
  destruct (is_type messageType "c"); [apply Hchat |].
  destruct (is_type messageType "c:"); [apply Hchat |].
  destruct (is_type messageType "pm").
  { unfold pm.
    destruct (Users.add (registry w) (fields !! 0%nat)) as [[u |] U] eqn:Ha; [| apply Hsame].
    destruct (add_keeps w _ _ U Ha) as [H1 H2]. cbv zeta.
    destruct (String.eqb _ _); [apply Husers; assumption |].
    destruct (parseCommand _ _ _ _ _ _ _) as [tr [b | e]]; apply Husers; assumption. }
  destruct (is_type messageType "raw") eqn:T5; [| apply Hsame].
  apply is_type_true in T5. unfold raw. cbv zeta.
  destruct (_ && _).
  { cbn. repeat split; auto; intros; congruence. }
  destruct (_ && _); [| apply Hsame].
  cbn. repeat split; auto; intros; congruence.
Qed.

(** ** How a call of [parse] can end *)

(** X19: [parse] ends the process on a failed login and on nothing else,
    and the errors that can leave it are few: the one of a [Config.rooms]
    that is no array after a login, the ones of a [users] line without a
    list or with an entry that names no user, and on a chat or private
    message the one of a listener that throws, of a speaker field that is
    missing, or of a handler that threw [null].  Every other line
    returns. *)
Theorem parse_ends E C Commands w message room :
  let r := parse E C Commands w message room in
  let splitMessage := drop 1 (JS.split message "|"%char) in
  let messageType := splitMessage !! 0%nat in
  (status_of r = Exited
   <-> vetoed C room messageType (drop 1 splitMessage) = false
       ∧ messageType = Some "updateuser"
       ∧ splitMessage !! 1%nat = Some (username C)
       ∧ splitMessage !! 2%nat ≠ Some "1")
  ∧ (status_of r = Exited -> trace r = [Log "Failed to log in"])
  ∧ forall e, status_of r = Raised e ->
      (messageType = Some "updateuser" ∧ e = Error "Config.rooms must be an array")
      ∨ (messageType = Some "users"
         ∧ (e = TypeError "splitMessage[0].split" ∨ e = TypeError "user.rooms"))
      ∨ ((messageType = Some "c" ∨ messageType = Some "c:")
         ∧ (e = TypeError "charAt" ∨ e = TypeError "e.stack" ∨ exists t, e = Uncaught t))
      ∨ (messageType = Some "pm" ∧ e = TypeError "e.stack").
Proof.
  intros r splitMessage messageType.
  set (P := fun r : result =>
    (status_of r = Exited
     <-> vetoed C room messageType (drop 1 splitMessage) = false
         ∧ messageType = Some "updateuser"
         ∧ splitMessage !! 1%nat = Some (username C)
         ∧ splitMessage !! 2%nat ≠ Some "1")
    ∧ (status_of r = Exited -> trace r = [Log "Failed to log in"])
    ∧ forall e, status_of r = Raised e ->
        (messageType = Some "updateuser" ∧ e = Error "Config.rooms must be an array")
        ∨ (messageType = Some "users"
           ∧ (e = TypeError "splitMessage[0].split" ∨ e = TypeError "user.rooms"))
        ∨ ((messageType = Some "c" ∨ messageType = Some "c:")
           ∧ (e = TypeError "charAt" ∨ e = TypeError "e.stack" ∨ exists t, e = Uncaught t))
        ∨ (messageType = Some "pm" ∧ e = TypeError "e.stack")).
  change (P r). subst r. unfold parse. cbv zeta. fold splitMessage. fold messageType.
  assert (H12 : forall i, drop 1 splitMessage !! i = splitMessage !! S i)
    by (intros i; destruct splitMessage; [destruct i |]; reflexivity).
  destruct (vetoed C room messageType (drop 1 splitMessage)) eqn:Hv.
  { unfold P, done. cbn [status_of trace].
    repeat split; try discriminate. intros (Hv' & _). congruence. }
  assert (Hret : forall w' room' tr, messageType ≠ Some "updateuser" ->
            P (done w' room' tr)).
  { intros w' room' tr Hne. unfold P, done. cbn [status_of trace].
    repeat split; try discriminate. intros (_ & ? & _). contradiction. }
  assert (Hne : forall a b : string, a ≠ b -> messageType = Some a -> messageType ≠ Some b)
    by (intros a b Hab -> [= ?]; contradiction).
  destruct (is_type messageType "challstr") eqn:T; [apply is_type_true in T |].
  { apply Hret. apply (Hne "challstr" "updateuser"); [discriminate | exact T]. }
  clear T. destruct (is_type messageType "updateuser") eqn:T; [apply is_type_true in T |].
  { unfold P, updateuser, done. rewrite !H12.
    case_bool_decide as H0; cbn [negb status_of trace].
    2: { repeat split; try discriminate. intros (_ & _ & ? & _). contradiction. }
    case_bool_decide as H1; cbn [negb status_of trace].
    2: { repeat split; auto; discriminate. }
    destruct (rooms C) as [[l |] |]; cbn [status_of trace].
    - repeat split; try discriminate. intros (_ & _ & _ & ?). contradiction.
    - repeat split; try discriminate.
      + intros (_ & _ & _ & ?). contradiction.
      + intros e [= <-]. left. auto.
    - repeat split; try discriminate. intros (_ & _ & _ & ?). contradiction. }
  assert (Tu : messageType ≠ Some "updateuser").
  { intros Heq. unfold is_type in T. rewrite bool_decide_eq_false in T. contradiction. }
  clear T Hne. specialize (fun w' room' tr => Hret w' room' tr Tu).
  assert (Hraise : forall w' room' tr e0,
            (forall e, e0 = e ->
              (messageType = Some "updateuser" ∧ e = Error "Config.rooms must be an array")
              ∨ (messageType = Some "users"
                 ∧ (e = TypeError "splitMessage[0].split" ∨ e = TypeError "user.rooms"))
              ∨ ((messageType = Some "c" ∨ messageType = Some "c:")
                 ∧ (e = TypeError "charAt" ∨ e = TypeError "e.stack"
                    ∨ exists t, e = Uncaught t))
              ∨ (messageType = Some "pm" ∧ e = TypeError "e.stack")) ->
            P (mkResult w' room' tr (Raised e0))).
  { intros w' room' tr e0 He. unfold P. cbn [status_of trace].
    repeat split; try discriminate.
    - intros (_ & ? & _). contradiction.
    - intros e [= Heq]. apply He, Heq. }
  destruct (is_type messageType "init"); [apply Hret |].
  destruct (is_type messageType "noinit"); [apply Hret |].
  destruct (is_type messageType "deinit"); [apply Hret |].
  destruct (is_type messageType "users") eqn:T; [apply is_type_true in T |].
  { unfold users_snapshot.
    destruct ((drop 1 splitMessage) !! 0%nat) as [s |];
      [| apply Hraise; intros e <-; right; left; auto].
    destruct (String.eqb s "0"); [apply Hret |].
    rewrite snapshot_fold. destruct (stamp _ _) as [w1 room1].
    destruct (forallb _ _); [apply Hret |].
    apply Hraise. intros e <-. right. left. auto. }
  clear T. destruct (is_type messageType "formats").
  { destruct (parseFormats (drop 1 splitMessage) (formatsData w)) as [data tr]. apply Hret. }
  assert (Hmember : forall who hook, P (membership w room who hook)).
  { intros who hook. unfold membership.
    destruct (Users.add (registry w) who) as [[u |] U]; apply Hret. }
  destruct (is_type messageType "J" || is_type messageType "j"); [apply Hmember |].
  destruct (is_type messageType "L" || is_type messageType "l"); [apply Hmember |].
  destruct (is_type messageType "N" || is_type messageType "n"); [apply Hmember |].
  assert (Hchat : messageType = Some "c" ∨ messageType = Some "c:" ->
            forall who body time, P (chat E C Commands w room who body time)).
  { intros Hty who body time. unfold chat.
    destruct (Users.get (registry w) who) as [user |]; [| apply Hret].
    destruct who as [s |];
      [| apply Hraise; intros e <-; right; right; left; auto]. cbv zeta.
    destruct (String.eqb _ _).
    - rewrite listen_token.
      destruct (Room.listeners room !! _) as [[| e0] |]; cbn [finish];
        [apply Hret | | destruct (String.eqb _ _); apply Hret].
      apply Hraise. intros e <-. right. right. left. eauto.
    - pose proof (parseCommand_trace E C Commands (JS.join "|" body) (InRoom room)
                    (ranked room user s) (Some time)) as [_ Hend].
      destruct (parseCommand _ _ _ _ _ _ _) as [tr [b | e0]].
      + destruct (negb _); [| apply Hret].
        destruct (moderate _ _ _ _ _ _ _) as [user' out]. apply Hret.
      + destruct Hend as [[b Hb] | Hb]; [discriminate Hb |]. cbn in Hb.
        injection Hb as ->. apply Hraise. intros e <-. right. right. left. auto. }
  destruct (is_type messageType "c") eqn:T; [apply is_type_true in T; apply Hchat; auto |].
  clear T.
  destruct (is_type messageType "c:") eqn:T; [apply is_type_true in T; apply Hchat; auto |].
  clear T.
  destruct (is_type messageType "pm") eqn:T; [apply is_type_true in T |].
  { unfold pm.
    destruct (Users.add (registry w) ((drop 1 splitMessage) !! 0%nat)) as [[u |] U]; [| apply Hret].
    cbv zeta. destruct (String.eqb _ _); [apply Hret |].
    pose proof (parseCommand_trace E C Commands (JS.join "|" (drop 2 (drop 1 splitMessage))) (InPM u)
                  u None) as [_ Hend].
    destruct (parseCommand _ _ _ _ _ _ _) as [tr [b | e0]]; [apply Hret |].
    destruct Hend as [[b Hb] | Hb]; [discriminate Hb |]. cbn in Hb.
    injection Hb as ->. apply Hraise. intros e <-. right. right. right. auto. }
  clear T. destruct (is_type messageType "raw"); [| apply Hret].
  unfold raw. cbv zeta. destruct (_ && _); [apply Hret |].
  destruct (_ && _); apply Hret.
Qed.

(** ** The rank relation under [parse] *)

Lemma in_sync_registry w w' room :
  registry w' = registry w -> in_sync w room -> in_sync w' room.
Proof. intros He Hs key. rewrite He. apply Hs. Qed.

Lemma add_in_sync w room name r U :
  Users.add (registry w) name = (r, U) -> in_sync w room ->
  in_sync (set_registry w U) room.
Proof.
  unfold Users.add. intros Ha Hs.
  destruct (JS.truthy_str (Tools.toId_opt name));
    [| injection Ha as _ <-; exact (in_sync_registry w _ room eq_refl Hs)].
  destruct (Users.users (registry w) !! Tools.toId_opt name) eqn:Hl;
    injection Ha as _ <-; [exact (in_sync_registry w _ room eq_refl Hs) |].
  intros key. cbn. destruct (decide (Tools.toId_opt name = key)) as [<- | Hne].
  - rewrite lookup_insert_eq. cbn. rewrite lookup_empty.
    rewrite (Hs (Tools.toId_opt name)), Hl. reflexivity.
  - rewrite lookup_insert_ne by exact Hne. apply Hs.
Qed.

(** The ranks of the users, on the two sides, under every line that is
    not a chat line. *)
Lemma parse_keeps_in_sync E C Commands w message room :
  let messageType := drop 1 (JS.split message "|"%char) !! 0%nat in
  messageType ≠ Some "c" -> messageType ≠ Some "c:" ->
  in_sync w room ->
  let r := parse E C Commands w message room in
  in_sync (world r) (room_after r).
Proof.
  intros messageType Hc Hc' Hsync r. subst r. unfold parse. cbv zeta.
  fold messageType.
  set (fields := drop 1 (drop 1 (JS.split message "|"%char))).
  destruct (vetoed C room messageType fields); [exact Hsync |].
  destruct (is_type messageType "challstr"); [exact Hsync |].
  destruct (is_type messageType "updateuser").
  { unfold updateuser. destruct (negb _); [exact Hsync |].
    destruct (negb _); [exact Hsync |].
    destruct (rooms C) as [[l |] |]; exact Hsync. }
  destruct (is_type messageType "init"); [exact Hsync |].
  destruct (is_type messageType "noinit"); [exact Hsync |].
  destruct (is_type messageType "deinit"); [exact Hsync |].
  destruct (is_type messageType "users").
  { unfold users_snapshot. destruct (fields !! 0%nat) as [s |]; [| exact Hsync].
    destruct (String.eqb s "0"); [exact Hsync |].
    pose proof (snapshot_in_sync (drop 1 (JS.split s ","%char)) w room Hsync) as H.
    destruct (snapshot w room _) as [[w1 room1] st]. apply H. }
  destruct (is_type messageType "formats").
  { destruct (parseFormats fields (formatsData w)) as [data tr]. exact Hsync. }
  assert (Hmember : forall who hook,
            let r := membership w room who hook in in_sync (world r) (room_after r)).
  { intros who hook. unfold membership.
    destruct (Users.add (registry w) who) as [[u |] U] eqn:Ha; [| exact Hsync].
    exact (add_in_sync w room who _ U Ha Hsync). }
  destruct (is_type messageType "J" || is_type messageType "j"); [apply Hmember |].
  destruct (is_type messageType "L" || is_type messageType "l"); [apply Hmember |].
  destruct (is_type messageType "N" || is_type messageType "n"); [apply Hmember |].
  destruct (is_type messageType "c") eqn:T; [apply is_type_true in T; contradiction |].
  clear T.
  destruct (is_type messageType "c:") eqn:T; [apply is_type_true in T; contradiction |].
  clear T.
  destruct (is_type messageType "pm").
  { unfold pm.
    destruct (Users.add (registry w) (fields !! 0%nat)) as [[u |] U] eqn:Ha;
      [| exact Hsync].
    pose proof (add_in_sync w room _ _ U Ha Hsync) as H. cbv zeta.
    destruct (String.eqb _ _); [exact H |].
    destruct (parseCommand _ _ _ _ _ _ _) as [tr [b | e]]; exact H. }
  destruct (is_type messageType "raw"); [| exact Hsync].
  unfold raw. cbv zeta. destruct (_ && _); [exact Hsync |].
  destruct (_ && _); exact Hsync.
Qed.

Lemma step_undefined S x :
  Room.undefined_rank (snapshot_step S x).2 = Room.undefined_rank S.2.
Proof. destruct S. reflexivity. Qed.

Lemma fold_undefined P : forall S,
  Room.undefined_rank (foldl snapshot_step S P).2 = Room.undefined_rank S.2.
Proof.
  induction P as [| x P IH]; intros S; [reflexivity |].
  cbn [foldl]. rewrite IH. apply step_undefined.
Qed.

Lemma first_unnamed_some l :
  forallb (fun x => JS.truthy_str (entry_key x)) l = false ->
  exists x, first_unnamed l = Some x.
Proof.
  induction l as [| x l IH]; [discriminate |]. cbn [forallb first_unnamed].
  destruct (JS.truthy_str (entry_key x)); [exact IH | eauto].
Qed.

(** X20: the statements of [parse] keep the ranks of the users in
    agreement on the two sides on every line that is not a chat line: if
    the room's user map and the room maps of the registered users agree
    before [parse], they agree after it for every line whose type is
    neither [c] nor [c:].  A line that returns leaves alone what
    [room.users] holds under the key [undefined]; a [users] line that
    stops at an entry that names no user leaves a rank there, which is the
    rank of no user. *)
Theorem rank_maps_stay_in_sync E C Commands w message room :
  let messageType := drop 1 (JS.split message "|"%char) !! 0%nat in
  messageType ≠ Some "c" -> messageType ≠ Some "c:" ->
  in_sync w room ->
  let r := parse E C Commands w message room in
  in_sync (world r) (room_after r)
  ∧ (status_of r = Returned ->
     Room.undefined_rank (room_after r) = Room.undefined_rank room)
  ∧ (status_of r = Raised (TypeError "user.rooms") ->
     messageType = Some "users"
     ∧ exists rank, Room.undefined_rank (room_after r) = Some rank).
Proof.
  intros messageType Hc Hc' Hsync r.
  split; [exact (parse_keeps_in_sync E C Commands w message room Hc Hc' Hsync) |].
  set (P := fun r : result =>
    (status_of r = Returned ->
     Room.undefined_rank (room_after r) = Room.undefined_rank room)
    ∧ (status_of r = Raised (TypeError "user.rooms") ->
       messageType = Some "users"
       ∧ exists rank, Room.undefined_rank (room_after r) = Some rank)).
  change (P r). subst r. unfold parse. cbv zeta. fold messageType.
  set (fields := drop 1 (drop 1 (JS.split message "|"%char))).
  assert (Hsame : forall w' tr st, st ≠ Raised (TypeError "user.rooms") ->
            P (mkResult w' room tr st)).
  { intros w' tr st Hst. unfold P. cbn [status_of room_after].
    split; [reflexivity | intros ->; contradiction]. }
  assert (Hret : forall w' tr, P (done w' room tr))
    by (intros w' tr; apply Hsame; discriminate).
  destruct (vetoed C room messageType fields); [apply Hret |].
  destruct (is_type messageType "challstr"); [apply Hret |].
  destruct (is_type messageType "updateuser").
  { unfold updateuser. destruct (negb _); [apply Hret |].
    destruct (negb _); [apply Hsame; discriminate |].
    destruct (rooms C) as [[l |] |]; [apply Hret | apply Hsame; discriminate | apply Hret]. }
  destruct (is_type messageType "init"); [apply Hret |].
  destruct (is_type messageType "noinit"); [apply Hret |].
  destruct (is_type messageType "deinit"); [apply Hret |].
  destruct (is_type messageType "users") eqn:T.
  { apply is_type_true in T. unfold users_snapshot.
    destruct (fields !! 0%nat) as [s |]; [| apply Hsame; discriminate].
    destruct (String.eqb s "0"); [apply Hret |].
    rewrite snapshot_fold.
    pose proof (fold_undefined (named_prefix (drop 1 (JS.split s ","%char))) (w, room))
      as Hu.
    destruct (foldl snapshot_step _ _) as [w1 room1]. cbn [snd] in Hu.
    destruct (forallb _ _) eqn:Hall.
    - rewrite (first_unnamed_all _ Hall). unfold P. cbn.
      split; [intros _; exact Hu | discriminate].
    - destruct (first_unnamed_some _ Hall) as [x ->]. unfold P. cbn.
      split; [discriminate | intros _; split; [exact T | eauto]]. }
  clear T. destruct (is_type messageType "formats").
  { destruct (parseFormats fields (formatsData w)) as [data tr]. apply Hret. }
  assert (Hmember : forall who hook, P (membership w room who hook)).
  { intros who hook. unfold membership.
    destruct (Users.add (registry w) who) as [[u |] U]; apply Hret. }
  destruct (is_type messageType "J" || is_type messageType "j"); [apply Hmember |].
  destruct (is_type messageType "L" || is_type messageType "l"); [apply Hmember |].
  destruct (is_type messageType "N" || is_type messageType "n"); [apply Hmember |].
  destruct (is_type messageType "c") eqn:T; [apply is_type_true in T; contradiction |].
  clear T.
  destruct (is_type messageType "c:") eqn:T; [apply is_type_true in T; contradiction |].
  clear T.
  destruct (is_type messageType "pm").
  { unfold pm.
    destruct (Users.add (registry w) (fields !! 0%nat)) as [[u |] U]; [| apply Hret].
    cbv zeta. destruct (String.eqb _ _); [apply Hret |].
    pose proof (parseCommand_trace E C Commands (JS.join "|" (drop 2 fields)) (InPM u)
                  u None) as [_ Hend].
    destruct (parseCommand _ _ _ _ _ _ _) as [tr [b | e0]]; [apply Hret |].
    destruct Hend as [[b Hb] | Hb]; [discriminate Hb |]. cbn in Hb.
    injection Hb as ->. apply Hsame. discriminate. }
  destruct (is_type messageType "raw"); [| apply Hret].
  unfold raw. cbv zeta. destruct (_ && _); [apply Hret |].
  destruct (_ && _); apply Hret.
Qed.

Lemma rank_maps_stay_in_sync_witness :
  let r := parse Session.E Session.C Session.Commands Session.W
                 "|users|2,+alice,@Carol,%!!!" Session.lobby in
  in_sync (world r) (room_after r)
  ∧ status_of r = Raised (TypeError "user.rooms")
  ∧ exists rank, Room.undefined_rank (room_after r) = Some rank.
Proof.
  cbv zeta.
  destruct (rank_maps_stay_in_sync Session.E Session.C Session.Commands Session.W
              "|users|2,+alice,@Carol,%!!!" Session.lobby
              ltac:(discriminate) ltac:(discriminate) session_in_sync)
    as (Hsync & _ & Hstray).
  split; [exact Hsync |]. split; [vm_compute; reflexivity |].
  exact (proj2 (Hstray ltac:(vm_compute; reflexivity))).
Defined.

(** ** Users that cannot be resolved: which handlers abort *)

Lemma membership_resolved w room who hook u :
  (Users.add (registry w) who).1 = Some u ->
  trace (membership w room who hook) = hook (Tools.toId_opt who)
  ∧ status_of (membership w room who hook) = Returned.
Proof.
  intros Hadd. unfold membership.
  destruct (Users.add (registry w) who) as [[u' |] U]; [| discriminate].
  split; reflexivity.
Qed.

(** The loop of the [users] case stops at the first entry that names no
    user: the rank goes under the key [undefined] and the error leaves. *)
Lemma snapshot_stops x post pre : forall w room,
  forallb (fun y => JS.truthy_str (entry_key y)) pre = true ->
  JS.truthy_str (entry_key x) = false ->
  exists w' room',
    snapshot w room (pre ++ x :: post)
    = (w', set_undefined room' (JS.charAt x 0), Raised (TypeError "user.rooms")).
Proof.
  induction pre as [| y pre IH]; intros w room Hpre Hx.
  - cbn [app snapshot]. unfold Users.add. cbn [Tools.toId_opt].
    fold (entry_key x). rewrite Hx. eauto.
  - cbn [forallb] in Hpre. apply andb_true_iff in Hpre as [Hy Hpre].
    cbn [app]. rewrite (snapshot_cons_ok w room y _ Hy). apply IH; assumption.
Qed.

(** C9, as the code has it.  A handler returns silently, with no effect at
    all, because its user cannot be resolved in these cases and no
    others: join, leave, rename and pm when [Users.add] yields no user,
    and chat (['c'] and ['c:']) when [Users.get] yields no user, since
    chat only looks the speaker up.  When the user is resolved the same
    handlers go on: join, leave and rename call the room's method, and pm
    and chat from another account call [parseCommand].  The [users] case
    resolves users too, but does not abort: at an entry that names no
    user it stores the rank under the key [undefined] and raises a
    [TypeError].  The other message types leave the registry alone. *)
Theorem unresolved_user_aborts E C Commands w room message ty fields :
  drop 1 (JS.split message "|"%char) = ty :: fields ->
  vetoed C room (Some ty) fields = false ->
  let r := parse E C Commands w message room in
  let self := Users.self (registry w) in
  (ty ∈ ["J"; "j"; "L"; "l"; "N"; "n"] ->
   let who := if String.eqb ty "N" || String.eqb ty "n"
              then fields !! 1%nat else fields !! 0%nat in
   ((Users.add (registry w) who).1 = None -> r = done w room [])
   ∧ (is_Some (Users.add (registry w) who).1 ->
      status_of r = Returned
      ∧ exists e, trace r = [e]
          ∧ (e = OnJoin (Room.id room) (Tools.toId_opt who)
                        (JS.charAt (default "" who) 0)
             ∨ e = OnLeave (Room.id room) (Tools.toId_opt who)
             ∨ e = OnRename (Room.id room) (Tools.toId_opt who) (fields !! 0%nat))))
  ∧ (ty = "pm" ->
     ((Users.add (registry w) (fields !! 0%nat)).1 = None -> r = done w room [])
     ∧ (forall u, (Users.add (registry w) (fields !! 0%nat)).1 = Some u ->
          User.id u ≠ User.id self ->
          exists rest,
            trace r = CallParseCommand (JS.join "|" (drop 2 fields)) (InPM u)
                                       (Tools.toId_opt (fields !! 0%nat)) :: rest))
  ∧ (ty = "c" ∨ ty = "c:" ->
     let who := if String.eqb ty "c" then fields !! 0%nat else fields !! 1%nat in
     let body := if String.eqb ty "c" then drop 1 fields else drop 2 fields in
     (Users.get (registry w) who = None -> r = done w room [])
     ∧ (forall s user, who = Some s -> Users.get (registry w) who = Some user ->
          User.id user ≠ User.id self ->
          exists rest,
            trace r = CallParseCommand (JS.join "|" body) (InRoom room) (Tools.toId s)
                      :: rest))
  ∧ (ty = "users" ->
     forall s pre x post,
       fields !! 0%nat = Some s -> s ≠ "0" ->
       drop 1 (JS.split s ","%char) = (pre ++ x :: post)%list ->
       forallb (fun y => JS.truthy_str (entry_key y)) pre = true ->
       JS.truthy_str (entry_key x) = false ->
       status_of r = Raised (TypeError "user.rooms")
       ∧ trace r = []
       ∧ Room.undefined_rank (room_after r) = Some (JS.charAt x 0))
  ∧ (ty ∉ ["users"; "J"; "j"; "L"; "l"; "N"; "n"; "c"; "c:"; "pm"] ->
     registry (world r) = registry w).
Proof.
  intros Hs Hv r self. subst r.
  split; [| split; [| split; [| split]]].
  - intros Hty who.
    assert (Hparse : exists hook,
      parse E C Commands w message room = membership w room who hook
      ∧ exists e, hook (Tools.toId_opt who) = [e]
          ∧ (e = OnJoin (Room.id room) (Tools.toId_opt who)
                        (JS.charAt (default "" who) 0)
             ∨ e = OnLeave (Room.id room) (Tools.toId_opt who)
             ∨ e = OnRename (Room.id room) (Tools.toId_opt who) (fields !! 0%nat))).
    { subst who.
      repeat (apply elem_of_cons in Hty as [-> | Hty]); [| | | | | | inversion Hty];
        cbn [String.eqb Ascii.eqb Bool.eqb orb]; eexists.
      - split; [apply (parse_join E C Commands w room message fields "J"); auto |].
        eexists. split; [reflexivity | auto].
      - split; [apply (parse_join E C Commands w room message fields "j"); auto |].
        eexists. split; [reflexivity | auto].
      - split; [apply (parse_leave E C Commands w room message fields "L"); auto |].
        eexists. split; [reflexivity | auto].
      - split; [apply (parse_leave E C Commands w room message fields "l"); auto |].
        eexists. split; [reflexivity | auto].
      - split; [apply (parse_rename E C Commands w room message fields "N"); auto |].
        eexists. split; [reflexivity | auto].
      - split; [apply (parse_rename E C Commands w room message fields "n"); auto |].
        eexists. split; [reflexivity | auto]. }
    destruct Hparse as (hook & -> & e & He & Hshape). split.
    + apply membership_unresolved.
    + intros [u Hu]. destruct (membership_resolved w room who hook u Hu) as [-> ->].
      split; [reflexivity |]. exists e. split; [exact He | exact Hshape].
  - intros ->. rewrite (parse_pm E C Commands w room message fields Hs Hv). split.
    + apply pm_unresolved.
    + intros u Hadd Hid. unfold pm.
      pose proof (add_keeps_self_id (registry w) (fields !! 0%nat)) as Hself.
      destruct (Users.add (registry w) (fields !! 0%nat)) as [[u' |] U]; [| discriminate].
      cbn [fst] in Hadd. injection Hadd as ->. cbv zeta.
      change (registry (set_registry w U)) with U.
      rewrite (Hself u U eq_refl).
      destruct (String.eqb_spec (User.id u) (User.id (Users.self (registry w))));
        [contradiction |].
      destruct (parseCommand _ _ _ _ _ _ _) as [tr [b | e]]; eexists; reflexivity.
  - intros Hty who body.
    assert (Hparse : exists time, parse E C Commands w message room
                                  = chat E C Commands w room who body time).
    { subst who body. destruct Hty as [-> | ->]; cbn [String.eqb Ascii.eqb Bool.eqb].
      - eexists. apply parse_c; assumption.
      - eexists. apply parse_c_colon; assumption. }
    destruct Hparse as [time ->]. split.
    + apply chat_unresolved.
    + intros s user Hwho Hget Hid. rewrite Hwho in *.
      rewrite (chat_other E C Commands w room s user body time Hget Hid). cbv zeta.
      destruct (parseCommand _ _ _ _ _ _ _) as [tr [b | e]]; [| eexists; reflexivity].
      destruct (negb _); [| eexists; reflexivity].
      destruct (moderate _ _ _ _ _ _ _). eexists. reflexivity.
  - intros -> s pre x post Hf H0 Hl Hpre Hx.
    rewrite (parse_users E C Commands w room message fields Hs Hv).
    unfold users_snapshot. rewrite Hf.
    apply String.eqb_neq in H0. rewrite H0, Hl.
    destruct (snapshot_stops x post pre w room Hpre Hx) as (w' & room' & ->).
    repeat split.
  - intros Hty. unfold parse. rewrite Hs.
    change (drop 1 (ty :: fields)) with fields.
    cbn [lookup list_lookup]. rewrite Hv.
    assert (Hne : forall t, t ∈ ["users"; "J"; "j"; "L"; "l"; "N"; "n"; "c"; "c:"; "pm"] ->
                  is_type (Some ty) t = false).
    { intros t Ht. unfold is_type. apply bool_decide_eq_false. intros [= ->].
      contradiction. }
    rewrite (Hne "users"), (Hne "J"), (Hne "j"), (Hne "L"), (Hne "l"), (Hne "N"),
      (Hne "n"), (Hne "c"), (Hne "c:"), (Hne "pm") by (repeat constructor).
    cbn [orb].
    destruct (is_type (Some ty) "challstr"); [reflexivity |].
    destruct (is_type (Some ty) "updateuser").
    { unfold updateuser. destruct (negb _); [reflexivity |].
      destruct (negb _); [reflexivity |]. destruct (rooms C) as [[l |] |]; reflexivity. }
    destruct (is_type (Some ty) "init"); [reflexivity |].
    destruct (is_type (Some ty) "noinit"); [reflexivity |].
    destruct (is_type (Some ty) "deinit"); [reflexivity |].
    destruct (is_type (Some ty) "formats").
    { destruct (parseFormats fields (formatsData w)). reflexivity. }
    destruct (is_type (Some ty) "raw"); [| reflexivity].
    unfold raw. cbv zeta. destruct (_ && _); [reflexivity |].
    destruct (_ && _); reflexivity.
Qed.

Lemma unresolved_user_aborts_witness :
  parse Session.E Session.C Session.Commands Session.W "|c:|17| zed|.hello" Session.lobby
  = done Session.W Session.lobby []
  ∧ parse Session.E Session.C Session.Commands Session.W "|J|+!!!" Session.lobby
    = done Session.W Session.lobby []
  ∧ exists e,
      trace (parse Session.E Session.C Session.Commands Session.W "|J|+Dan" Session.lobby)
      = [e].
Proof.
  split; [| split].
  - pose proof (unresolved_user_aborts Session.E Session.C Session.Commands Session.W
                  Session.lobby "|c:|17| zed|.hello" "c:" ["17"; " zed"; ".hello"]
                  eq_refl eq_refl) as (_ & _ & H & _).
    exact (proj1 (H (or_intror eq_refl)) eq_refl).
  - pose proof (unresolved_user_aborts Session.E Session.C Session.Commands Session.W
                  Session.lobby "|J|+!!!" "J" ["+!!!"] eq_refl eq_refl) as (H & _).
    exact (proj1 (H ltac:(repeat constructor)) eq_refl).
  - pose proof (unresolved_user_aborts Session.E Session.C Session.Commands Session.W
                  Session.lobby "|J|+Dan" "J" ["+Dan"] eq_refl eq_refl) as (H & _).
    destruct (proj2 (H ltac:(repeat constructor)) ltac:(eexists; reflexivity))
      as (_ & e & He & _).
    exists e. exact He.
Defined.

(** C9 as stated fails on each of the paths it calls safe.  Chat: the
    speaker [zed] is in no registry slot, and the chat line that carries
    their command is dropped without any effect, where the same line from
    the registered [alice] runs the command.  Private messages: a sender
    whose name normalizes to nothing is not added, and the message is
    dropped.  The [users] case: an entry that names no user does not
    succeed either; the rank is stored under the key [undefined] and a
    [TypeError] leaves [parse]. *)
Lemma unresolved_user_counterexamples :
  (Users.get (registry Session.W) (Some " zed") = None
   ∧ parse Session.E Session.C Session.Commands Session.W "|c| zed|.hello" Session.lobby
     = done Session.W Session.lobby []
   ∧ exists this,
       Invoke "hello" this ""
       ∈ trace (parse Session.E Session.C Session.Commands Session.W
                      "|c| alice|.hello" Session.lobby))
  ∧ ((Users.add (registry Session.W) (Some " !!!")).1 = None
     ∧ parse Session.E Session.C Session.Commands Session.W "|pm| !!!| Bot|.hello"
             Session.lobby
       = done Session.W Session.lobby [])
  ∧ (let r := parse Session.E Session.C Session.Commands Session.W
                    "|users|2,+alice,%!!!" Session.lobby in
     status_of r = Raised (TypeError "user.rooms")
     ∧ Room.undefined_rank (room_after r) = Some "%"
     ∧ Room.undefined_rank Session.lobby = None).
Proof.
  split; [| split].
  - split; [reflexivity |]. split; [vm_compute; reflexivity |].
    eexists. vm_compute. apply list_elem_of_further, list_elem_of_here.
  - split; vm_compute; reflexivity.
  - vm_compute. repeat split; reflexivity.
Qed.

(** ** Chat lines of the local account *)

(** X21: a chat line of the local account goes to the room's listeners
    and nowhere else.  For every [c] or [c:] line whose resolved speaker
    has the id of the local account, [parse] calls neither [parseCommand]
    nor [moderate]; it does nothing, or makes the one call
    [room.listeners[token]()] for the normalized body and stops.  When the
    line reaches its case, that call is made exactly when the token is a
    key of the table or is [constructor], the one identifier a plain
    object inherits a member for. *)
Theorem self_chat_dispatch E C Commands w room message ty fields who body user :
  drop 1 (JS.split message "|"%char) = ty :: fields ->
  (ty = "c" ∧ who = fields !! 0%nat ∧ body = drop 1 fields)
  ∨ (ty = "c:" ∧ who = fields !! 1%nat ∧ body = drop 2 fields) ->
  Users.get (registry w) who = Some user ->
  User.id user = User.id (Users.self (registry w)) ->
  let r := parse E C Commands w message room in
  let token := Tools.toId (JS.join "|" body) in
  (forall m p u, CallParseCommand m p u ∉ trace r)
  ∧ (forall m rm u, CallModerate m rm u ∉ trace r)
  ∧ (trace r = []
     ∨ trace r = [Listener (Room.id room) token]
       ∧ (is_Some (Room.listeners room !! token) ∨ token = "constructor"))
  ∧ (vetoed C room (Some ty) fields = false -> is_Some who ->
     trace r = match Room.listeners room !! token with
               | Some _ => [Listener (Room.id room) token]
               | None =>
                   if String.eqb token "constructor"
                   then [Listener (Room.id room) token] else []
               end).
Proof.
  intros Hs Hty Hget Hid r token.
  destruct (self_chat_trace E C Commands w room message ty fields who body user
              Hs Hty Hget Hid) as [Hor Hex].
  fold r token in Hor, Hex.
  split; [| split; [| split; [exact Hor | exact Hex]]].
  - intros m p u Hin. destruct Hor as [H | [H _]]; rewrite H in Hin.
    + inversion Hin.
    + apply list_elem_of_singleton in Hin. discriminate.
  - intros m rm u Hin. destruct Hor as [H | [H _]]; rewrite H in Hin.
    + inversion Hin.
    + apply list_elem_of_singleton in Hin. discriminate.
Qed.

Lemma self_chat_dispatch_witness :
  trace (parse Session.E Session.C Session.Commands Session.W
               "|c|*Bot|.hello ok" Session.waiting) = []
  ∧ trace (parse Session.E Session.C Session.Commands Session.W
                 "|c:|17|*Bot|OK!" Session.waiting) = [Listener "lobby" "ok"].
Proof.
  split.
  - apply (self_chat_dispatch Session.E Session.C Session.Commands Session.W
             Session.waiting "|c|*Bot|.hello ok" "c" ["*Bot"; ".hello ok"]
             (Some "*Bot") [".hello ok"] Session.bot eq_refl
             (or_introl (conj eq_refl (conj eq_refl eq_refl))) eq_refl eq_refl);
      [reflexivity | eexists; reflexivity].
  - apply (self_chat_dispatch Session.E Session.C Session.Commands Session.W
             Session.waiting "|c:|17|*Bot|OK!" "c:" ["17"; "*Bot"; "OK!"]
             (Some "*Bot") ["OK!"] Session.bot eq_refl
             (or_intror (conj eq_refl (conj eq_refl eq_refl))) eq_refl eq_refl);
      [reflexivity | eexists; reflexivity].
Defined.
